(** * lsp_devtools.handlers: the [LspMessage] container and the [LspHandler] shim

    A shallow embedding of [lsp_devtools/handlers/__init__.py].

    The module defines
    - [maybe_json], the lenient converter of the payload fields;
    - the [attrs] class [LspMessage] with its classmethod [from_rpc] and the
      three classification properties;
    - [LspHandler], a [logging.Handler] whose [emit] turns a log record
      into an [LspMessage] and hands it to [handle_message].

    The module calls two functions of the Python standard library.
    [json.loads] is modelled below after CPython's [json.decoder] and
    [json.scanner] with their C accelerators and default arguments;
    [datetime.fromisoformat] is kept as a parameter of the development,
    because no property of this module depends on which texts it accepts.

    Modelling conventions.
    - A Python [str] is the list of its code points, a [bytes] or
      [bytearray] the list of its bytes.
    - Payload values range over [None], [bool], [int], [float], [str],
      [bytes], [bytearray], [list] and [dict] with [str] keys.  A [float]
      is a binary64 number; [float()] rounds a literal to the nearest one,
      to even on a tie, and [float.__repr__] writes the shortest decimal
      that is read back as the same number.
    - What depends on the interpreter rather than on the arguments is a
      parameter: the limit on the digits of an [int] converted from or to
      text, and the nesting the recursion limit still allows when [json]
      is entered.
    - Objects with identity (the raw mapping handed to [from_rpc], the
      [LspMessage] instances) live in a heap and are passed by reference;
      payload values are immutable trees.
    - Exceptions are explicit: an effectful function returns its outcome
      together with the world it leaves behind, the heap and the log of
      the messages handed to [handle_message].

    Layout: the definitions (values, [json.loads], the module, a
    serializer, the notions used in the statements, sample inputs), then
    the properties (the decoder, the serializer, the module). *)

From stdpp Require Import list.
From Stdlib Require Import ZArith NArith String Ascii Lia.
From Stdlib Require Import Floats.SpecFloat.

Set Default Proof Using "Type".
Local Open Scope N_scope.

(** ** Python strings *)

Definition pystr := list N.

(** The [str] whose characters are those of an ASCII literal. *)
Definition str_of (s : string) : pystr :=
  map N_of_ascii (list_ascii_of_string s).

Definition QUOTE : N := 34.       (* the double quote *)
Definition BSLASH : N := 92.      (* the backslash *)
Definition LBRACE : N := 123.
Definition RBRACE : N := 125.
Definition LBRACKET : N := 91.
Definition RBRACKET : N := 93.
Definition COMMA : N := 44.
Definition COLON : N := 58.
Definition MINUS : N := 45.
Definition PLUS : N := 43.
Definition DOT : N := 46.
Definition ZERO : N := 48.

Fixpoint pystr_eqb (a b : pystr) : bool :=
  match a, b with
  | [], [] => true
  | x :: a', y :: b' => (x =? y) && pystr_eqb a' b'
  | _, _ => false
  end.

(** [s[idx:idx+len(lit)] == lit], returning what follows the literal. *)
Fixpoint strip_prefix (lit s : pystr) : option pystr :=
  match lit, s with
  | [], _ => Some s
  | x :: lit', y :: s' => if x =? y then strip_prefix lit' s' else None
  | _ :: _, [] => None
  end.

(** ** Python values

    A [float] is a binary64 number of [SpecFloat]: a zero, an infinity,
    the NaN, or [m * 2 ^ e] with a sign. *)

Definition pyfloat := spec_float.

#[warnings="-register-all"]
Inductive PyValue :=
| PyNone
| PyBool (b : bool)
| PyInt (z : Z)
| PyFloat (f : pyfloat)
| PyStr (s : pystr)
| PyBytes (data : list N)
| PyByteArray (data : list N)
| PyList (items : list PyValue)
| PyDict (pairs : list (pystr * PyValue)).

(** [v is None] and [v is not None] *)
Definition is_none (v : PyValue) : bool :=
  match v with PyNone => true | _ => false end.

Definition is_not_none (v : PyValue) : bool := negb (is_none v).

(** *** Dictionaries

    A [dict] is the list of its items in insertion order, keys distinct. *)

Definition dict := list (pystr * PyValue).

Fixpoint dict_lookup (d : dict) (key : pystr) : option PyValue :=
  match d with
  | [] => None
  | (k, v) :: d' => if pystr_eqb k key then Some v else dict_lookup d' key
  end.

(** [d.get(key, default)] *)
Definition dict_get (d : dict) (key : pystr) (default : PyValue) : PyValue :=
  match dict_lookup d key with
  | Some v => v
  | None => default
  end.

(** [d[key] = v]: an existing key keeps its position. *)
Fixpoint dict_setitem (d : dict) (key : pystr) (v : PyValue) : dict :=
  match d with
  | [] => [(key, v)]
  | (k, w) :: d' =>
      if pystr_eqb k key then (k, v) :: d' else (k, w) :: dict_setitem d' key v
  end.

(** [dict(pairs)] *)
Definition dict_of_pairs (pairs : list (pystr * PyValue)) : dict :=
  fold_left (fun d kv => dict_setitem d (fst kv) (snd kv)) pairs [].

(** ** Exceptions *)

Inductive exn :=
| ValueError
| JSONDecodeError            (* a subclass of [ValueError] *)
| UnicodeDecodeError         (* a subclass of [ValueError] *)
| TypeError
| KeyError (key : pystr)
| AttributeError
| RecursionError.

Inductive Result (A : Type) :=
| Ok (a : A)
| Raise (e : exn).
Arguments Ok {A} a.
Arguments Raise {A} e.

(** ** The interpreter

    What the outcome of [json.loads] depends on besides its argument. *)

Record interpreter := {
  (** [sys.get_int_max_str_digits()]; [0] when there is no limit *)
  int_max_str_digits : nat;
  (** the number of containers, one inside the other, that the recursion
      limit allows at the point where [json] is entered *)
  recursion_budget : nat
}.

(** ** The codec of [json.loads] on [bytes]

    [s.decode(detect_encoding(s), 'surrogatepass')] of the standard
    library: the encoding is read off the first bytes, and the error
    handler lets the code of a surrogate through. *)

Module codec.

Inductive encoding :=
| utf_8 | utf_8_sig | utf_16 | utf_16_be | utf_16_le | utf_32 | utf_32_be | utf_32_le.

Definition startswith (prefix b : list N) : bool :=
  match strip_prefix prefix b with
  | Some _ => true
  | None => false
  end.

(** [json.detect_encoding(b)] *)
Definition detect_encoding (b : list N) : encoding :=
  if startswith [0; 0; 0xfe; 0xff] b || startswith [0xff; 0xfe; 0; 0] b then utf_32
  else if startswith [0xfe; 0xff] b || startswith [0xff; 0xfe] b then utf_16
  else if startswith [0xef; 0xbb; 0xbf] b then utf_8_sig
  else
    match b with
    | b0 :: b1 :: b2 :: b3 :: _ =>
        if b0 =? 0 then (if b1 =? 0 then utf_32_be else utf_16_be)
        else if b1 =? 0 then
          (if (b2 =? 0) && (b3 =? 0) then utf_32_le else utf_16_le)
        else utf_8
    | [b0; b1] =>
        if b0 =? 0 then utf_16_be else if b1 =? 0 then utf_16_le else utf_8
    | _ => utf_8
    end.

Definition within (lo hi b : N) : bool := (lo <=? b) && (b <=? hi).

Definition cons_to (c : N) (r : option pystr) : option pystr :=
  match r with
  | Some s => Some (c :: s)
  | None => None
  end.

(** UTF-8: the shortest form only, nothing above [0x10ffff]; the three
    bytes of a surrogate pass. *)
Fixpoint decode_utf_8 (b : list N) : option pystr :=
  match b with
  | [] => Some []
  | b0 :: r0 =>
      if b0 <? 0x80 then cons_to b0 (decode_utf_8 r0)
      else
        match r0 with
        | [] => None
        | b1 :: r1 =>
            if within 0xc2 0xdf b0 then
              if within 0x80 0xbf b1 then
                cons_to (64 * (b0 - 0xc0) + (b1 - 0x80)) (decode_utf_8 r1)
              else None
            else
              match r1 with
              | [] => None
              | b2 :: r2 =>
                  if within 0xe0 0xef b0 then
                    if within (if b0 =? 0xe0 then 0xa0 else 0x80) 0xbf b1
                       && within 0x80 0xbf b2 then
                      cons_to (4096 * (b0 - 0xe0) + 64 * (b1 - 0x80) + (b2 - 0x80))
                        (decode_utf_8 r2)
                    else None
                  else
                    match r2 with
                    | [] => None
                    | b3 :: r3 =>
                        if within 0xf0 0xf4 b0
                           && within (if b0 =? 0xf0 then 0x90 else 0x80)
                                (if b0 =? 0xf4 then 0x8f else 0xbf) b1
                           && within 0x80 0xbf b2 && within 0x80 0xbf b3 then
                          cons_to (262144 * (b0 - 0xf0) + 4096 * (b1 - 0x80)
                                   + 64 * (b2 - 0x80) + (b3 - 0x80))
                            (decode_utf_8 r3)
                        else None
                    end
              end
        end
  end.

(** The 16-bit units of the bytes, most significant byte first or
    last. *)
Fixpoint units_16 (big : bool) (b : list N) : option (list N) :=
  match b with
  | [] => Some []
  | [_] => None
  | x :: y :: r => cons_to (if big then 256 * x + y else 256 * y + x) (units_16 big r)
  end.

(** UTF-16: the two halves of a pair make one character, a half that is
    alone passes. *)
Fixpoint join_pairs (units : list N) : pystr :=
  match units with
  | [] => []
  | u :: r =>
      match r with
      | v :: r' =>
          if within 0xd800 0xdbff u && within 0xdc00 0xdfff v then
            (0x10000 + 1024 * (u - 0xd800) + (v - 0xdc00)) :: join_pairs r'
          else u :: join_pairs r
      | [] => [u]
      end
  end.

Definition decode_utf_16 (big : bool) (b : list N) : option pystr :=
  match units_16 big b with
  | Some units => Some (join_pairs units)
  | None => None
  end.

(** UTF-32: four bytes a character, nothing above [0x10ffff]. *)
Fixpoint decode_utf_32 (big : bool) (b : list N) : option pystr :=
  match b with
  | [] => Some []
  | x :: y :: z :: t :: r =>
      let c := if big then 16777216 * x + 65536 * y + 256 * z + t
               else 16777216 * t + 65536 * z + 256 * y + x in
      if c <=? 0x10ffff then cons_to c (decode_utf_32 big r) else None
  | _ => None
  end.

(** [b.decode(detect_encoding(b), 'surrogatepass')]; [None] stands for
    [UnicodeDecodeError].  The encodings that are detected by a byte
    order mark drop it. *)
Definition decode (b : list N) : option pystr :=
  match detect_encoding b with
  | utf_8 => decode_utf_8 b
  | utf_8_sig => decode_utf_8 (skipn 3 b)
  | utf_16 =>
      decode_utf_16 (startswith [0xfe; 0xff] b) (skipn 2 b)
  | utf_16_be => decode_utf_16 true b
  | utf_16_le => decode_utf_16 false b
  | utf_32 =>
      decode_utf_32 (startswith [0; 0; 0xfe; 0xff] b) (skipn 4 b)
  | utf_32_be => decode_utf_32 true b
  | utf_32_le => decode_utf_32 false b
  end.

End codec.

(** ** [json.loads]

    The scanner works on the text that remains to be read where CPython
    passes the whole text and an index. *)

Module json.

Definition is_ws (c : N) : bool :=
  (c =? 32) || (c =? 9) || (c =? 10) || (c =? 13).

(** [WHITESPACE.match(s, end).end()] *)
Fixpoint skip_ws (s : pystr) : pystr :=
  match s with
  | c :: r => if is_ws c then skip_ws r else s
  | [] => []
  end.

Definition is_digit (c : N) : bool := (48 <=? c) && (c <=? 57).

(** *** Numbers: [NUMBER_RE]

    Three groups: an integer (an optional minus sign, then either a single
    zero or a digit from 1 to 9 followed by digits), an optional fraction
    (a dot and at least one digit) and an optional exponent (e or E, an
    optional sign, at least one digit). *)

Fixpoint span_digits (s : pystr) : pystr * pystr :=
  match s with
  | c :: r =>
      if is_digit c then let (ds, rest) := span_digits r in (c :: ds, rest)
      else ([], s)
  | [] => ([], [])
  end.

Definition match_integer (s : pystr) : option (pystr * pystr) :=
  let (sign, s1) :=
    match s with
    | c :: r => if c =? MINUS then ([MINUS], r) else ([], s)
    | [] => ([], s)
    end in
  match s1 with
  | c :: r =>
      if c =? ZERO then Some (sign ++ [ZERO], r)
      else if is_digit c then
        let (ds, rest) := span_digits r in Some (sign ++ c :: ds, rest)
      else None
  | [] => None
  end.

Definition match_frac (s : pystr) : pystr * pystr :=
  match s with
  | c :: r =>
      if c =? DOT then
        match span_digits r with
        | ([], _) => ([], s)
        | (ds, rest) => (DOT :: ds, rest)
        end
      else ([], s)
  | [] => ([], s)
  end.

Definition match_exp (s : pystr) : pystr * pystr :=
  match s with
  | c :: r =>
      if (c =? 101) || (c =? 69) then
        let (sign, r1) :=
          match r with
          | d :: r' => if (d =? PLUS) || (d =? MINUS) then ([d], r') else ([], r)
          | [] => ([], r)
          end in
        match span_digits r1 with
        | ([], _) => ([], s)
        | (ds, rest) => (c :: sign ++ ds, rest)
        end
      else ([], s)
  | [] => ([], s)
  end.

(** [match_number(string, idx)]: the three groups and what follows. *)
Definition match_number (s : pystr) : option (pystr * pystr * pystr * pystr) :=
  match match_integer s with
  | None => None
  | Some (integer, s1) =>
      let (frac, s2) := match_frac s1 in
      let (exp, s3) := match_exp s2 in
      Some (integer, frac, exp, s3)
  end.

Definition digits_value (ds : pystr) : Z :=
  fold_left (fun acc d => (10 * acc + Z.of_N (d - 48))%Z) ds 0%Z.

(** [int(integer)] on a text matched by the first group. *)
Definition parse_int (integer : pystr) : Z :=
  match integer with
  | c :: ds => if c =? MINUS then (- digits_value ds)%Z else digits_value integer
  | [] => 0%Z
  end.

(** *** [float()] on a float literal

    The value of the literal is [M * 10 ^ E] for the integer [M] of its
    digits; it is rounded to the nearest binary64 number, to even on a
    tie, to an infinity beyond the largest one. *)

Definition exp_value (exp : pystr) : Z :=
  match exp with
  | _ :: c :: ds =>
      if c =? MINUS then (- digits_value ds)%Z
      else if c =? PLUS then digits_value ds
      else digits_value (c :: ds)
  | _ => 0%Z
  end.

Definition binary64 (neg : bool) (M E : Z) : pyfloat :=
  match M with
  | Z0 => S754_zero neg
  | Zpos _ =>
      if (0 <=? E)%Z then
        binary_normalize 53 1024 (if neg then - (M * 10 ^ E) else M * 10 ^ E)%Z 0 neg
      else
        let '(q, e, l) := SFdiv_core_binary 53 1024 M 0 (10 ^ (- E))%Z 0 in
        binary_round_aux 53 1024 neg q e l
  | Zneg _ => S754_nan
  end.

(** [float(integer + frac + exp)] on the three groups of [NUMBER_RE] *)
Definition float_of_literal (integer frac exp : pystr) : pyfloat :=
  let neg := match integer with c :: _ => c =? MINUS | [] => false end in
  let int_digits := if neg then tail integer else integer in
  let frac_digits := tail frac in
  binary64 neg (digits_value (int_digits ++ frac_digits))
    (exp_value exp - Z.of_nat (List.length frac_digits)).

(** *** The limit on the digits of an [int]

    [int()] refuses a text of more than [max] digits when [max] is not
    [0]; texts of up to 640 digits are never refused. *)

Definition exceeds_limit (max digits : nat) : bool :=
  ((640 <? digits) && (0 <? max) && (max <? digits))%nat.

(** The number of digits of a text matched by the first group. *)
Definition count_digits (integer : pystr) : nat :=
  match integer with
  | c :: ds => if c =? MINUS then List.length ds else List.length integer
  | [] => O
  end.

(** *** Strings: [scanstring] with [strict=True] *)

Definition hex_digit (c : N) : option N :=
  if (48 <=? c) && (c <=? 57) then Some (c - 48)
  else if (97 <=? c) && (c <=? 102) then Some (c - 87)
  else if (65 <=? c) && (c <=? 70) then Some (c - 55)
  else None.

Definition decode_uXXXX (a b c d : N) : option N :=
  match hex_digit a, hex_digit b, hex_digit c, hex_digit d with
  | Some x, Some y, Some z, Some w => Some (((x * 16 + y) * 16 + z) * 16 + w)
  | _, _, _, _ => None
  end.

(** The table [BACKSLASH] of the one-letter escapes. *)
Definition BACKSLASH (esc : N) : option N :=
  if esc =? QUOTE then Some QUOTE
  else if esc =? BSLASH then Some BSLASH
  else if esc =? 47 then Some 47        (* / *)
  else if esc =? 98 then Some 8         (* b *)
  else if esc =? 102 then Some 12       (* f *)
  else if esc =? 110 then Some 10       (* n *)
  else if esc =? 114 then Some 13       (* r *)
  else if esc =? 116 then Some 9        (* t *)
  else None.

Definition is_high_surrogate (uni : N) : bool := (0xd800 <=? uni) && (uni <=? 0xdbff).
Definition is_low_surrogate (uni : N) : bool := (0xdc00 <=? uni) && (uni <=? 0xdfff).

Definition join_surrogates (uni uni2 : N) : N :=
  0x10000 + N.lor (N.shiftl (uni - 0xd800) 10) (uni2 - 0xdc00).

(** [scanstring(s, end)], [s] starting after the opening quote; [chunks]
    are the characters decoded so far.  [None]: the text is rejected. *)
Fixpoint scanstring (s chunks : pystr) {struct s} : option (pystr * pystr) :=
  match s with
  | [] => None                                   (* unterminated *)
  | c :: r =>
      if c =? QUOTE then Some (chunks, r)
      else if c <? 32 then None                  (* control character *)
      else if negb (c =? BSLASH) then scanstring r (chunks ++ [c])
      else
        match r with
        | [] => None
        | esc :: r1 =>
            if negb (esc =? 117) then
              match BACKSLASH esc with
              | Some char => scanstring r1 (chunks ++ [char])
              | None => None
              end
            else
              match r1 with
              | a :: b :: c2 :: d :: r2 =>
                  match decode_uXXXX a b c2 d with
                  | None => None
                  | Some uni =>
                      match r2 with
                      | bs :: lu :: r3 =>
                          if is_high_surrogate uni && (bs =? BSLASH) && (lu =? 117) then
                            match r3 with
                            | a' :: b' :: c' :: d' :: r4 =>
                                match decode_uXXXX a' b' c' d' with
                                | None => None
                                | Some uni2 =>
                                    if is_low_surrogate uni2
                                    then scanstring r4 (chunks ++ [join_surrogates uni uni2])
                                    else scanstring r2 (chunks ++ [uni])
                                end
                            | _ => None
                            end
                          else scanstring r2 (chunks ++ [uni])
                      | _ => scanstring r2 (chunks ++ [uni])
                      end
                  end
              | _ => None
              end
        end
  end.

(** *** The scanner *)

Inductive scan (A : Type) :=
| Scanned (a : A) (rest : pystr)
| Malformed                   (* [JSONDecodeError] *)
| Exhausted                   (* [RecursionError]: nested too deep *)
| Oversized.                  (* [ValueError]: an [int] of too many digits *)
Arguments Scanned {A} a rest.
Arguments Malformed {A}.
Arguments Exhausted {A}.
Arguments Oversized {A}.

Section Scanner.

(** The hook [parse_constant]; [None] when it raises. *)
Variable parse_constant : pystr -> option PyValue.

(** The limit on the digits of an [int]. *)
Variable max_str_digits : nat.

Definition scan_constant (name rest : pystr) : scan PyValue :=
  match parse_constant name with
  | Some v => Scanned v rest
  | None => Malformed
  end.

(** The loop of [JSONArray]: one value, then a comma or the closing
    bracket.  [n] bounds the number of turns; the loop is entered with
    more than the text can take. *)
Fixpoint array_loop (scan_once : pystr -> scan PyValue) (n : nat)
    (s : pystr) (values : list PyValue) : scan PyValue :=
  match n with
  | O => Exhausted
  | S n' =>
      match scan_once s with
      | Scanned value r =>
          match skip_ws r with
          | nextchar :: r' =>
              if nextchar =? RBRACKET then Scanned (PyList (values ++ [value])) r'
              else if nextchar =? COMMA then
                array_loop scan_once n' (skip_ws r') (values ++ [value])
              else Malformed
          | [] => Malformed
          end
      | Malformed => Malformed
      | Exhausted => Exhausted
      | Oversized => Oversized
      end
  end.

Definition JSONArray (scan_once : pystr -> scan PyValue) (n : nat)
    (s : pystr) : scan PyValue :=
  match skip_ws s with
  | nextchar :: r =>
      if nextchar =? RBRACKET then Scanned (PyList []) r
      else array_loop scan_once n (skip_ws s) []
  | [] => Malformed
  end.

(** The loop of [JSONObject], entered after the opening quote of a key. *)
Fixpoint object_loop (scan_once : pystr -> scan PyValue) (n : nat)
    (s : pystr) (pairs : list (pystr * PyValue)) : scan PyValue :=
  match n with
  | O => Exhausted
  | S n' =>
      match scanstring s [] with
      | None => Malformed
      | Some (key, r) =>
          match skip_ws r with
          | colon :: r0 =>
              if colon =? COLON then
                match scan_once (skip_ws r0) with
                | Scanned value r1 =>
                    match skip_ws r1 with
                    | nextchar :: r2 =>
                        if nextchar =? RBRACE then
                          Scanned (PyDict (dict_of_pairs (pairs ++ [(key, value)]))) r2
                        else if nextchar =? COMMA then
                          match skip_ws r2 with
                          | q :: r3 =>
                              if q =? QUOTE then
                                object_loop scan_once n' r3 (pairs ++ [(key, value)])
                              else Malformed
                          | [] => Malformed
                          end
                        else Malformed
                    | [] => Malformed
                    end
                | Malformed => Malformed
                | Exhausted => Exhausted
                | Oversized => Oversized
                end
              else Malformed
          | [] => Malformed
          end
      end
  end.

Definition JSONObject (scan_once : pystr -> scan PyValue) (n : nat)
    (s : pystr) : scan PyValue :=
  match skip_ws s with
  | nextchar :: r =>
      if nextchar =? QUOTE then object_loop scan_once n r []
      else if nextchar =? RBRACE then Scanned (PyDict []) r
      else Malformed
  | [] => Malformed
  end.

Definition scan_literal (s : pystr) : option (PyValue * pystr) :=
  match strip_prefix (str_of "null") s with
  | Some rest => Some (PyNone, rest)
  | None =>
  match strip_prefix (str_of "true") s with
  | Some rest => Some (PyBool true, rest)
  | None =>
  match strip_prefix (str_of "false") s with
  | Some rest => Some (PyBool false, rest)
  | None => None
  end end end.

Definition scan_number (s : pystr) : scan PyValue :=
  match match_number s with
  | Some (integer, frac, exp, rest) =>
      match frac, exp with
      | [], [] =>
          if exceeds_limit max_str_digits (count_digits integer) then Oversized
          else Scanned (PyInt (parse_int integer)) rest
      | _, _ => Scanned (PyFloat (float_of_literal integer frac exp)) rest
      end
  | None =>
  match strip_prefix (str_of "NaN") s with
  | Some rest => scan_constant (str_of "NaN") rest
  | None =>
  match strip_prefix (str_of "Infinity") s with
  | Some rest => scan_constant (str_of "Infinity") rest
  | None =>
  match strip_prefix (str_of "-Infinity") s with
  | Some rest => scan_constant (str_of "-Infinity") rest
  | None => Malformed
  end end end end.

(** [scan_once(string, idx)]; [depth] is the number of containers that
    may still be entered, one inside the other. *)
Fixpoint scan_once (depth : nat) (s : pystr) : scan PyValue :=
  match s with
  | [] => Malformed
  | nextchar :: r =>
      if nextchar =? QUOTE then
        match scanstring r [] with
        | Some (str, rest) => Scanned (PyStr str) rest
        | None => Malformed
        end
      else if nextchar =? LBRACE then
        match depth with
        | O => Exhausted
        | S depth' => JSONObject (scan_once depth') (S (List.length r)) r
        end
      else if nextchar =? LBRACKET then
        match depth with
        | O => Exhausted
        | S depth' => JSONArray (scan_once depth') (S (List.length r)) r
        end
      else
        match scan_literal s with
        | Some (v, rest) => Scanned v rest
        | None => scan_number s
        end
  end.

(** [JSONDecoder.decode(s)]: one value between optional whitespace, and
    nothing after it. *)
Definition decode (depth : nat) (s : pystr) : scan PyValue :=
  match scan_once depth (skip_ws s) with
  | Scanned obj rest =>
      match skip_ws rest with
      | [] => Scanned obj []
      | _ :: _ => Malformed             (* extra data *)
      end
  | Malformed => Malformed
  | Exhausted => Exhausted
  | Oversized => Oversized
  end.

End Scanner.

(** The table [_CONSTANTS], the default [parse_constant]. *)
Definition _CONSTANTS (name : pystr) : option PyValue :=
  if pystr_eqb name (str_of "-Infinity") then Some (PyFloat (S754_infinity true))
  else if pystr_eqb name (str_of "Infinity") then Some (PyFloat (S754_infinity false))
  else if pystr_eqb name (str_of "NaN") then Some (PyFloat S754_nan)
  else None.

(** A [parse_constant] that raises: the decoder then accepts the grammar
    of RFC 8259 and nothing else. *)
Definition no_constant (name : pystr) : option PyValue := None.

(** The value the grammar gives a text, were there no limit: no limit on
    the digits, and a depth no text of this length needs. *)
Definition grammar (s : pystr) : scan PyValue :=
  decode no_constant 0 (List.length s) s.

(** [_default_decoder.decode(s)] in the interpreter [py] *)
Definition default_decoder (py : interpreter) (text : pystr) : Result PyValue :=
  match decode _CONSTANTS (int_max_str_digits py) (recursion_budget py) text with
  | Scanned obj _ => Ok obj
  | Malformed => Raise JSONDecodeError
  | Exhausted => Raise RecursionError
  | Oversized => Raise ValueError
  end.

(** [json.loads(s)].  A [str] is decoded unless it starts with a byte
    order mark; [bytes] and [bytearray] are turned into text first; every
    other value is refused with [TypeError]. *)
Definition loads (py : interpreter) (s : PyValue) : Result PyValue :=
  match s with
  | PyStr text =>
      match strip_prefix [0xfeff] text with
      | Some _ => Raise JSONDecodeError        (* byte order mark *)
      | None => default_decoder py text
      end
  | PyBytes data | PyByteArray data =>
      match codec.decode data with
      | Some text => default_decoder py text
      | None => Raise UnicodeDecodeError
      end
  | _ => Raise TypeError
  end.

(** Notions of the proofs.  A scanning function consumes some text
    whenever it succeeds; whatever it accepts, another one accepts with
    the same outcome. *)
Definition progresses (f : pystr -> scan PyValue) : Prop :=
  forall s v r, f s = Scanned v r -> (List.length r < List.length s)%nat.

Definition refines (f1 f2 : pystr -> scan PyValue) : Prop :=
  forall s v r, f1 s = Scanned v r -> f2 s = Scanned v r.

(** An outcome that is a limit of the interpreter, and a scanning
    function that differs from another one at such outcomes only. *)
Definition at_limit (r : scan PyValue) : Prop := r = Exhausted \/ r = Oversized.

Definition restricts (f1 f2 : pystr -> scan PyValue) : Prop :=
  forall s v r, f1 s = Scanned v r -> f2 s = Scanned v r \/ at_limit (f2 s).

End json.

(** ** The module *)

(** [try: body  except Exception: handler] *)
Definition try_except {A : Type} (body : Result A) (handler : exn -> Result A)
  : Result A :=
  match body with
  | Ok a => Ok a
  | Raise e => handler e
  end.

(** [py] is the interpreter the module runs in. *)
Definition maybe_json (py : interpreter) (value : PyValue) : Result PyValue :=
  try_except (json.loads py value) (fun _ => Ok value).

Definition loc := nat.

Section Handlers.

Variable py : interpreter.

(** [datetime] and [datetime.fromisoformat]; [None] stands for the
    [ValueError] raised on a text that is not accepted. *)
Context {datetime : Type}.
Variable fromisoformat : pystr -> option datetime.

Definition datetime_fromisoformat (date_string : pystr) : Result datetime :=
  match fromisoformat date_string with
  | Some t => Ok t
  | None => Raise ValueError
  end.

(** The attributes of the class, in the order of their declaration. *)
Record LspMessage := {
  session : pystr;
  timestamp : datetime;
  source : pystr;
  id : PyValue;
  method : PyValue;
  params : PyValue;
  result : PyValue;
  error : PyValue
}.

(** *** The heap and the monad of effects *)

Inductive object :=
| ODict (d : dict)
| OMessage (m : LspMessage).

(** [handled] lists, oldest first, the messages [handle_message] has been
    invoked on. *)
Record world := World {
  heap : list object;
  handled : list loc
}.

Definition M (A : Type) : Type := world -> Result A * world.

#[local] Instance M_ret : MRet M := fun A a w => (Ok a, w).

#[local] Instance M_bind : MBind M := fun A B f c w =>
  match c w with
  | (Ok a, w') => f a w'
  | (Raise e, w') => (Raise e, w')
  end.

Definition lift {A : Type} (r : Result A) : M A := fun w => (r, w).

(** A new object: the heap grows at its end. *)
Definition alloc (o : object) : M loc := fun w =>
  (Ok (List.length (heap w)),
   {| heap := heap w ++ [o]; handled := handled w |}).

(** [message.get(key, default)] *)
Definition Mapping_get (message : loc) (key : pystr) (default : PyValue)
  : M PyValue := fun w =>
  match heap w !! message with
  | Some (ODict d) => (Ok (dict_get d key default), w)
  | _ => (Raise AttributeError, w)
  end.

(** Reading the attributes of [self]. *)
Definition load (self : loc) : M LspMessage := fun w =>
  match heap w !! self with
  | Some (OMessage m) => (Ok m, w)
  | _ => (Raise AttributeError, w)
  end.

(** *** [LspMessage] *)

(** The [__init__] that [attrs.define] generates: the three payload
    attributes go through their converter. *)
Definition LspMessage_init (session : pystr) (timestamp : datetime)
    (source : pystr) (id method params result error : PyValue) : M loc :=
  params ← lift (maybe_json py params);
  result ← lift (maybe_json py result);
  error ← lift (maybe_json py error);
  alloc (OMessage {|
    session := session; timestamp := timestamp; source := source;
    id := id; method := method;
    params := params; result := result; error := error |}).

Definition from_rpc (session timestamp source : pystr) (message : loc)
  : M loc :=
  timestamp ← lift (datetime_fromisoformat timestamp);
  id ← Mapping_get message (str_of "id") PyNone;
  method ← Mapping_get message (str_of "method") PyNone;
  params ← Mapping_get message (str_of "params") PyNone;
  result ← Mapping_get message (str_of "result") PyNone;
  error ← Mapping_get message (str_of "error") PyNone;
  LspMessage_init session timestamp source id method params result error.

Definition is_request (self : loc) : M bool :=
  m ← load self;
  mret (is_not_none (id m) && is_not_none (params m)).

Definition is_response (self : loc) : M bool :=
  m ← load self;
  let result_or_error := is_not_none (result m) || is_not_none (error m) in
  mret (is_not_none (id m) && result_or_error).

Definition is_notification (self : loc) : M bool :=
  m ← load self;
  mret (is_none (id m) && is_not_none (params m)).

(** Assignment to an attribute.  [attrs.define] leaves the class mutable
    and runs the converter of the attribute on the value assigned. *)
Inductive assignment :=
| set_session (v : pystr)
| set_timestamp (v : datetime)
| set_source (v : pystr)
| set_id (v : PyValue)
| set_method (v : PyValue)
| set_params (v : PyValue)
| set_result (v : PyValue)
| set_error (v : PyValue).

Definition assign (m : LspMessage) (a : assignment) : Result LspMessage :=
  let '{| session := s; timestamp := t; source := src; id := i; method := me;
          params := p; result := r; error := e |} := m in
  match a with
  | set_session v => Ok {| session := v; timestamp := t; source := src; id := i;
                           method := me; params := p; result := r; error := e |}
  | set_timestamp v => Ok {| session := s; timestamp := v; source := src; id := i;
                             method := me; params := p; result := r; error := e |}
  | set_source v => Ok {| session := s; timestamp := t; source := v; id := i;
                          method := me; params := p; result := r; error := e |}
  | set_id v => Ok {| session := s; timestamp := t; source := src; id := v;
                      method := me; params := p; result := r; error := e |}
  | set_method v => Ok {| session := s; timestamp := t; source := src; id := i;
                          method := v; params := p; result := r; error := e |}
  | set_params v =>
      match maybe_json py v with
      | Ok v' => Ok {| session := s; timestamp := t; source := src; id := i;
                       method := me; params := v'; result := r; error := e |}
      | Raise x => Raise x
      end
  | set_result v =>
      match maybe_json py v with
      | Ok v' => Ok {| session := s; timestamp := t; source := src; id := i;
                       method := me; params := p; result := v'; error := e |}
      | Raise x => Raise x
      end
  | set_error v =>
      match maybe_json py v with
      | Ok v' => Ok {| session := s; timestamp := t; source := src; id := i;
                       method := me; params := p; result := r; error := v' |}
      | Raise x => Raise x
      end
  end.

Definition LspMessage_setattr (self : loc) (a : assignment) : M unit := fun w =>
  match heap w !! self with
  | Some (OMessage m) =>
      match assign m a with
      | Ok m' => (Ok tt, {| heap := <[self := OMessage m']> (heap w);
                            handled := handled w |})
      | Raise x => (Raise x, w)
      end
  | _ => (Raise AttributeError, w)
  end.

(** *** [LspHandler] *)

(** What [emit] reads of a [logging.LogRecord]: [args], and the [str]
    entries of [__dict__]. *)
Inductive record_args :=
| args_tuple (items : list PyValue)
| args_dict (message : loc)
| args_none.

Record LogRecord := {
  args : record_args;
  __dict__ : list (pystr * pystr)
}.

(** [d[key]] *)
Fixpoint getitem (d : list (pystr * pystr)) (key : pystr) : Result pystr :=
  match d with
  | [] => Raise (KeyError key)
  | (k, v) :: d' => if pystr_eqb k key then Ok v else getitem d' key
  end.

(** [handle_message] of the base class: a docstring and nothing else. *)
Definition LspHandler_handle_message (message : loc) (h : list object)
  : Result unit * list object := (Ok tt, h).

Section Emit.

(** The [handle_message] of the handler at hand: [LspHandler]'s own or
    the one a subclass overrides it with. *)
Variable handle_message : loc -> list object -> Result unit * list object.

(** [self.handle_message(message)] *)
Definition call_handle_message (message : loc) : M unit := fun w =>
  let (r, h) := handle_message message (heap w) in
  (r, {| heap := h; handled := handled w ++ [message] |}).

Definition emit (record : LogRecord) : M unit :=
  match args record with
  | args_dict message =>
      source ← lift (getitem (__dict__ record) (str_of "Message-Source"));
      session ← lift (getitem (__dict__ record) (str_of "Message-Session"));
      timestamp ← lift (getitem (__dict__ record) (str_of "Message-Timestamp"));
      m ← from_rpc session timestamp source message;
      call_handle_message m
  | _ => mret tt
  end.

End Emit.

End Handlers.

(** ** Re-encoding

    The specification speaks of the serialized form of a parsed message;
    the module itself has no encoder.  [serialize] is the standard one,
    [json.dumps(obj, ensure_ascii=...)] with its other arguments left at
    their defaults: the text it returns when it returns. *)

Module serializer.
Import json.

Definition hex_char (n : N) : N := if n <? 10 then 48 + n else 87 + n.

(** [ESCAPE_DCT]: the replacement of a character that has to be escaped. *)
Definition escape_char (c : N) : pystr :=
  if c =? QUOTE then [BSLASH; QUOTE]
  else if c =? BSLASH then [BSLASH; BSLASH]
  else if c =? 10 then [BSLASH; 110]
  else if c =? 13 then [BSLASH; 114]
  else if c =? 9 then [BSLASH; 116]
  else if c =? 12 then [BSLASH; 102]
  else if c =? 8 then [BSLASH; 98]
  else if c <? 32 then [BSLASH; 117; 48; 48; hex_char (c / 16); hex_char (c mod 16)]
  else [c].

(** [encode_basestring(s)], the encoder of [ensure_ascii=False] *)
Definition encode_str (s : pystr) : pystr :=
  QUOTE :: flat_map escape_char s ++ [QUOTE].

(** The escape [\uXXXX] of a number below [0x10000]. *)
Definition escape_u (n : N) : pystr :=
  [BSLASH; 117; hex_char (n / 4096); hex_char ((n / 256) mod 16);
   hex_char ((n / 16) mod 16); hex_char (n mod 16)].

(** The replacement of a character under [ensure_ascii=True]: printable
    ASCII stays, a character beyond the basic plane becomes the escapes
    of a surrogate pair. *)
Definition escape_ascii_char (c : N) : pystr :=
  if (32 <=? c) && (c <=? 126) then
    if c =? QUOTE then [BSLASH; QUOTE]
    else if c =? BSLASH then [BSLASH; BSLASH]
    else [c]
  else if c =? 10 then [BSLASH; 110]
  else if c =? 13 then [BSLASH; 114]
  else if c =? 9 then [BSLASH; 116]
  else if c =? 12 then [BSLASH; 102]
  else if c =? 8 then [BSLASH; 98]
  else if c <? 0x10000 then escape_u c
  else
    let n := c - 0x10000 in
    escape_u (N.lor 0xd800 (N.land (N.shiftr n 10) 0x3ff))
    ++ escape_u (N.lor 0xdc00 (N.land n 0x3ff)).

(** [encode_basestring_ascii(s)], the encoder of [ensure_ascii=True] *)
Definition encode_str_ascii (s : pystr) : pystr :=
  QUOTE :: flat_map escape_ascii_char s ++ [QUOTE].

Definition encode_basestring (ensure_ascii : bool) (s : pystr) : pystr :=
  if ensure_ascii then encode_str_ascii s else encode_str s.

(** The decimal digits of [n], most significant first; [k] bounds their
    number. *)
Fixpoint digits_upto (k : nat) (n : N) : pystr :=
  match k with
  | O => []
  | S k' =>
      if n <? 10 then [48 + n]
      else digits_upto k' (n / 10) ++ [48 + n mod 10]
  end.

Definition digits (n : N) : pystr :=
  digits_upto (S (N.to_nat (N.log2 n))) n.

(** [int.__repr__] *)
Definition int_repr (z : Z) : pystr :=
  match z with
  | Z0 => digits 0
  | Zpos p => digits (Npos p)
  | Zneg p => MINUS :: digits (Npos p)
  end.

(** *** [float.__repr__]

    The shortest decimal [D * 10 ^ q] that [float()] reads as the number,
    the closest to it when there are two, laid out as format code [r]
    does. *)

Definition sf_eqb (a b : pyfloat) : bool :=
  match a, b with
  | S754_zero s, S754_zero s' => Bool.eqb s s'
  | S754_infinity s, S754_infinity s' => Bool.eqb s s'
  | S754_nan, S754_nan => true
  | S754_finite s m e, S754_finite s' m' e' =>
      Bool.eqb s s' && (m =? m')%positive && (e =? e')%Z
  | _, _ => false
  end.

(** [m * 2 ^ e] as a fraction. *)
Definition ratio (m : positive) (e : Z) : Z * Z :=
  if (0 <=? e)%Z then (Zpos m * 2 ^ e, 1)%Z else (Zpos m, 2 ^ (- e))%Z.

(** [10 ^ k <= num / den] *)
Definition pow10_le (k : Z) (x : Z * Z) : bool :=
  let (num, den) := x in
  if (0 <=? k)%Z then (10 ^ k * den <=? num)%Z else (den <=? num * 10 ^ (- k))%Z.

(** The [k] with [10 ^ k <= x < 10 ^ (k + 1)], sought from an estimate. *)
Fixpoint adjust (fuel : nat) (k : Z) (x : Z * Z) : Z :=
  match fuel with
  | O => k
  | S fuel' =>
      if negb (pow10_le k x) then adjust fuel' (k - 1)%Z x
      else if pow10_le (k + 1) x then adjust fuel' (k + 1)%Z x
      else k
  end.

Definition floor_log10 (x : Z * Z) : Z :=
  let (num, den) := x in
  adjust 8 ((Z.log2 num - Z.log2 den) * 1233 / 4096)%Z x.

(** [floor (x / 10 ^ q)], and whether twice what is left is below, at or
    above one unit. *)
Definition scaled (x : Z * Z) (q : Z) : Z * comparison :=
  let (num, den) := x in
  let (n, d) :=
    if (0 <=? q)%Z then (num, den * 10 ^ q)%Z else (num * 10 ^ (- q), den)%Z in
  ((n / d)%Z, (2 * (n mod d) ?= d)%Z).

(** The search, from [n] digits on. *)
Fixpoint shortest (fuel : nat) (n : Z) (m : positive) (e : Z) (e10 : Z) : Z * Z :=
  let q := (e10 - n + 1)%Z in
  let (lo, c) := scaled (ratio m e) q in
  let ok D := sf_eqb (binary64 false D q) (S754_finite false m e) in
  match fuel with
  | O => (lo, q)
  | S fuel' =>
      match ok lo, ok (lo + 1)%Z with
      | true, true => match c with Gt => ((lo + 1)%Z, q) | _ => (lo, q) end
      | true, false => (lo, q)
      | false, true => ((lo + 1)%Z, q)
      | false, false => shortest fuel' (n + 1)%Z m e e10
      end
  end.

Fixpoint strip_zeros (fuel : nat) (D q : Z) : Z * Z :=
  match fuel with
  | O => (D, q)
  | S fuel' =>
      if (D mod 10 =? 0)%Z then strip_zeros fuel' (D / 10)%Z (q + 1)%Z else (D, q)
  end.

Definition zeros (n : Z) : pystr := repeat ZERO (Z.to_nat n).

(** The text of a positive number [m * 2 ^ e]. *)
Definition repr_finite (m : positive) (e : Z) : pystr :=
  let '(D0, q0) := shortest 17 1 m e (floor_log10 (ratio m e)) in
  let '(D, q) := strip_zeros 20 D0 q0 in
  let ds := digits (Z.to_N D) in
  let len := Z.of_nat (List.length ds) in
  let decpt := (q + len)%Z in
  if (decpt <=? -4)%Z || (16 <? decpt)%Z then
    let ex := (decpt - 1)%Z in
    let mant := match ds with
                | d :: (_ :: _) as r => d :: DOT :: r
                | _ => ds
                end in
    let exd := digits (Z.to_N (Z.abs ex)) in
    mant ++ [101; if (ex <? 0)%Z then MINUS else PLUS]
         ++ (match exd with [_] => ZERO :: exd | _ => exd end)
  else if (decpt <=? 0)%Z then ZERO :: DOT :: zeros (- decpt) ++ ds
  else if (decpt <? len)%Z then
    firstn (Z.to_nat decpt) ds ++ DOT :: skipn (Z.to_nat decpt) ds
  else ds ++ zeros (decpt - len) ++ [DOT; ZERO].

(** [floatstr] of the encoder: [float.__repr__], but for the three
    values that are not numbers of JSON. *)
Definition float_repr (f : pyfloat) : pystr :=
  match f with
  | S754_nan => str_of "NaN"
  | S754_infinity s => if s then str_of "-Infinity" else str_of "Infinity"
  | S754_zero s => if s then str_of "-0.0" else str_of "0.0"
  | S754_finite s m e => (if s then [MINUS] else []) ++ repr_finite m e
  end.

(** [', '.join(chunks)] *)
Fixpoint join (chunks : list pystr) : pystr :=
  match chunks with
  | [] => []
  | [c] => c
  | c :: chunks' => c ++ COMMA :: 32 :: join chunks'
  end.

(** [json.dumps(obj, ensure_ascii=ensure_ascii)].  On [bytes] and
    [bytearray] it raises [TypeError]: there is no text, and the
    statements leave these values out. *)
Fixpoint serialize (ensure_ascii : bool) (obj : PyValue) : pystr :=
  match obj with
  | PyNone => str_of "null"
  | PyBool true => str_of "true"
  | PyBool false => str_of "false"
  | PyInt z => int_repr z
  | PyFloat f => float_repr f
  | PyStr s => encode_basestring ensure_ascii s
  | PyBytes _ | PyByteArray _ => []
  | PyList items =>
      LBRACKET :: join (map (serialize ensure_ascii) items) ++ [RBRACKET]
  | PyDict pairs =>
      LBRACE ::
      join (map (fun kv => encode_basestring ensure_ascii (fst kv)
                             ++ COLON :: 32 :: serialize ensure_ascii (snd kv))
              pairs)
      ++ [RBRACE]
  end.

(** What may follow a value: nothing, a comma, a closing bracket or a
    closing brace. *)
Definition delimited (rest : pystr) : bool :=
  match rest with
  | [] => true
  | c :: _ => (c =? COMMA) || (c =? RBRACKET) || (c =? RBRACE)
  end.

(** [float()] reads the text of the float back as the same number.
    [float.__repr__] is made so that every number passes; the statements
    ask it of the numbers they need it for. *)
Definition reads_back (f : pyfloat) : bool :=
  match f with
  | S754_nan | S754_infinity _ => true
  | _ =>
      match match_number (float_repr f) with
      | Some (integer, frac, exp, []) =>
          match frac, exp with
          | [], [] => false
          | _, _ => sf_eqb (float_of_literal integer frac exp) f
          end
      | _ => false
      end
  end.

Fixpoint distinct (keys : list pystr) : bool :=
  match keys with
  | [] => true
  | k :: keys' => negb (existsb (pystr_eqb k) keys') && distinct keys'
  end.

(** The values that [json.loads] reads back from their text when it may
    convert [int]s of [max] digits and nest [depth] containers: no
    [bytes], the keys of a [dict] distinct, every [int] and the nesting
    within these limits, every [float] read back by [float()]. *)
Fixpoint well_formed (max depth : nat) (obj : PyValue) {struct obj} : bool :=
  match obj with
  | PyInt z => negb (exceeds_limit max (List.length (digits (Z.abs_N z))))
  | PyFloat f => reads_back f
  | PyBytes _ | PyByteArray _ => false
  | PyList items =>
      match depth with
      | O => false
      | S depth' => forallb (well_formed max depth') items
      end
  | PyDict pairs =>
      match depth with
      | O => false
      | S depth' =>
          distinct (map fst pairs)
          && forallb (fun kv => well_formed max depth' (snd kv)) pairs
      end
  | _ => true
  end.

(** A key and its value, as [serialize] writes them. *)
Definition item_text (kv : pystr * PyValue) : pystr :=
  encode_str (fst kv) ++ COLON :: 32 :: serialize false (snd kv).

(** A serialized value starts with a character that is neither
    whitespace nor a closing bracket. *)
Definition starts_value (text : pystr) : Prop :=
  exists c s, text = c :: s /\ json.is_ws c = false /\ c <> RBRACKET.

End serializer.

(** ** Notions used in the statements *)

(** Valid JSON, in the words of the specification: a text of the grammar
    of RFC 8259, to which the constants [NaN], [Infinity] and [-Infinity]
    do not belong. *)
Definition valid_json (text : pystr) : Prop :=
  exists obj, json.grammar text = json.Scanned obj [].

(** The value [maybe_json] returns. *)
Definition maybe_json_value (py : interpreter) (value : PyValue) : PyValue :=
  match json.loads py value with
  | Ok obj => obj
  | Raise _ => value
  end.

(** The text [json.loads] decodes for a raw value: the [str] itself, what
    the codec makes of [bytes]; no text for any other value, nor for
    [bytes] the codec refuses. *)
Definition raw_text (raw : PyValue) : option pystr :=
  match raw with
  | PyStr text => Some text
  | PyBytes data | PyByteArray data => codec.decode data
  | _ => None
  end.

(** The decoder gives the text up at a limit of the interpreter: an
    [int] of too many digits, or containers nested too deep. *)
Definition beyond_limits (py : interpreter) (text : pystr) : Prop :=
  json.at_limit (json.decode json._CONSTANTS (int_max_str_digits py)
                   (recursion_budget py) text).

(** A text too short to reach either limit. *)
Definition short (py : interpreter) (text : pystr) : Prop :=
  (List.length text <= recursion_budget py)%nat /\
  json.exceeds_limit (int_max_str_digits py) (List.length text) = false.

(** [v] is what the converter makes of [raw]: the conversion returns; a
    text that [json.loads] accepts is decoded; a valid JSON text is
    decoded to the value the grammar gives it unless it is beyond the
    limits of the interpreter, which no short text is; anything else is
    kept: a text [json.loads] rejects, a value that is no text. *)
Definition coerced (py : interpreter) (raw v : PyValue) : Prop :=
  maybe_json py raw = Ok v /\
  match raw_text raw with
  | Some text =>
      (forall obj, json.loads py raw = Ok obj -> v = obj) /\
      (forall obj, json.grammar text = json.Scanned obj [] ->
         (v = obj /\ ~ beyond_limits py text) \/
         (v = raw /\ beyond_limits py text)) /\
      (forall obj, json.grammar text = json.Scanned obj [] ->
         short py text -> v = obj) /\
      ((forall obj, json.loads py raw <> Ok obj) -> v = raw)
  | None => v = raw
  end.

(** The JSON text [null]. *)
Definition null : PyValue := PyStr (str_of "null").

(** The message [from_rpc] builds from the items [d] of the raw mapping
    once the timestamp has been parsed. *)
Definition message_of {datetime : Type} (py : interpreter) (session : pystr)
    (t : datetime) (source : pystr) (d : dict) : @LspMessage datetime :=
  {| session := session; timestamp := t; source := source;
     id := dict_get d (str_of "id") PyNone;
     method := dict_get d (str_of "method") PyNone;
     params := maybe_json_value py (dict_get d (str_of "params") PyNone);
     result := maybe_json_value py (dict_get d (str_of "result") PyNone);
     error := maybe_json_value py (dict_get d (str_of "error") PyNone) |}.

(** [raw] is a serialized form of the payload [v]: a JSON text that
    [json.loads] decodes to [v], or nothing at all when [v] is [None]. *)
Definition serializes (py : interpreter) (raw v : PyValue) : Prop :=
  json.loads py raw = Ok v \/ (raw = PyNone /\ v = PyNone).

(** The raw mapping [d] is a serialized form of the message [m]: [id] and
    [method] as they are, each payload serialized. *)
Definition reencodes {datetime : Type} (py : interpreter) (d : dict)
    (m : @LspMessage datetime) : Prop :=
  dict_get d (str_of "id") PyNone = id m /\
  dict_get d (str_of "method") PyNone = method m /\
  serializes py (dict_get d (str_of "params") PyNone) (params m) /\
  serializes py (dict_get d (str_of "result") PyNone) (result m) /\
  serializes py (dict_get d (str_of "error") PyNone) (error m).

(** The raw mapping that carries the message [m]: [id] and [method] as
    they are, each payload re-encoded with [json.dumps]. *)
Definition reencode {datetime : Type} (ensure_ascii : bool)
    (m : @LspMessage datetime) : dict :=
  [(str_of "id", id m);
   (str_of "method", method m);
   (str_of "params", PyStr (serializer.serialize ensure_ascii (params m)));
   (str_of "result", PyStr (serializer.serialize ensure_ascii (result m)));
   (str_of "error", PyStr (serializer.serialize ensure_ascii (error m)))].

(** A value that [json.loads] reads back from its text in the
    interpreter [py]. *)
Definition readable (py : interpreter) (obj : PyValue) : bool :=
  serializer.well_formed (int_max_str_digits py) (recursion_budget py) obj.


(** Every object of [w] is still there, unchanged, in [w']. *)
Definition preserved {datetime : Type} (w w' : @world datetime) : Prop :=
  forall (l : loc) (o : object), heap w !! l = Some o -> heap w' !! l = Some o.

(** The JSON text [null] between optional whitespace. *)
Definition null_text (text : pystr) : Prop :=
  exists a b, text = a ++ str_of "null" ++ b /\
    forallb json.is_ws a = true /\ forallb json.is_ws b = true.

(** The raw payload [raw] stands for no payload: it is [None], or a text
    that says [null], as a [str] or as [bytes]. *)
Definition absent (raw : PyValue) : Prop :=
  raw = PyNone \/ exists text, raw_text raw = Some text /\ null_text text.

(** ** An instance of [datetime.fromisoformat]

    The two plainest forms every version of the function accepts,
    [YYYY-MM-DD] and [YYYY-MM-DD?HH:MM:SS] with any one character between
    date and time; enough to run the module on concrete records. *)

Record basic_datetime := {
  year : N; month : N; day : N;
  hour : N; minute : N; second : N
}.

Definition two_digits (a b : N) : option N :=
  if json.is_digit a && json.is_digit b then Some (10 * (a - 48) + (b - 48))
  else None.

Definition is_leap (y : N) : bool :=
  ((y mod 4 =? 0) && negb (y mod 100 =? 0)) || (y mod 400 =? 0).

Definition days_in_month (y m : N) : N :=
  if m =? 2 then (if is_leap y then 29 else 28)
  else if (m =? 4) || (m =? 6) || (m =? 9) || (m =? 11) then 30
  else 31.

Definition basic_date (y1 y2 y3 y4 m1 m2 d1 d2 : N) : option (N * N * N) :=
  match two_digits y1 y2, two_digits y3 y4, two_digits m1 m2, two_digits d1 d2 with
  | Some yh, Some yl, Some m, Some d =>
      let y := 100 * yh + yl in
      if (1 <=? y) && (1 <=? m) && (m <=? 12) && (1 <=? d) && (d <=? days_in_month y m)
      then Some (y, m, d) else None
  | _, _, _, _ => None
  end.

Definition basic_time (h1 h2 m1 m2 s1 s2 : N) : option (N * N * N) :=
  match two_digits h1 h2, two_digits m1 m2, two_digits s1 s2 with
  | Some h, Some m, Some s =>
      if (h <? 24) && (m <? 60) && (s <? 60) then Some (h, m, s) else None
  | _, _, _ => None
  end.

Definition basic_fromisoformat (date_string : pystr) : option basic_datetime :=
  match date_string with
  | [y1; y2; y3; y4; a; m1; m2; b; d1; d2] =>
      if (a =? MINUS) && (b =? MINUS) then
        match basic_date y1 y2 y3 y4 m1 m2 d1 d2 with
        | Some (y, m, d) =>
            Some {| year := y; month := m; day := d;
                    hour := 0; minute := 0; second := 0 |}
        | None => None
        end
      else None
  | [y1; y2; y3; y4; a; m1; m2; b; d1; d2; _; h1; h2; c; mi1; mi2; c'; s1; s2] =>
      if (a =? MINUS) && (b =? MINUS) && (c =? COLON) && (c' =? COLON) then
        match basic_date y1 y2 y3 y4 m1 m2 d1 d2, basic_time h1 h2 mi1 mi2 s1 s2 with
        | Some (y, m, d), Some (h, mi, s) =>
            Some {| year := y; month := m; day := d;
                    hour := h; minute := mi; second := s |}
        | _, _ => None
        end
      else None
  | _ => None
  end.

(** ** An instance of the interpreter

    The limits of a stock CPython 3.11 with a hundred levels of nesting
    left; enough to run the module on concrete records. *)

Definition sample_interpreter : interpreter :=
  {| int_max_str_digits := 4300; recursion_budget := 100 |}.

(** ** Sample inputs *)

Abbreviation basic_world := (@world basic_datetime).

Definition sample_request : dict :=
  [(str_of "id", PyStr (str_of "1"));
   (str_of "method", PyStr (str_of "initialize"));
   (str_of "params", PyStr (str_of "{}"))].

Definition sample_timestamp : pystr := str_of "2024-02-29T10:30:00".

Definition sample_world : basic_world :=
  {| heap := [ODict sample_request]; handled := [] |}.

Definition sample_message : @LspMessage basic_datetime :=
  {| session := str_of "s1";
     timestamp := {| year := 2024; month := 2; day := 29;
                     hour := 10; minute := 30; second := 0 |};
     source := str_of "client";
     id := PyStr (str_of "1");
     method := PyStr (str_of "initialize");
     params := PyDict [];
     result := PyNone;
     error := PyNone |}.

Definition parsed_world : basic_world :=
  {| heap := [ODict sample_request; OMessage sample_message]; handled := [] |}.

(** A capture with nothing in it. *)
Definition empty_message : @LspMessage basic_datetime :=
  {| session := str_of "s1";
     timestamp := {| year := 2024; month := 2; day := 29;
                     hour := 10; minute := 30; second := 0 |};
     source := str_of "server";
     id := PyNone; method := PyNone;
     params := PyNone; result := PyNone; error := PyNone |}.

Definition empty_world : basic_world :=
  {| heap := [ODict []; OMessage empty_message]; handled := [] |}.

(** A serialized form of [sample_message] written by hand. *)
Definition sample_reencoded : dict :=
  [(str_of "id", PyStr (str_of "1"));
   (str_of "method", PyStr (str_of "initialize"));
   (str_of "params", PyStr (str_of "{}"));
   (str_of "result", PyStr (str_of "null"))].

Definition null_request : dict :=
  [(str_of "id", PyStr (str_of "1"));
   (str_of "params", null);
   (str_of "result", null)].

Definition null_world : basic_world :=
  {| heap := [ODict null_request]; handled := [] |}.

Definition sample_record : LogRecord :=
  {| args := args_dict 0%nat;
     __dict__ := [(str_of "Message-Source", str_of "client");
                  (str_of "Message-Session", str_of "s1");
                  (str_of "Message-Timestamp", sample_timestamp)] |}.

Definition bad_record : LogRecord :=
  {| args := args_dict 0%nat;
     __dict__ := [(str_of "Message-Source", str_of "client");
                  (str_of "Message-Session", str_of "s1");
                  (str_of "Message-Timestamp", str_of "yesterday")] |}.

Definition plain_record : LogRecord :=
  {| args := args_tuple [PyInt 3]; __dict__ := [] |}.

(** A raw mapping whose [params] is the text [NaN]. *)
Definition nan_world : basic_world :=
  {| heap := [ODict [(str_of "params", PyStr (str_of "NaN"))]]; handled := [] |}.

(** The world after the re-encoded message has been received. *)
Definition reencoded_world : basic_world :=
  {| heap := heap parsed_world ++ [ODict (reencode false sample_message)];
     handled := [] |}.

(** A notification that has been parsed. *)
Definition sample_notification : @LspMessage basic_datetime :=
  {| session := str_of "s1";
     timestamp := {| year := 2024; month := 2; day := 29;
                     hour := 0; minute := 0; second := 0 |};
     source := str_of "server";
     id := PyNone;
     method := PyStr (str_of "initialized");
     params := PyDict [];
     result := PyNone;
     error := PyNone |}.

Definition notified_world : basic_world :=
  {| heap := [OMessage sample_notification]; handled := [] |}.

(** A request that has nothing but presence in common with
    [sample_message]. *)
Definition other_request : @LspMessage basic_datetime :=
  {| session := str_of "s2";
     timestamp := {| year := 2024; month := 2; day := 29;
                     hour := 0; minute := 0; second := 0 |};
     source := str_of "server";
     id := PyInt 7;
     method := PyNone;
     params := PyList [PyInt 1];
     result := PyNone;
     error := PyNone |}.

Definition other_world : basic_world :=
  {| heap := [OMessage other_request]; handled := [] |}.

(** A request without [params], as [shutdown] is sent. *)
Definition shutdown_request : dict :=
  [(str_of "jsonrpc", PyStr (str_of "2.0"));
   (str_of "id", PyInt 2);
   (str_of "method", PyStr (str_of "shutdown"))].

Definition shutdown_world : basic_world :=
  {| heap := [ODict shutdown_request]; handled := [] |}.

(** [sample_request] with the items a client adds around it. *)
Definition sample_request_2_0 : dict :=
  [(str_of "jsonrpc", PyStr (str_of "2.0"));
   (str_of "id", PyStr (str_of "1"));
   (str_of "method", PyStr (str_of "initialize"));
   (str_of "params", PyStr (str_of "{}"));
   (str_of "result", PyNone)].

Definition sample_world_2_0 : basic_world :=
  {| heap := [ODict sample_request_2_0]; handled := [] |}.

(** Records that lack one of the three entries [emit] reads. *)
Definition no_source_record : LogRecord :=
  {| args := args_dict 0%nat;
     __dict__ := [(str_of "Message-Timestamp", str_of "yesterday")] |}.

Definition no_session_record : LogRecord :=
  {| args := args_dict 0%nat;
     __dict__ := [(str_of "Message-Source", str_of "client")] |}.

Definition no_timestamp_record : LogRecord :=
  {| args := args_dict 0%nat;
     __dict__ := [(str_of "Message-Source", str_of "client");
                  (str_of "Message-Session", str_of "s1")] |}.

(** Two mappings waiting to be logged, and the record of the second. *)
Definition sample_notification_mapping : dict :=
  [(str_of "method", PyStr (str_of "initialized"));
   (str_of "params", PyStr (str_of "{}"))].

Definition busy_world : basic_world :=
  {| heap := [ODict sample_request; ODict sample_notification_mapping];
     handled := [] |}.

Definition server_record : LogRecord :=
  {| args := args_dict 1%nat;
     __dict__ := [(str_of "Message-Source", str_of "server");
                  (str_of "Message-Session", str_of "s1");
                  (str_of "Message-Timestamp", str_of "2024-02-29")] |}.

(** The number 1.5, which is [3 * 2 ^ 51 * 2 ^ -52]. *)
Definition one_and_a_half : pyfloat := S754_finite false 6755399441055744 (-52).

(** A value with one of each kind inside. *)
Definition sample_value : PyValue :=
  PyDict [(str_of "uri", PyStr (str_of "file:///a b"));
          (str_of "range", PyList [PyInt 0; PyInt (-3); PyNone; PyBool true]);
          (str_of "scale", PyFloat one_and_a_half)].

(** The items of an object text that names a key twice. *)
Definition repeated_items : list (pystr * PyValue) :=
  [(str_of "a", PyInt 1); (str_of "b", PyNone); (str_of "a", PyStr (str_of "x"))].











(** A raw mapping whose [params] is the [bytes] of the text [null]. *)
Definition bytes_request : dict :=
  [(str_of "id", PyInt 1); (str_of "params", PyBytes (str_of "null"))].

Definition bytes_world : basic_world :=
  {| heap := [ODict bytes_request]; handled := [] |}.


(** * Properties

    ** The decoder *)

Module json_facts.
Import json.

Lemma skip_ws_length s : (List.length (skip_ws s) <= List.length s)%nat.
Proof. induction s as [|c r IH]; simpl; [lia|]. destruct (is_ws c); simpl; lia. Qed.

Lemma strip_prefix_length lit s r :
  strip_prefix lit s = Some r -> (List.length r + List.length lit = List.length s)%nat.
Proof.
  revert s; induction lit as [|x lit IH]; intros [|y s] H; simpl in *; try congruence.
  - injection H as <-. simpl. lia.
  - injection H as <-. simpl. lia.
  - destruct (x =? y); [|discriminate]. apply IH in H. lia.
Qed.

Lemma span_digits_length s ds r :
  span_digits s = (ds, r) -> (List.length ds + List.length r = List.length s)%nat.
Proof.
  revert ds r; induction s as [|c s IH]; intros ds r H; simpl in *.
  - injection H as <- <-. reflexivity.
  - destruct (is_digit c).
    + destruct (span_digits s) as [ds' r'] eqn:E. injection H as <- <-.
      specialize (IH _ _ eq_refl). simpl. lia.
    + injection H as <- <-. simpl. lia.
Qed.

Lemma match_integer_length s i r :
  match_integer s = Some (i, r) -> (List.length r < List.length s)%nat.
Proof.
  unfold match_integer. intros H.
  destruct s as [|c s]; simpl in H; [discriminate|].
  destruct (c =? MINUS).
  - destruct s as [|c' s]; [discriminate|].
    destruct (c' =? ZERO); [injection H as <- <-; simpl; lia|].
    destruct (is_digit c'); [|discriminate].
    destruct (span_digits s) as [ds rest] eqn:E. injection H as <- <-.
    apply span_digits_length in E. simpl. lia.
  - destruct (c =? ZERO); [injection H as <- <-; simpl; lia|].
    destruct (is_digit c); [|discriminate].
    destruct (span_digits s) as [ds rest] eqn:E. injection H as <- <-.
    apply span_digits_length in E. simpl. lia.
Qed.

Lemma match_frac_length s f r :
  match_frac s = (f, r) -> (List.length r <= List.length s)%nat.
Proof.
  unfold match_frac. intros H. destruct s as [|c s]; [injection H as <- <-; lia|].
  destruct (c =? DOT); [|injection H as <- <-; lia].
  destruct (span_digits s) as [ds rest] eqn:E. apply span_digits_length in E.
  destruct ds; injection H as <- <-; simpl in *; lia.
Qed.

Lemma match_exp_length s e r :
  match_exp s = (e, r) -> (List.length r <= List.length s)%nat.
Proof.
  unfold match_exp. intros H. destruct s as [|c s]; [injection H as <- <-; lia|].
  destruct ((c =? 101) || (c =? 69)); [|injection H as <- <-; lia].
  destruct s as [|d s'].
  - simpl in H. injection H as <- <-. simpl; lia.
  - destruct ((d =? PLUS) || (d =? MINUS)).
    + destruct (span_digits s') as [ds rest] eqn:E. apply span_digits_length in E.
      destruct ds; injection H as <- <-; simpl in *; lia.
    + destruct (span_digits (d :: s')) as [ds rest] eqn:E. apply span_digits_length in E.
      destruct ds; injection H as <- <-; simpl in *; lia.
Qed.

Lemma match_number_length s i f e r :
  match_number s = Some (i, f, e, r) -> (List.length r < List.length s)%nat.
Proof.
  unfold match_number. intros H.
  destruct (match_integer s) as [[i' s1]|] eqn:E1; [|discriminate].
  destruct (match_frac s1) as [f' s2] eqn:E2.
  destruct (match_exp s2) as [e' s3] eqn:E3.
  injection H as <- <- <- <-.
  apply match_integer_length in E1. apply match_frac_length in E2.
  apply match_exp_length in E3. lia.
Qed.

Lemma scanstring_length_aux n :
  forall s chunks k r, (List.length s <= n)%nat ->
    scanstring s chunks = Some (k, r) -> (List.length r < List.length s)%nat.
Proof.
  induction n as [|n IH]; intros s chunks k r Hn H.
  - destruct s; [discriminate | simpl in Hn; lia].
  - destruct s as [|c s]; [discriminate|]. cbn [scanstring] in H.
    cbn [List.length] in *.
    repeat (case_match; try discriminate; simplify_eq; cbn [List.length] in *);
    first [ lia
          | match goal with
            | H : scanstring _ _ = Some _ |- _ =>
                apply IH in H; cbn [List.length] in *; lia
            end ].
Qed.

Lemma scanstring_length s chunks k r :
  scanstring s chunks = Some (k, r) -> (List.length r < List.length s)%nat.
Proof. apply (scanstring_length_aux (List.length s)). lia. Qed.


Ltac ws_bound r :=
  let H := fresh "Hws" in pose proof (skip_ws_length r) as H.


Section ScannerFacts.

Variable pc : pystr -> option PyValue.
Variable max : nat.

Lemma array_loop_progress f n :
  progresses f ->
  forall s values v r,
    array_loop f n s values = Scanned v r -> (List.length r < List.length s)%nat.
Proof.
  intros Hf. induction n as [|n IH]; intros s values v r H; [discriminate|].
  cbn [array_loop] in H.
  destruct (f s) as [value r1| | |] eqn:E; try discriminate.
  apply Hf in E. ws_bound r1.
  destruct (skip_ws r1) as [|c r2] eqn:E2; [discriminate|]. cbn [List.length] in *.
  destruct (c =? RBRACKET).
  - injection H as <- <-. lia.
  - destruct (c =? COMMA); [|discriminate].
    apply IH in H. ws_bound r2. lia.
Qed.

Lemma JSONArray_progress f n :
  progresses f ->
  forall s v r, JSONArray f n s = Scanned v r -> (List.length r <= List.length s)%nat.
Proof.
  intros Hf s v r. unfold JSONArray. ws_bound s.
  destruct (skip_ws s) as [|c r1] eqn:E; [discriminate|]. cbn [List.length] in *.
  destruct (c =? RBRACKET).
  - intros [= <- <-]. lia.
  - intros H. apply array_loop_progress in H; [|done]. cbn [List.length] in *. lia.
Qed.

Lemma object_loop_progress f n :
  progresses f ->
  forall s pairs v r,
    object_loop f n s pairs = Scanned v r -> (List.length r < List.length s)%nat.
Proof.
  intros Hf. induction n as [|n IH]; intros s pairs v r H; [discriminate|].
  cbn [object_loop] in H.
  destruct (scanstring s []) as [[key r0]|] eqn:Ek; [|discriminate].
  apply scanstring_length in Ek. ws_bound r0.
  destruct (skip_ws r0) as [|c r1] eqn:E1; [discriminate|]. cbn [List.length] in *.
  destruct (c =? COLON); [|discriminate]. ws_bound r1.
  destruct (f (skip_ws r1)) as [value r2| | |] eqn:E2; try discriminate.
  apply Hf in E2. ws_bound r2.
  destruct (skip_ws r2) as [|c3 r3] eqn:E3; [discriminate|]. cbn [List.length] in *.
  destruct (c3 =? RBRACE).
  - injection H as <- <-. lia.
  - destruct (c3 =? COMMA); [|discriminate]. ws_bound r3.
    destruct (skip_ws r3) as [|c4 r4] eqn:E4; [discriminate|]. cbn [List.length] in *.
    destruct (c4 =? QUOTE); [|discriminate].
    apply IH in H. lia.
Qed.

Lemma JSONObject_progress f n :
  progresses f ->
  forall s v r, JSONObject f n s = Scanned v r -> (List.length r <= List.length s)%nat.
Proof.
  intros Hf s v r. unfold JSONObject. ws_bound s.
  destruct (skip_ws s) as [|c r1] eqn:E; [discriminate|]. cbn [List.length] in *.
  destruct (c =? QUOTE).
  - intros H. apply object_loop_progress in H; [|done]. lia.
  - destruct (c =? RBRACE); [|discriminate]. intros [= <- <-]. lia.
Qed.

Lemma scan_literal_length s v r :
  scan_literal s = Some (v, r) -> (List.length r < List.length s)%nat.
Proof.
  unfold scan_literal. intros H.
  repeat (case_match; simplify_eq);
  match goal with
  | H : strip_prefix _ _ = Some _ |- _ => apply strip_prefix_length in H; simpl in H; lia
  end.
Qed.

Lemma scan_number_length s v r :
  scan_number pc max s = Scanned v r -> (List.length r < List.length s)%nat.
Proof.
  unfold scan_number, scan_constant. intros H.
  destruct (match_number s) as [[[[i f] e] rest]|] eqn:E.
  - apply match_number_length in E.
    destruct f, e; [destruct (exceeds_limit _ _); [discriminate|] | ..];
      injection H as <- <-; done.
  - repeat (case_match; simplify_eq);
    match goal with
    | H : strip_prefix _ _ = Some _ |- _ => apply strip_prefix_length in H; simpl in H; lia
    end.
Qed.

(** [scan_once] in one equation, whatever the depth. *)
Lemma scan_once_eq depth s :
  scan_once pc max depth s =
    match s with
    | [] => Malformed
    | nextchar :: r =>
        if nextchar =? QUOTE then
          match scanstring r [] with
          | Some (str, rest) => Scanned (PyStr str) rest
          | None => Malformed
          end
        else if nextchar =? LBRACE then
          match depth with
          | O => Exhausted
          | S depth' => JSONObject (scan_once pc max depth') (S (List.length r)) r
          end
        else if nextchar =? LBRACKET then
          match depth with
          | O => Exhausted
          | S depth' => JSONArray (scan_once pc max depth') (S (List.length r)) r
          end
        else
          match scan_literal s with
          | Some (v, rest) => Scanned v rest
          | None => scan_number pc max s
          end
    end.
Proof. by destruct depth. Qed.

Lemma scan_once_progress n : progresses (scan_once pc max n).
Proof.
  induction n as [|n IH]; intros s v r H; rewrite scan_once_eq in H;
    (destruct s as [|c s]; [discriminate|]);
    (destruct (c =? QUOTE);
     [destruct (scanstring s []) as [[str rest]|] eqn:E; [|discriminate];
      injection H as <- <-; apply scanstring_length in E; simpl; lia|]);
    (destruct (c =? LBRACE);
     [first [discriminate | apply JSONObject_progress in H; [simpl; lia | done]]|]);
    (destruct (c =? LBRACKET);
     [first [discriminate | apply JSONArray_progress in H; [simpl; lia | done]]|]);
    (destruct (scan_literal (c :: s)) as [[v' rest]|] eqn:E;
     [injection H as <- <-; by apply scan_literal_length in E
     |by apply scan_number_length in H]).
Qed.

(** *** The limits

    A loop has turns to spare, and a text too short to reach a limit of
    the interpreter does not reach it. *)

Lemma array_loop_within f n :
  progresses f ->
  forall s values,
    (forall s', (List.length s' <= List.length s)%nat -> ~ at_limit (f s')) ->
    (List.length s < n)%nat ->
    ~ at_limit (array_loop f n s values).
Proof.
  intros Hf. induction n as [|n IH]; intros s values Hne Hn; [lia|].
  cbn [array_loop].
  destruct (f s) as [value r1| | |] eqn:E.
  - apply Hf in E. ws_bound r1.
    destruct (skip_ws r1) as [|c r2] eqn:E2; [by intros [|]|]. cbn [List.length] in *.
    destruct (c =? RBRACKET); [by intros [|]|].
    destruct (c =? COMMA); [|by intros [|]].
    ws_bound r2. apply IH; [|lia].
    intros s' Hs'. apply Hne. lia.
  - by intros [|].
  - intros _. apply (Hne s); [lia | rewrite E; by left].
  - intros _. apply (Hne s); [lia | rewrite E; by right].
Qed.

Lemma JSONArray_within f n s :
  progresses f ->
  (forall s', (List.length s' <= List.length s)%nat -> ~ at_limit (f s')) ->
  (List.length s < n)%nat ->
  ~ at_limit (JSONArray f n s).
Proof.
  intros Hf Hne Hn. unfold JSONArray. ws_bound s.
  destruct (skip_ws s) as [|c r1] eqn:E; [by intros [|]|].
  destruct (c =? RBRACKET); [by intros [|]|].
  apply array_loop_within; [done| |lia].
  intros s' Hs'. apply Hne. lia.
Qed.

Lemma object_loop_within f n :
  progresses f ->
  forall s pairs,
    (forall s', (List.length s' <= List.length s)%nat -> ~ at_limit (f s')) ->
    (List.length s < n)%nat ->
    ~ at_limit (object_loop f n s pairs).
Proof.
  intros Hf. induction n as [|n IH]; intros s pairs Hne Hn; [lia|].
  cbn [object_loop].
  destruct (scanstring s []) as [[key r0]|] eqn:Ek; [|by intros [|]].
  apply scanstring_length in Ek. ws_bound r0.
  destruct (skip_ws r0) as [|c r1] eqn:E1; [by intros [|]|]. cbn [List.length] in *.
  destruct (c =? COLON); [|by intros [|]]. ws_bound r1.
  destruct (f (skip_ws r1)) as [value r2| | |] eqn:E2.
  - apply Hf in E2. ws_bound r2.
    destruct (skip_ws r2) as [|c3 r3] eqn:E3; [by intros [|]|]. cbn [List.length] in *.
    destruct (c3 =? RBRACE); [by intros [|]|].
    destruct (c3 =? COMMA); [|by intros [|]]. ws_bound r3.
    destruct (skip_ws r3) as [|c4 r4] eqn:E4; [by intros [|]|]. cbn [List.length] in *.
    destruct (c4 =? QUOTE); [|by intros [|]].
    apply IH; [|lia]. intros s' Hs'. apply Hne. lia.
  - by intros [|].
  - intros _. apply (Hne (skip_ws r1)); [lia | rewrite E2; by left].
  - intros _. apply (Hne (skip_ws r1)); [lia | rewrite E2; by right].
Qed.

Lemma JSONObject_within f n s :
  progresses f ->
  (forall s', (List.length s' <= List.length s)%nat -> ~ at_limit (f s')) ->
  (List.length s < n)%nat ->
  ~ at_limit (JSONObject f n s).
Proof.
  intros Hf Hne Hn. unfold JSONObject. ws_bound s.
  destruct (skip_ws s) as [|c r1] eqn:E; [by intros [|]|]. cbn [List.length] in *.
  destruct (c =? QUOTE).
  - apply object_loop_within; [done| |lia]. intros s' Hs'. apply Hne. lia.
  - destruct (c =? RBRACE); by intros [|].
Qed.

Lemma exceeds_limit_mono k k' :
  exceeds_limit max k = false -> (k' <= k)%nat -> exceeds_limit max k' = false.
Proof.
  unfold exceeds_limit. rewrite !andb_false_iff, !Nat.ltb_ge. lia.
Qed.

Lemma match_integer_count s i r :
  match_integer s = Some (i, r) -> (count_digits i <= List.length s)%nat.
Proof.
  unfold match_integer, count_digits. intros H.
  destruct s as [|c s]; [discriminate|]. cbn [List.length].
  destruct (c =? MINUS) eqn:Ec.
  - destruct s as [|c' s]; [discriminate|]. cbn [app] in H.
    destruct (c' =? ZERO).
    + injection H as <- <-. cbn. lia.
    + destruct (is_digit c'); [|discriminate].
      destruct (span_digits s) as [ds rest] eqn:E. injection H as <- <-.
      apply span_digits_length in E. change (MINUS =? MINUS) with true.
      cbn [List.length]. lia.
  - cbn [app] in H. destruct (c =? ZERO) eqn:E0.
    + injection H as <- <-. change (ZERO =? MINUS) with false. cbn. lia.
    + destruct (is_digit c); [|discriminate].
      destruct (span_digits s) as [ds rest] eqn:E. injection H as <- <-.
      apply span_digits_length in E. rewrite Ec. cbn [List.length]. lia.
Qed.

Lemma scan_number_within s :
  exceeds_limit max (List.length s) = false -> ~ at_limit (scan_number pc max s).
Proof.
  intros Hs. unfold scan_number, scan_constant.
  destruct (match_number s) as [[[[i f] e] rest]|] eqn:E.
  - unfold match_number in E.
    destruct (match_integer s) as [[i' s1]|] eqn:E1; [|discriminate].
    destruct (match_frac s1) as [f' s2]. destruct (match_exp s2) as [e' s3].
    injection E as -> -> -> ->. apply match_integer_count in E1.
    rewrite (exceeds_limit_mono _ _ Hs E1).
    destruct f, e; by intros [|].
  - repeat case_match; by intros [|].
Qed.

Lemma scan_once_within n :
  forall s, (List.length s <= n)%nat ->
    exceeds_limit max (List.length s) = false ->
    ~ at_limit (scan_once pc max n s).
Proof.
  induction n as [|n IH]; intros s Hn Hs; rewrite scan_once_eq;
    (destruct s as [|c s]; [by intros [|]|]); cbn [List.length] in Hn; [lia|].
  destruct (c =? QUOTE).
  { destruct (scanstring s []) as [[str rest]|]; by intros [|]. }
  assert (forall s', (List.length s' <= List.length s)%nat ->
            ~ at_limit (scan_once pc max n s')) as Hin.
  { intros s' Hs'. apply IH; [lia|].
    apply (exceeds_limit_mono _ _ Hs). cbn [List.length]. lia. }
  destruct (c =? LBRACE).
  { apply JSONObject_within; [apply scan_once_progress | done | lia]. }
  destruct (c =? LBRACKET).
  { apply JSONArray_within; [apply scan_once_progress | done | lia]. }
  destruct (scan_literal (c :: s)) as [[v' rest]|]; [by intros [|]|].
  by apply scan_number_within.
Qed.

Lemma decode_within depth s :
  (List.length s <= depth)%nat ->
  exceeds_limit max (List.length s) = false ->
  ~ at_limit (decode pc max depth s).
Proof.
  intros Hd Hs. unfold decode. ws_bound s.
  destruct (scan_once pc max depth (skip_ws s)) as [obj rest| | |] eqn:E.
  - destruct (skip_ws rest); by intros [|].
  - by intros [|].
  - intros _. revert E. intros E.
    apply (scan_once_within depth (skip_ws s)); [lia | | rewrite E; by left].
    by apply (exceeds_limit_mono _ _ Hs).
  - intros _.
    apply (scan_once_within depth (skip_ws s)); [lia | | rewrite E; by right].
    by apply (exceeds_limit_mono _ _ Hs).
Qed.

End ScannerFacts.

(** Limits and more constants keep every text that was accepted without
    them, with the value it had, unless a limit is reached. *)
Section Limits.

Variables pc1 pc2 : pystr -> option PyValue.
Variable max : nat.
Hypothesis pc_le : forall name v, pc1 name = Some v -> pc2 name = Some v.

Lemma exceeds_limit_0 k : exceeds_limit 0 k = false.
Proof. unfold exceeds_limit. by rewrite andb_false_r. Qed.

Lemma array_loop_restricts f1 f2 n :
  restricts f1 f2 ->
  forall s values v r,
    array_loop f1 n s values = Scanned v r ->
    array_loop f2 n s values = Scanned v r \/ at_limit (array_loop f2 n s values).
Proof.
  intros Hf. induction n as [|n IH]; intros s values v r H; [discriminate|].
  cbn [array_loop] in *.
  destruct (f1 s) as [value r1| | |] eqn:E; try discriminate.
  destruct (Hf _ _ _ E) as [-> | [-> | ->]];
    [|right; by left | right; by right].
  destruct (skip_ws r1) as [|c r2]; [discriminate|].
  destruct (c =? RBRACKET); [by left|].
  destruct (c =? COMMA); [|discriminate]. by apply IH.
Qed.

Lemma object_loop_restricts f1 f2 n :
  restricts f1 f2 ->
  forall s pairs v r,
    object_loop f1 n s pairs = Scanned v r ->
    object_loop f2 n s pairs = Scanned v r \/ at_limit (object_loop f2 n s pairs).
Proof.
  intros Hf. induction n as [|n IH]; intros s pairs v r H; [discriminate|].
  cbn [object_loop] in *.
  destruct (scanstring s []) as [[key r0]|]; [|discriminate].
  destruct (skip_ws r0) as [|c r1]; [discriminate|].
  destruct (c =? COLON); [|discriminate].
  destruct (f1 (skip_ws r1)) as [value r2| | |] eqn:E2; try discriminate.
  destruct (Hf _ _ _ E2) as [-> | [-> | ->]];
    [|right; by left | right; by right].
  destruct (skip_ws r2) as [|c3 r3]; [discriminate|].
  destruct (c3 =? RBRACE); [by left|].
  destruct (c3 =? COMMA); [|discriminate].
  destruct (skip_ws r3) as [|c4 r4]; [discriminate|].
  destruct (c4 =? QUOTE); [|discriminate]. by apply IH.
Qed.

Lemma scan_number_restricts : restricts (scan_number pc1 0) (scan_number pc2 max).
Proof using pc_le.
  intros s v r. unfold scan_number, scan_constant.
  destruct (match_number s) as [[[[i f] e] rest]|].
  - destruct f, e; [|by left..].
    rewrite exceeds_limit_0.
    destruct (exceeds_limit max (count_digits i)); [right; by right | by left].
  - repeat (case_match; try discriminate; simplify_eq);
    try match goal with
    | H : pc1 _ = Some _ |- _ => apply pc_le in H
    end; intros; left; congruence.
Qed.

Lemma scan_once_restricts n1 :
  forall n2, restricts (scan_once pc1 0 n1) (scan_once pc2 max n2).
Proof using pc_le.
  induction n1 as [|n1 IH]; intros n2 s v r H;
    rewrite scan_once_eq in H; rewrite scan_once_eq;
    (destruct s as [|c s]; [discriminate|]);
    (destruct (c =? QUOTE); [by left|]);
    (destruct (c =? LBRACE);
     [first [discriminate | destruct n2 as [|n2]; [right; by left|]]|]);
    [ | |
      (destruct (c =? LBRACKET);
       [first [discriminate | destruct n2 as [|n2]; [right; by left|]]|]) ..].
  all: try (destruct (c =? LBRACKET); [discriminate|]).
  all: try (destruct (scan_literal (c :: s)) as [[v' rest]|];
            [by left | by apply scan_number_restricts]).
  - unfold JSONObject in *. destruct (skip_ws s) as [|c1 r1]; [discriminate|].
    destruct (c1 =? QUOTE); [|by left].
    by apply (object_loop_restricts _ _ _ (IH n2)).
  - unfold JSONArray in *. destruct (skip_ws s) as [|c1 r1]; [discriminate|].
    destruct (c1 =? RBRACKET); [by left|].
    by apply (array_loop_restricts _ _ _ (IH n2)).
Qed.

Lemma decode_restricts n1 n2 s obj r :
  decode pc1 0 n1 s = Scanned obj r ->
  decode pc2 max n2 s = Scanned obj r \/ at_limit (decode pc2 max n2 s).
Proof using pc_le.
  unfold decode.
  destruct (scan_once pc1 0 n1 (skip_ws s)) as [o rest| | |] eqn:E; try discriminate.
  destruct (scan_once_restricts _ n2 _ _ _ E) as [-> | [-> | ->]];
    [by left | right; by left | right; by right].
Qed.

End Limits.

End json_facts.


(** ** The serializer and the decoder *)

Module serializer_facts.
Import json serializer.

(** *** Strings *)

Lemma hex_digit_hex_char k : k < 16 -> hex_digit (hex_char k) = Some k.
Proof.
  intros Hk.
  assert (H : forallb (fun k => match hex_digit (hex_char k) with
                                | Some k' => k' =? k
                                | None => false
                                end) (map N.of_nat (seq 0 16)) = true)
    by reflexivity.
  rewrite forallb_forall in H.
  specialize (H k). destruct (hex_digit (hex_char k)) as [k'|].
  - f_equal. apply N.eqb_eq, H. apply in_map_iff. exists (N.to_nat k).
    split; [lia|]. apply in_seq. lia.
  - discriminate H. apply in_map_iff. exists (N.to_nat k).
    split; [lia|]. apply in_seq. lia.
Qed.

Lemma decode_control c :
  c < 32 -> decode_uXXXX 48 48 (hex_char (c / 16)) (hex_char (c mod 16)) = Some c.
Proof.
  intros Hc. unfold decode_uXXXX.
  change (hex_digit 48) with (Some 0).
  rewrite !hex_digit_hex_char.
  - f_equal. pose proof (N.div_mod c 16). lia.
  - apply N.mod_lt. lia.
  - apply N.Div0.div_lt_upper_bound. lia.
Qed.

(** One [\uXXXX] escape that is not the first half of a pair. *)
Lemma scanstring_u a b c d uni tail chunks :
  decode_uXXXX a b c d = Some uni ->
  is_high_surrogate uni = false ->
  scanstring (BSLASH :: 117 :: a :: b :: c :: d :: tail) chunks
    = scanstring tail (chunks ++ [uni]).
Proof.
  intros Hd Hh. cbn [scanstring].
  change (BSLASH =? QUOTE) with false. change (BSLASH <? 32) with false.
  change (negb (BSLASH =? BSLASH)) with false.
  change (negb (117 =? 117)) with false. cbv iota.
  rewrite Hd, Hh. by destruct tail as [|? [|? ?]].
Qed.

Lemma scanstring_short esc char tail chunks :
  esc <> 117 -> BACKSLASH esc = Some char ->
  scanstring (BSLASH :: esc :: tail) chunks = scanstring tail (chunks ++ [char]).
Proof.
  intros He Hb. cbn [scanstring].
  change (BSLASH =? QUOTE) with false. change (BSLASH <? 32) with false.
  change (negb (BSLASH =? BSLASH)) with false. cbv iota.
  apply N.eqb_neq in He. by rewrite He, Hb.
Qed.

Lemma scanstring_escape_char c tail chunks :
  scanstring (escape_char c ++ tail) chunks = scanstring tail (chunks ++ [c]).
Proof.
  unfold escape_char.
  destruct (c =? QUOTE) eqn:E1; [apply N.eqb_eq in E1 as ->; by apply scanstring_short|].
  destruct (c =? BSLASH) eqn:E2; [apply N.eqb_eq in E2 as ->; by apply scanstring_short|].
  destruct (c =? 10) eqn:E3; [apply N.eqb_eq in E3 as ->; by apply scanstring_short|].
  destruct (c =? 13) eqn:E4; [apply N.eqb_eq in E4 as ->; by apply scanstring_short|].
  destruct (c =? 9) eqn:E5; [apply N.eqb_eq in E5 as ->; by apply scanstring_short|].
  destruct (c =? 12) eqn:E6; [apply N.eqb_eq in E6 as ->; by apply scanstring_short|].
  destruct (c =? 8) eqn:E7; [apply N.eqb_eq in E7 as ->; by apply scanstring_short|].
  destruct (c <? 32) eqn:E8.
  - apply N.ltb_lt in E8. apply scanstring_u; [by apply decode_control|].
    unfold is_high_surrogate. apply andb_false_iff. left. apply N.leb_gt. lia.
  - cbn [app scanstring]. by rewrite E1, E8, E2.
Qed.

Lemma scanstring_encode s rest chunks :
  scanstring (flat_map escape_char s ++ QUOTE :: rest) chunks
    = Some (chunks ++ s, rest).
Proof.
  revert chunks. induction s as [|c s IH]; intros chunks.
  - cbn [flat_map app scanstring]. change (QUOTE =? QUOTE) with true. cbv iota.
    by rewrite app_nil_r.
  - cbn [flat_map]. rewrite <- app_assoc, scanstring_escape_char, IH.
    by rewrite <- app_assoc.
Qed.

(** *** Integers *)

Lemma digits_value_snoc ds d :
  digits_value (ds ++ [d]) = (10 * digits_value ds + Z.of_N (d - 48))%Z.
Proof. unfold digits_value. by rewrite fold_left_app. Qed.

Lemma digits_upto_value k : forall n,
  n < 2 ^ N.of_nat k -> digits_value (digits_upto k n) = Z.of_N n.
Proof.
  induction k as [|k IH]; intros n Hn.
  - change (2 ^ N.of_nat 0) with 1 in Hn. assert (n = 0) as -> by lia. reflexivity.
  - cbn [digits_upto]. destruct (n <? 10) eqn:E.
    + unfold digits_value. cbn [fold_left].
      replace (48 + n - 48) with n by lia. lia.
    + apply N.ltb_ge in E. rewrite digits_value_snoc, IH.
      * pose proof (N.div_mod' n 10) as Hdm.
        generalize dependent (n mod 10). generalize dependent (n / 10).
        intros q r Hdm. replace (48 + r - 48) with r by lia. lia.
      * rewrite Nat2N.inj_succ, N.pow_succ_r' in Hn.
        apply N.Div0.div_lt_upper_bound. lia.
Qed.

Lemma digits_bound n : n < 2 ^ N.of_nat (S (N.to_nat (N.log2 n))).
Proof.
  rewrite Nat2N.inj_succ, N2Nat.id.
  destruct (N.eq_dec n 0) as [->|Hn]; [reflexivity|].
  apply N.log2_spec. lia.
Qed.

Lemma digits_value_digits n : digits_value (digits n) = Z.of_N n.
Proof. apply digits_upto_value, digits_bound. Qed.

Lemma is_digit_spec c : is_digit c = true <-> 48 <= c <= 57.
Proof. unfold is_digit. rewrite andb_true_iff, !N.leb_le. done. Qed.

Lemma digits_upto_digits k : forall n,
  Forall (fun c => is_digit c = true) (digits_upto k n).
Proof.
  induction k as [|k IH]; intros n; cbn [digits_upto]; [constructor|].
  destruct (n <? 10) eqn:E.
  - apply N.ltb_lt in E. constructor; [|constructor]. apply is_digit_spec. lia.
  - apply Forall_app. split; [apply IH|]. constructor; [|constructor].
    apply is_digit_spec. assert (n mod 10 < 10) by (apply N.mod_lt; lia).
    generalize dependent (n mod 10). intros r Hr. lia.
Qed.

(** The first digit of a positive number is not a zero. *)
Lemma digits_upto_head k : forall n,
  0 < n -> n < 2 ^ N.of_nat k ->
  exists c ds, digits_upto k n = c :: ds /\ 49 <= c <= 57.
Proof.
  induction k as [|k IH]; intros n Hpos Hn.
  - change (2 ^ N.of_nat 0) with 1 in Hn. lia.
  - cbn [digits_upto]. destruct (n <? 10) eqn:E.
    + apply N.ltb_lt in E. exists (48 + n), []. split; [done | lia].
    + apply N.ltb_ge in E.
      destruct (IH (n / 10)) as (c & ds & Heq & Hc).
      * apply N.div_str_pos. lia.
      * rewrite Nat2N.inj_succ, N.pow_succ_r' in Hn.
        apply N.Div0.div_lt_upper_bound. lia.
      * rewrite Heq. by exists c, (ds ++ [48 + n mod 10]).
Qed.


(** *** Numbers *)

Lemma delimited_cases rest :
  delimited rest = true ->
  rest = [] \/ exists c r, rest = c :: r /\ (c = COMMA \/ c = RBRACKET \/ c = RBRACE).
Proof.
  destruct rest as [|c r]; [by left|]. cbn [delimited].
  rewrite !orb_true_iff, !N.eqb_eq. intros H. right. exists c, r. tauto.
Qed.

Ltac delim rest H :=
  let c := fresh "c" in
  let r := fresh "r" in
  destruct (delimited_cases rest H) as [-> | (c & r & -> & [-> | [-> | ->]])].

Lemma span_digits_all ds :
  Forall (fun c => is_digit c = true) ds -> span_digits ds = (ds, []).
Proof.
  induction 1 as [|c ds Hc _ IH]; [done|]. cbn [span_digits]. by rewrite Hc, IH.
Qed.

Lemma span_digits_app s ds r rest :
  span_digits s = (ds, r) -> delimited rest = true ->
  span_digits (s ++ rest) = (ds, r ++ rest).
Proof.
  intros H Hrest. revert ds r H. induction s as [|c s IH]; intros ds r H.
  - injection H as <- <-. delim rest Hrest; reflexivity.
  - cbn [app span_digits] in *. destruct (is_digit c).
    + destruct (span_digits s) as [ds' r'] eqn:E. injection H as <- <-.
      by rewrite (IH _ _ eq_refl).
    + by injection H as <- <-.
Qed.

Lemma match_integer_app s i r rest :
  match_integer s = Some (i, r) -> delimited rest = true ->
  match_integer (s ++ rest) = Some (i, r ++ rest).
Proof.
  unfold match_integer. intros H Hrest.
  destruct s as [|c s]; [discriminate|]. cbn [app].
  destruct (c =? MINUS).
  - destruct s as [|c' s]; [discriminate|]. cbn [app].
    destruct (c' =? ZERO); [by injection H as <- <-|].
    destruct (is_digit c'); [|discriminate].
    destruct (span_digits s) as [ds rest'] eqn:E. injection H as <- <-.
    by rewrite (span_digits_app _ _ _ _ E Hrest).
  - destruct (c =? ZERO); [by injection H as <- <-|].
    destruct (is_digit c); [|discriminate].
    destruct (span_digits s) as [ds rest'] eqn:E. injection H as <- <-.
    by rewrite (span_digits_app _ _ _ _ E Hrest).
Qed.

Lemma match_frac_delimited rest :
  delimited rest = true -> match_frac rest = ([], rest).
Proof. intros H. delim rest H; reflexivity. Qed.

Lemma match_exp_delimited rest :
  delimited rest = true -> match_exp rest = ([], rest).
Proof. intros H. delim rest H; reflexivity. Qed.

Lemma match_frac_app s f r rest :
  match_frac s = (f, r) -> delimited rest = true ->
  match_frac (s ++ rest) = (f, r ++ rest).
Proof.
  intros H Hrest. destruct s as [|c s].
  - injection H as <- <-. by apply match_frac_delimited.
  - unfold match_frac in *. cbn [app]. destruct (c =? DOT); [|by injection H as <- <-].
    destruct (span_digits s) as [ds rest'] eqn:E.
    rewrite (span_digits_app _ _ _ _ E Hrest).
    by destruct ds; injection H as <- <-.
Qed.

Lemma match_exp_app s e r rest :
  match_exp s = (e, r) -> delimited rest = true ->
  match_exp (s ++ rest) = (e, r ++ rest).
Proof.
  intros H Hrest. destruct s as [|c s].
  - injection H as <- <-. by apply match_exp_delimited.
  - unfold match_exp in *. cbn [app].
    destruct ((c =? 101) || (c =? 69)); [|by injection H as <- <-].
    destruct s as [|d s'].
    + cbn [app]. injection H as <- <-. delim rest Hrest; reflexivity.
    + cbn [app]. destruct ((d =? PLUS) || (d =? MINUS)).
      * destruct (span_digits s') as [ds rest'] eqn:E.
        rewrite (span_digits_app _ _ _ _ E Hrest).
        by destruct ds; injection H as <- <-.
      * destruct (span_digits (d :: s')) as [ds rest'] eqn:E.
        change (d :: s' ++ rest) with ((d :: s') ++ rest).
        rewrite (span_digits_app _ _ _ _ E Hrest).
        by destruct ds; injection H as <- <-.
Qed.

Lemma match_number_app s i f e r rest :
  match_number s = Some (i, f, e, r) -> delimited rest = true ->
  match_number (s ++ rest) = Some (i, f, e, r ++ rest).
Proof.
  unfold match_number. intros H Hrest.
  destruct (match_integer s) as [[i' s1]|] eqn:E1; [|discriminate].
  destruct (match_frac s1) as [f' s2] eqn:E2.
  destruct (match_exp s2) as [e' s3] eqn:E3.
  injection H as <- <- <- <-.
  by rewrite (match_integer_app _ _ _ _ E1 Hrest),
    (match_frac_app _ _ _ _ E2 Hrest), (match_exp_app _ _ _ _ E3 Hrest).
Qed.

Lemma match_integer_head s i r :
  match_integer s = Some (i, r) ->
  exists c s', s = c :: s' /\ (c = MINUS \/ is_digit c = true).
Proof.
  unfold match_integer. intros H. destruct s as [|c s]; [discriminate|].
  exists c, s. split; [done|].
  destruct (c =? MINUS) eqn:E; [left; by apply N.eqb_eq|]. right.
  destruct (c =? ZERO) eqn:E0; [by apply N.eqb_eq in E0 as ->|].
  by destruct (is_digit c).
Qed.

Lemma scan_literal_number c s :
  c = MINUS \/ is_digit c = true -> scan_literal (c :: s) = None.
Proof.
  intros Hc. unfold scan_literal.
  assert ((110 =? c) = false /\ (116 =? c) = false /\ (102 =? c) = false)
    as (E1 & E2 & E3).
  { rewrite !N.eqb_neq. destruct Hc as [-> | Hc]; [done|].
    apply is_digit_spec in Hc. lia. }
  change (str_of "null") with (110 :: str_of "ull").
  change (str_of "true") with (116 :: str_of "rue").
  change (str_of "false") with (102 :: str_of "alse").
  cbn [strip_prefix]. by rewrite E1, E2, E3.
Qed.

Lemma scan_once_number pc max n c s :
  c = MINUS \/ is_digit c = true ->
  scan_once pc max n (c :: s) = scan_number pc max (c :: s).
Proof.
  intros Hc. rewrite json_facts.scan_once_eq.
  assert ((c =? QUOTE) = false /\ (c =? LBRACE) = false /\ (c =? LBRACKET) = false)
    as (E1 & E2 & E3).
  { rewrite !N.eqb_neq. destruct Hc as [-> | Hc]; [done|].
    apply is_digit_spec in Hc. unfold QUOTE, LBRACE, LBRACKET. lia. }
  by rewrite E1, E2, E3, scan_literal_number.
Qed.

Lemma digits_head n :
  exists c ds, digits n = c :: ds /\ is_digit c = true /\
    Forall (fun c => is_digit c = true) ds /\ (c = ZERO -> ds = []).
Proof.
  pose proof (digits_upto_digits (S (N.to_nat (N.log2 n))) n) as Hall.
  destruct (N.eq_dec n 0) as [->|Hn].
  - exists ZERO, []. by repeat split.
  - destruct (digits_upto_head _ n ltac:(lia) (digits_bound n)) as (c & ds & Heq & Hc).
    fold (digits n) in Heq, Hall. rewrite Heq in Hall.
    exists c, ds. inversion Hall; subst. repeat split; [done..|].
    unfold ZERO. lia.
Qed.

Lemma match_integer_digits n : match_integer (digits n) = Some (digits n, []).
Proof.
  destruct (digits_head n) as (c & ds & -> & Hc & Hds & Hz).
  unfold match_integer.
  assert ((c =? MINUS) = false) as ->.
  { apply N.eqb_neq. apply is_digit_spec in Hc. unfold MINUS. lia. }
  destruct (c =? ZERO) eqn:E.
  - apply N.eqb_eq in E as ->. by rewrite (Hz eq_refl).
  - by rewrite Hc, (span_digits_all _ Hds).
Qed.

Lemma match_integer_minus_digits n :
  match_integer (MINUS :: digits n) = Some (MINUS :: digits n, []).
Proof.
  destruct (digits_head n) as (c & ds & -> & Hc & Hds & Hz).
  unfold match_integer. change (MINUS =? MINUS) with true. cbv iota.
  destruct (c =? ZERO) eqn:E.
  - apply N.eqb_eq in E as ->. by rewrite (Hz eq_refl).
  - by rewrite Hc, (span_digits_all _ Hds).
Qed.

Lemma parse_int_repr z : parse_int (int_repr z) = z.
Proof.
  destruct z as [|p|p]; [done| |].
  - cbn [int_repr]. destruct (digits_head (N.pos p)) as (c & ds & Heq & Hc & _).
    pose proof (digits_value_digits (N.pos p)) as Hv. rewrite Heq in *.
    unfold parse_int.
    assert ((c =? MINUS) = false) as ->.
    { apply N.eqb_neq. apply is_digit_spec in Hc. unfold MINUS. lia. }
    rewrite Hv. done.
  - cbn [int_repr parse_int]. change (MINUS =? MINUS) with true. cbv iota.
    rewrite digits_value_digits. done.
Qed.

Lemma match_integer_int_repr z :
  match_integer (int_repr z) = Some (int_repr z, []).
Proof.
  destruct z; [done | apply match_integer_digits | apply match_integer_minus_digits].
Qed.

Lemma match_number_int_repr z :
  match_number (int_repr z) = Some (int_repr z, [], [], []).
Proof. unfold match_number. by rewrite match_integer_int_repr. Qed.

Lemma int_repr_head z :
  exists c s, int_repr z = c :: s /\ (c = MINUS \/ is_digit c = true).
Proof. apply (match_integer_head _ _ _ (match_integer_int_repr z)). Qed.

Lemma count_digits_int_repr z :
  count_digits (int_repr z) = List.length (digits (Z.abs_N z)).
Proof.
  destruct z as [|p|p]; [done| |].
  - cbn [int_repr Z.abs_N Z.abs Z.to_N].
    destruct (digits_head (N.pos p)) as (c & ds & Heq & Hc & _).
    rewrite Heq. unfold count_digits.
    assert ((c =? MINUS) = false) as ->; [|done].
    apply N.eqb_neq. apply is_digit_spec in Hc. unfold MINUS. lia.
  - cbn [int_repr]. unfold count_digits. by change (MINUS =? MINUS) with true.
Qed.

Lemma scan_int pc max n z rest :
  exceeds_limit max (List.length (digits (Z.abs_N z))) = false ->
  delimited rest = true ->
  scan_once pc max n (int_repr z ++ rest) = Scanned (PyInt z) rest.
Proof.
  intros Hmax Hrest. destruct (int_repr_head z) as (c & s & Heq & Hc).
  rewrite Heq. cbn [app]. rewrite scan_once_number by done.
  change (c :: s ++ rest) with ((c :: s) ++ rest). rewrite <- Heq.
  unfold scan_number.
  rewrite (match_number_app _ _ _ _ _ _ (match_number_int_repr z) Hrest).
  by rewrite count_digits_int_repr, Hmax, parse_int_repr.
Qed.

Lemma pystr_eqb_eq a b : pystr_eqb a b = true <-> a = b.
Proof.
  revert b. induction a as [|x a IH]; intros [|y b]; cbn; try done.
  rewrite andb_true_iff, N.eqb_eq, IH. split; [by intros [-> ->] | by intros [= -> ->]].
Qed.

Lemma sf_eqb_eq a b : sf_eqb a b = true -> a = b.
Proof.
  destruct a as [s|s| |s m e], b as [s'|s'| |s' m' e']; cbn [sf_eqb]; try done.
  - by intros ->%Bool.eqb_prop.
  - by intros ->%Bool.eqb_prop.
  - rewrite !andb_true_iff.
    by intros [[->%Bool.eqb_prop ->%Pos.eqb_eq] ->%Z.eqb_eq].
Qed.

(** The text of a float that [float()] reads back is a number of JSON
    with a fraction or an exponent. *)
Lemma reads_back_number f :
  reads_back f = true ->
  (exists s, f = S754_infinity s) \/ f = S754_nan \/
  exists i fr e,
    match_number (float_repr f) = Some (i, fr, e, []) /\
    (fr <> [] \/ e <> []) /\ float_of_literal i fr e = f.
Proof.
  unfold reads_back. intros H.
  destruct f as [s|s| |s m e]; [|left; by exists s|right; by left|];
    right; right;
    (destruct (match_number (float_repr _)) as [[[[i fr] ex] [|]]|];
     [|discriminate..]);
    exists i, fr, ex;
    (destruct fr, ex; [discriminate|..]);
    (split; [done|]; split; [by (left + right)|by apply sf_eqb_eq]).
Qed.

Lemma float_repr_head f :
  reads_back f = true ->
  exists c s, float_repr f = c :: s /\ is_ws c = false /\ c <> RBRACKET.
Proof.
  intros H. destruct (reads_back_number f H) as [[s ->] | [-> | (i & fr & e & E & _)]].
  - destruct s; by eexists _, _.
  - by eexists _, _.
  - unfold match_number in E.
    destruct (match_integer (float_repr f)) as [[i' s1]|] eqn:E1; [|discriminate].
    destruct (match_integer_head _ _ _ E1) as (c & s & Heq & Hc).
    exists c, s. split; [done|]. destruct Hc as [-> | Hc]; [by split|].
    apply is_digit_spec in Hc. split.
    + unfold is_ws. rewrite !orb_false_iff, !N.eqb_neq. lia.
    + unfold RBRACKET. lia.
Qed.

Lemma scan_float max n f rest :
  reads_back f = true -> delimited rest = true ->
  scan_once _CONSTANTS max n (float_repr f ++ rest) = Scanned (PyFloat f) rest.
Proof.
  intros H Hrest.
  destruct (reads_back_number f H) as [[s ->] | [-> | (i & fr & e & E & Hfe & Hf)]].
  - rewrite json_facts.scan_once_eq. by destruct s.
  - by rewrite json_facts.scan_once_eq.
  - assert (Hhead : exists c s, float_repr f = c :: s /\ (c = MINUS \/ is_digit c = true)).
    { unfold match_number in E.
      destruct (match_integer (float_repr f)) as [[i' s1]|] eqn:E1; [|discriminate].
      by apply match_integer_head in E1. }
    destruct Hhead as (c & s & Heq & Hc).
    rewrite Heq. cbn [app]. rewrite scan_once_number by done.
    change (c :: s ++ rest) with ((c :: s) ++ rest). rewrite <- Heq.
    unfold scan_number. rewrite (match_number_app _ _ _ _ _ _ E Hrest).
    destruct fr, e; [by destruct Hfe | by rewrite Hf..].
Qed.


(** *** Dictionaries *)

Lemma existsb_pystr_eqb k ks : existsb (pystr_eqb k) ks = false <-> ~ In k ks.
Proof.
  induction ks as [|k' ks IH]; cbn; [tauto|].
  rewrite orb_false_iff, IH. split.
  - intros [Hk Hks] [<- | Hin]; [|done].
    assert (pystr_eqb k' k' = true) by by apply pystr_eqb_eq. congruence.
  - intros H. split; [|tauto].
    destruct (pystr_eqb k k') eqn:E; [|done].
    apply pystr_eqb_eq in E as ->. tauto.
Qed.

Lemma dict_setitem_fresh d k v :
  ~ In k (map fst d) -> dict_setitem d k v = d ++ [(k, v)].
Proof.
  induction d as [|[k' w] d IH]; cbn; [done|]. intros H.
  destruct (pystr_eqb k' k) eqn:E.
  - apply pystr_eqb_eq in E as ->. tauto.
  - rewrite IH; [done | tauto].
Qed.

Lemma distinct_app acc k ks :
  distinct (acc ++ k :: ks) = true ->
  ~ In k acc /\ distinct ((acc ++ [k]) ++ ks) = true.
Proof.
  induction acc as [|a acc IH]; cbn [app distinct].
  - intros H. split; [tauto | done].
  - rewrite !andb_true_iff, !negb_true_iff, !existsb_pystr_eqb.
    intros [Ha Hd]. destruct (IH Hd) as [Hk Hd'].
    rewrite <- app_assoc. cbn [app]. split; [|split; [done|by rewrite <- app_assoc in Hd']].
    intros [-> | Hin]; [|done]. apply Ha. apply in_or_app. right. by left.
Qed.

Lemma fold_setitem_distinct ps : forall acc,
  distinct (map fst (acc ++ ps)) = true ->
  fold_left (fun d kv => dict_setitem d (fst kv) (snd kv)) ps acc = acc ++ ps.
Proof.
  induction ps as [|[k v] ps IH]; intros acc H; cbn [fold_left].
  - by rewrite app_nil_r.
  - rewrite map_app in H. cbn [map fst] in H.
    destruct (distinct_app _ _ _ H) as [Hk Hd]. cbn [fst snd].
    rewrite dict_setitem_fresh by done.
    rewrite IH; [by rewrite <- app_assoc|].
    by rewrite !map_app.
Qed.

Lemma dict_of_pairs_distinct ps :
  distinct (map fst ps) = true -> dict_of_pairs ps = ps.
Proof. intros H. by apply (fold_setitem_distinct ps []). Qed.

(** *** Values *)

Lemma PyValue_nested_ind (P : PyValue -> Prop) :
  P PyNone ->
  (forall b, P (PyBool b)) ->
  (forall z, P (PyInt z)) ->
  (forall f, P (PyFloat f)) ->
  (forall s, P (PyStr s)) ->
  (forall data, P (PyBytes data)) ->
  (forall data, P (PyByteArray data)) ->
  (forall items, Forall P items -> P (PyList items)) ->
  (forall pairs, Forall (fun kv => P (snd kv)) pairs -> P (PyDict pairs)) ->
  forall obj, P obj.
Proof.
  intros HNone HBool HInt HFloat HStr HBytes HByteArray HList HDict.
  refine (fix go (obj : PyValue) : P obj :=
    match obj with
    | PyNone => HNone
    | PyBool b => HBool b
    | PyInt z => HInt z
    | PyFloat f => HFloat f
    | PyStr s => HStr s
    | PyBytes data => HBytes data
    | PyByteArray data => HByteArray data
    | PyList items =>
        HList items
          ((fix all (l : list PyValue) : Forall P l :=
              match l with
              | [] => List.Forall_nil P
              | x :: l' => List.Forall_cons P x l' (go x) (all l')
              end) items)
    | PyDict pairs =>
        HDict pairs
          ((fix all (l : list (pystr * PyValue)) : Forall (fun kv => P (snd kv)) l :=
              match l with
              | [] => List.Forall_nil _
              | kv :: l' => List.Forall_cons _ kv l' (go (snd kv)) (all l')
              end) pairs)
    end).
Qed.

Lemma serialize_starts max depth obj :
  well_formed max depth obj = true -> starts_value (serialize false obj).
Proof.
  intros Hwf. destruct obj as [|[|]|z|f|s|data|data|items|pairs];
    try discriminate Hwf;
    try (eexists _, _; split; [reflexivity | split; [reflexivity | discriminate]]).
  - destruct (int_repr_head z) as (c & s & Heq & Hc). exists c, s.
    split; [done|]. destruct Hc as [-> | Hc]; [by split|].
    apply is_digit_spec in Hc. split.
    + unfold is_ws. rewrite !orb_false_iff, !N.eqb_neq. lia.
    + unfold RBRACKET. lia.
  - by apply float_repr_head.
Qed.

Lemma skip_ws_starts text x :
  starts_value text -> skip_ws (text ++ x) = text ++ x.
Proof. intros (c & s & -> & Hc & _). cbn. by rewrite Hc. Qed.

Lemma join_cons t ts :
  join (t :: ts) = t ++ match ts with [] => [] | _ :: _ => COMMA :: 32 :: join ts end.
Proof. destruct ts; [by rewrite app_nil_r | done]. Qed.

Lemma join_length_cons t ts :
  List.length (join (t :: ts)) =
    (List.length t +
     match ts with [] => 0 | _ :: _ => 2 + List.length (join ts) end)%nat.
Proof. rewrite join_cons, length_app. by destruct ts. Qed.

Lemma join_length ts :
  Forall (fun t => t <> []) ts ->
  (List.length ts <= List.length (join ts))%nat /\
  Forall (fun t => (List.length t <= List.length (join ts))%nat) ts.
Proof.
  induction 1 as [|t ts Ht _ [IH1 IH2]]; [by split|].
  assert (0 < List.length t)%nat by (destruct t; [done | cbn; lia]).
  rewrite join_length_cons. destruct ts as [|t' ts].
  - split; [cbn; lia|]. constructor; [lia | done].
  - split; [cbn [List.length] in *; lia|].
    constructor; [lia|]. eapply Forall_impl; [exact IH2|]. cbn beta. intros; lia.
Qed.

Lemma join_two t t' ts : join (t :: t' :: ts) = t ++ COMMA :: 32 :: join (t' :: ts).
Proof. reflexivity. Qed.

Ltac norm_app := repeat first [rewrite <- app_assoc | progress (cbn [app])].

(** The loop of [JSONArray] on the serialized items. *)
Lemma array_loop_serialize f items : forall values m rest,
  Forall (fun obj => starts_value (serialize false obj) /\
            forall rest', delimited rest' = true ->
              f (serialize false obj ++ rest') = Scanned obj rest') items ->
  items <> [] -> (List.length items <= m)%nat ->
  array_loop f m (join (map (serialize false) items) ++ RBRACKET :: rest) values
    = Scanned (PyList (values ++ items)) rest.
Proof.
  induction items as [|obj items IH]; intros values m rest Hall Hne Hm; [done|].
  apply Forall_cons in Hall as [[Hwf Hobj] Hall].
  destruct m as [|m]; [cbn in Hm; lia|]. cbn [array_loop].
  destruct items as [|obj' items].
  - cbn [map join]. rewrite Hobj by done. cbn [skip_ws is_ws].
    change (RBRACKET =? RBRACKET) with true. done.
  - change (map (serialize false) (obj :: obj' :: items))
      with (serialize false obj :: serialize false obj' :: map (serialize false) items).
    rewrite join_two, <- app_assoc. cbn [app].
    change (serialize false obj' :: map (serialize false) items)
      with (map (serialize false) (obj' :: items)).
    rewrite Hobj by done.
    change (skip_ws (COMMA :: ?x)) with (COMMA :: x).
    change (COMMA =? RBRACKET) with false. change (COMMA =? COMMA) with true.
    cbv iota. change (skip_ws (32 :: ?x)) with (skip_ws x).
    apply Forall_cons in Hall as Hall'. destruct Hall' as [[Hwf' _] _].
    assert (Hskip : skip_ws (join (map (serialize false) (obj' :: items)) ++ RBRACKET :: rest)
                    = join (map (serialize false) (obj' :: items)) ++ RBRACKET :: rest).
    { cbn [map]. rewrite join_cons, <- app_assoc.
      by apply skip_ws_starts. }
    rewrite Hskip, IH; [by rewrite <- app_assoc | done | done | cbn in *; lia].
Qed.

Lemma item_text_quote kv :
  item_text kv = QUOTE :: flat_map escape_char (fst kv)
                   ++ QUOTE :: COLON :: 32 :: serialize false (snd kv).
Proof. unfold item_text, encode_str. cbn [app]. by rewrite <- app_assoc. Qed.

Lemma object_loop_last f m s key r0 value r2 pairs :
  scanstring s [] = Some (key, COLON :: r0) ->
  f (skip_ws r0) = Scanned value (RBRACE :: r2) ->
  object_loop f (S m) s pairs
    = Scanned (PyDict (dict_of_pairs (pairs ++ [(key, value)]))) r2.
Proof. intros Hk Hv. cbn [object_loop]. rewrite Hk. cbn. by rewrite Hv. Qed.

Lemma object_loop_next f m s key r0 value r2 r3 pairs :
  scanstring s [] = Some (key, COLON :: r0) ->
  f (skip_ws r0) = Scanned value (COMMA :: r2) ->
  skip_ws r2 = QUOTE :: r3 ->
  object_loop f (S m) s pairs = object_loop f m r3 (pairs ++ [(key, value)]).
Proof.
  intros Hk Hv Hq. cbn [object_loop]. rewrite Hk. cbn. rewrite Hv. cbn.
  by rewrite Hq.
Qed.

(** The loop of [JSONObject] on the serialized items, entered after the
    quote that opens the first key. *)
Lemma object_loop_serialize f pairs : forall acc m rest text,
  Forall (fun kv => starts_value (serialize false (snd kv)) /\
            forall rest', delimited rest' = true ->
              f (serialize false (snd kv) ++ rest') = Scanned (snd kv) rest') pairs ->
  join (map item_text pairs) = QUOTE :: text ->
  (List.length pairs <= m)%nat ->
  object_loop f m (text ++ RBRACE :: rest) acc
    = Scanned (PyDict (dict_of_pairs (acc ++ pairs))) rest.
Proof.
  induction pairs as [|[k obj] pairs IH]; intros acc m rest text Hall Htext Hm;
    [discriminate|].
  apply Forall_cons in Hall as [[Hwf Hobj] Hall]. cbn [fst snd] in *.
  destruct m as [|m]; [cbn in Hm; lia|].
  destruct pairs as [|kv' pairs].
  - cbn [map join] in Htext. rewrite item_text_quote in Htext.
    injection Htext as <-. cbn [fst snd]. rewrite <- app_assoc. cbn [app].
    eapply object_loop_last.
    + apply scanstring_encode.
    + change (skip_ws (32 :: ?x)) with (skip_ws x).
      rewrite (skip_ws_starts _ _ Hwf). by apply Hobj.
  - change (map item_text ((k, obj) :: kv' :: pairs))
      with (item_text (k, obj) :: map item_text (kv' :: pairs)) in Htext.
    assert (Hq : exists text', join (map item_text (kv' :: pairs)) = QUOTE :: text').
    { cbn [map]. rewrite join_cons, item_text_quote. cbn [app]. eauto. }
    destruct Hq as [text' Hq].
    change (map item_text (kv' :: pairs))
      with (item_text kv' :: map item_text pairs) in Htext at 1.
    rewrite join_two in Htext.
    change (item_text kv' :: map item_text pairs)
      with (map item_text (kv' :: pairs)) in Htext.
    rewrite item_text_quote, Hq in Htext.
    injection Htext as <-. cbn [fst snd]. rewrite <- app_assoc. cbn [app].
    rewrite (object_loop_next f m _ k
               (32 :: serialize false obj ++ COMMA :: 32 :: QUOTE :: text' ++ RBRACE :: rest)
               obj (32 :: QUOTE :: text' ++ RBRACE :: rest)
               (text' ++ RBRACE :: rest)).
    + rewrite (IH (acc ++ [(k, obj)]) m rest text' Hall Hq); [|cbn in *; lia].
      by rewrite <- app_assoc.
    + norm_app. by rewrite scanstring_encode.
    + change (skip_ws (32 :: ?x)) with (skip_ws x).
      rewrite (skip_ws_starts _ _ Hwf). by apply Hobj.
    + reflexivity.
Qed.

Lemma serialize_list items :
  serialize false (PyList items)
    = LBRACKET :: join (map (serialize false) items) ++ [RBRACKET].
Proof. reflexivity. Qed.

Lemma serialize_dict pairs :
  serialize false (PyDict pairs) = LBRACE :: join (map item_text pairs) ++ [RBRACE].
Proof. reflexivity. Qed.

Lemma serialize_nonempty max depth obj :
  well_formed max depth obj = true -> serialize false obj <> [].
Proof. intros H. by destruct (serialize_starts _ _ obj H) as (c & s & -> & _). Qed.

(** The scanner reads a serialized value back, whatever follows it, when
    it may nest as deep as the value and convert its [int]s. *)
Lemma scan_serialize max obj :
  forall depth rest,
    well_formed max depth obj = true -> delimited rest = true ->
    scan_once _CONSTANTS max depth (serialize false obj ++ rest) = Scanned obj rest.
Proof.
  induction obj as [|b|z|f|s|data|data|items IH|pairs IH] using PyValue_nested_ind;
    intros depth rest Hwf Hrest; try discriminate Hwf.
  - by rewrite json_facts.scan_once_eq.
  - rewrite json_facts.scan_once_eq. by destruct b.
  - apply scan_int; [|done]. cbn [well_formed] in Hwf. by apply negb_true_iff.
  - by apply scan_float.
  - rewrite json_facts.scan_once_eq.
    change (serialize false (PyStr s)) with (encode_str s).
    unfold encode_str. cbn [app].
    change (QUOTE =? QUOTE) with true. cbv iota.
    norm_app. by rewrite scanstring_encode.
  - destruct depth as [|depth]; [discriminate|].
    rewrite serialize_list in *. cbn [app scan_once].
    change (LBRACKET =? QUOTE) with false. change (LBRACKET =? LBRACE) with false.
    change (LBRACKET =? LBRACKET) with true. cbv iota.
    rewrite <- app_assoc. cbn [app]. unfold JSONArray.
    destruct items as [|obj items]; [reflexivity|].
    cbn [well_formed] in Hwf. rewrite forallb_forall in Hwf.
    assert (Hne : Forall (fun t => t <> []) (map (serialize false) (obj :: items))).
    { apply Forall_forall. intros t Ht. apply list_elem_of_In, in_map_iff in Ht.
      destruct Ht as (o & <- & Ho). apply (serialize_nonempty max depth). by apply Hwf. }
    destruct (join_length _ Hne) as [Hlen Hlens].
    rewrite length_map in Hlen.
    assert (Hstart : starts_value (join (map (serialize false) (obj :: items)))).
    { cbn [map]. rewrite join_cons.
      destruct (serialize_starts max depth obj) as (c & s & -> & Hc); [apply Hwf; by left|].
      by exists c, (s ++ match map (serialize false) items with
                         | [] => []
                         | _ :: _ => COMMA :: 32 :: join (map (serialize false) items)
                         end). }
    rewrite (skip_ws_starts _ _ Hstart).
    destruct Hstart as (c & s & Heq & _ & Hc). rewrite Heq at 1. cbn [app].
    apply N.eqb_neq in Hc. rewrite Hc.
    rewrite (array_loop_serialize _ (obj :: items) [] _ rest); [done| |done|].
    + apply Forall_forall. intros o Ho.
      assert (Hwfo : well_formed max depth o = true) by by apply Hwf, list_elem_of_In.
      split; [by apply (serialize_starts max depth)|]. intros rest' Hrest'.
      rewrite Forall_forall in IH. by apply IH.
    + rewrite length_app. lia.
  - destruct depth as [|depth]; [discriminate|].
    rewrite serialize_dict in *. cbn [app scan_once].
    change (LBRACE =? QUOTE) with false. change (LBRACE =? LBRACE) with true.
    cbv iota. rewrite <- app_assoc. cbn [app]. unfold JSONObject.
    destruct pairs as [|kv pairs]; [reflexivity|].
    cbn [well_formed] in Hwf. apply andb_true_iff in Hwf as [Hkeys Hwf].
    rewrite forallb_forall in Hwf.
    assert (Hne : Forall (fun t => t <> []) (map item_text (kv :: pairs))).
    { apply Forall_forall. intros t Ht. apply list_elem_of_In, in_map_iff in Ht.
      destruct Ht as (o & <- & Ho). by rewrite item_text_quote. }
    destruct (join_length _ Hne) as [Hlen Hlens].
    rewrite length_map in Hlen.
    assert (Hq : exists text, join (map item_text (kv :: pairs)) = QUOTE :: text).
    { cbn [map]. rewrite join_cons, item_text_quote. cbn [app]. eauto. }
    destruct Hq as [text Hq]. rewrite Hq in *. cbn [app].
    change (skip_ws (QUOTE :: ?x)) with (QUOTE :: x).
    change (QUOTE =? QUOTE) with true. cbv iota.
    rewrite (object_loop_serialize _ (kv :: pairs) [] _ rest text); [| |done|].
    + cbn [app]. by rewrite dict_of_pairs_distinct.
    + apply Forall_forall. intros o Ho.
      assert (Hwfo : well_formed max depth (snd o) = true) by by apply Hwf, list_elem_of_In.
      split; [by apply (serialize_starts max depth)|]. intros rest' Hrest'.
      rewrite Forall_forall in IH. by apply IH.
    + cbn [List.length] in *. rewrite length_app. lia.
Qed.

Lemma decode_serialize max depth obj :
  well_formed max depth obj = true ->
  decode _CONSTANTS max depth (serialize false obj) = Scanned obj [].
Proof.
  intros Hwf. unfold decode.
  destruct (serialize_starts _ _ obj Hwf) as (c & s & Heq & Hc & _).
  pose proof (scan_serialize max obj depth [] Hwf eq_refl) as Hscan.
  rewrite app_nil_r in Hscan.
  assert (Hskip : skip_ws (serialize false obj) = serialize false obj).
  { rewrite Heq. cbn. by rewrite Hc. }
  by rewrite Hskip, Hscan.
Qed.

(** [json.loads] reads back what [serialize] writes. *)
Theorem loads_serialize py obj :
  well_formed (int_max_str_digits py) (recursion_budget py) obj = true ->
  json.loads py (PyStr (serialize false obj)) = Ok obj.
Proof.
  intros Hwf. unfold loads, default_decoder.
  pose proof (decode_serialize _ _ obj Hwf) as Hscan.
  destruct (serialize_starts _ _ obj Hwf) as (c & s & Heq & Hc & _).
  destruct (strip_prefix [0xfeff] (serialize false obj)) as [r|] eqn:E;
    [|by rewrite Hscan].
  rewrite Heq in E, Hscan. cbn [strip_prefix] in E.
  destruct (0xfeff =? c) eqn:Ec; [|discriminate].
  apply N.eqb_eq in Ec as <-. unfold decode in Hscan.
  change (skip_ws (0xfeff :: s)) with (0xfeff :: s) in Hscan.
  rewrite json_facts.scan_once_eq in Hscan. discriminate Hscan.
Qed.

End serializer_facts.

(** ** [json.loads] *)

Lemma loads_no_text py (raw : PyValue) :
  raw_text raw = None -> exists e, json.loads py raw = Raise e.
Proof.
  destruct raw; cbn [raw_text json.loads]; try discriminate;
    try (intros ->); by eexists.
Qed.

(** A text that starts with a byte order mark is rejected by the scanner
    as well. *)
Lemma decode_bom pc max depth text r :
  strip_prefix [0xfeff] text = Some r ->
  json.decode pc max depth text = json.Malformed.
Proof.
  destruct text as [|c text]; [discriminate|]. cbn [strip_prefix].
  destruct (0xfeff =? c) eqn:E; [|discriminate].
  apply N.eqb_eq in E as <-. unfold json.decode.
  change (json.skip_ws (0xfeff :: text)) with (0xfeff :: text).
  by rewrite json_facts.scan_once_eq.
Qed.

(** What [json.loads] does with the text of a value that the grammar
    accepts. *)
Lemma loads_text py raw text obj :
  raw_text raw = Some text ->
  json.grammar text = json.Scanned obj [] ->
  json.loads py raw = json.default_decoder py text.
Proof.
  intros Ht Hg. destruct raw; try discriminate; cbn [raw_text] in Ht.
  - injection Ht as ->. cbn [json.loads].
    destruct (strip_prefix [0xfeff] text) as [r|] eqn:E; [|done].
    unfold json.grammar in Hg. by rewrite (decode_bom _ _ _ _ _ E) in Hg.
  - cbn [json.loads]. by rewrite Ht.
  - cbn [json.loads]. by rewrite Ht.
Qed.

(** A valid JSON text is decoded with the value the grammar gives it,
    unless a limit of the interpreter is reached. *)
Lemma decode_valid_json py text obj :
  json.grammar text = json.Scanned obj [] ->
  json.decode json._CONSTANTS (int_max_str_digits py) (recursion_budget py) text
    = json.Scanned obj []
  \/ beyond_limits py text.
Proof.
  intros H.
  apply (json_facts.decode_restricts json.no_constant) with (n1 := List.length text);
    [|exact H].
  intros name v. discriminate.
Qed.

Lemma short_within py text : short py text -> ~ beyond_limits py text.
Proof. intros [Hd Hm]. by apply json_facts.decode_within. Qed.

Lemma beyond_limits_raises py text :
  beyond_limits py text -> exists e, json.default_decoder py text = Raise e.
Proof.
  unfold beyond_limits, json.default_decoder. intros [-> | ->]; by eexists.
Qed.

(** ** [maybe_json] *)

Lemma maybe_json_ok py value :
  maybe_json py value = Ok (maybe_json_value py value).
Proof.
  unfold maybe_json, maybe_json_value, try_except.
  by destruct (json.loads py value).
Qed.

Lemma maybe_json_coerced py raw : coerced py raw (maybe_json_value py raw).
Proof.
  split; [apply maybe_json_ok|].
  destruct (raw_text raw) as [text|] eqn:Et.
  - assert (forall obj, json.grammar text = json.Scanned obj [] ->
              (maybe_json_value py raw = obj /\ ~ beyond_limits py text) \/
              (maybe_json_value py raw = raw /\ beyond_limits py text)) as Hvalid.
    { intros obj Hg. unfold maybe_json_value.
      rewrite (loads_text py _ _ _ Et Hg).
      destruct (decode_valid_json py _ _ Hg) as [Hd | Hb].
      - left. unfold beyond_limits, json.default_decoder. rewrite Hd.
        split; [done|]. by intros [|].
      - right. by destruct (beyond_limits_raises _ _ Hb) as [e ->]. }
    split; [|split; [done|split]].
    + unfold maybe_json_value. by intros obj ->.
    + intros obj Hg Hs. destruct (Hvalid obj Hg) as [[H _] | [_ H]]; [done|].
      by destruct (short_within _ _ Hs).
    + intros H. unfold maybe_json_value.
      destruct (json.loads py raw) as [obj|e] eqn:E; [|done]. by destruct (H obj).
  - unfold maybe_json_value. by destruct (loads_no_text py _ Et) as [e ->].
Qed.


Lemma decode_null pc max depth :
  json.decode pc max depth (str_of "null") = json.Scanned PyNone [].
Proof. unfold json.decode. cbn [json.skip_ws]. by rewrite json_facts.scan_once_eq. Qed.

Lemma maybe_json_value_null py : maybe_json_value py null = PyNone.
Proof.
  unfold maybe_json_value, null, json.loads, json.default_decoder.
  change (strip_prefix [0xfeff] (str_of "null")) with (@None pystr).
  by rewrite decode_null.
Qed.

Lemma is_not_none_true v : is_not_none v = true <-> v <> PyNone.
Proof. destruct v; cbn; split; congruence. Qed.

Lemma is_none_true v : is_none v = true <-> v = PyNone.
Proof. destruct v; cbn; split; congruence. Qed.

(** ** [LspMessage] and [LspHandler] *)

Section Properties.

Variable py : interpreter.
Context {datetime : Type}.
Variable fromisoformat : pystr -> option datetime.

Implicit Types (w : @world datetime) (m : @LspMessage datetime) (d : dict).

Lemma preserved_refl w : preserved w w.
Proof. by intros l o. Qed.

Lemma preserved_alloc w o :
  preserved w {| heap := heap w ++ [o]; handled := handled w |}.
Proof. intros l o' Hl. by apply lookup_app_l_Some. Qed.

Lemma lookup_fresh w o :
  (heap w ++ [o]) !! List.length (heap w) = Some o.
Proof. by rewrite list_lookup_middle. Qed.

Lemma Mapping_get_run w message d key default :
  heap w !! message = Some (ODict d) ->
  Mapping_get message key default w = (Ok (dict_get d key default), w).
Proof. intros H. unfold Mapping_get. by rewrite H. Qed.

Lemma load_run w self m :
  heap w !! self = Some (OMessage m) -> load self w = (Ok m, w).
Proof. intros H. unfold load. by rewrite H. Qed.

(** What a call of [from_rpc] does, in one equation. *)
Lemma from_rpc_run w session ts source message d :
  heap w !! message = Some (ODict d) ->
  from_rpc py fromisoformat session ts source message w =
    match fromisoformat ts with
    | Some t =>
        (Ok (List.length (heap w)),
         {| heap := heap w ++ [OMessage (message_of py session t source d)];
            handled := handled w |})
    | None => (Raise ValueError, w)
    end.
Proof.
  intros Hd. unfold from_rpc, datetime_fromisoformat, mbind, M_bind, lift.
  destruct (fromisoformat ts) as [t|]; [|done].
  unfold LspMessage_init, mbind, M_bind, lift.
  repeat (rewrite (Mapping_get_run _ _ _ _ _ Hd); cbv beta iota).
  by rewrite !maybe_json_ok.
Qed.

Lemma from_rpc_bad_timestamp w session ts source message :
  fromisoformat ts = None ->
  from_rpc py fromisoformat session ts source message w = (Raise ValueError, w).
Proof.
  intros Ht. unfold from_rpc, datetime_fromisoformat, mbind, M_bind, lift.
  by rewrite Ht.
Qed.

Lemma from_rpc_not_mapping w session ts source message :
  (forall d, heap w !! message <> Some (ODict d)) ->
  from_rpc py fromisoformat session ts source message w =
    match fromisoformat ts with
    | Some _ => (Raise AttributeError, w)
    | None => (Raise ValueError, w)
    end.
Proof.
  intros Hd. unfold from_rpc, datetime_fromisoformat, mbind, M_bind, lift.
  destruct (fromisoformat ts) as [t|]; [|done].
  unfold Mapping_get. destruct (heap w !! message) as [[d|m]|] eqn:E; try done.
  by destruct (Hd d).
Qed.


(** With a timestamp that parses and a mapping to read, [from_rpc]
    returns a new object, the message built from the mapping. *)
Lemma from_rpc_constructs w session ts t source message d :
  heap w !! message = Some (ODict d) ->
  fromisoformat ts = Some t ->
  exists l w',
    from_rpc py fromisoformat session ts source message w = (Ok l, w') /\
    heap w' !! l = Some (OMessage (message_of py session t source d)) /\
    heap w !! l = None /\
    preserved w w' /\ handled w' = handled w.
Proof.
  intros Hd Ht. rewrite (from_rpc_run _ _ _ _ _ _ Hd), Ht.
  eexists _, _. split; [reflexivity|]. simpl. split; [apply lookup_fresh|].
  split; [by apply lookup_ge_None|]. split; [apply preserved_alloc | done].
Qed.

(** Whatever its outcome, [from_rpc] leaves the objects it found as they
    were and handles no message. *)
Lemma from_rpc_frame w session ts source message :
  let w' := snd (from_rpc py fromisoformat session ts source message w) in
  preserved w w' /\ handled w' = handled w.
Proof.
  destruct (heap w !! message) as [[d|m]|] eqn:E.
  - rewrite (from_rpc_run _ _ _ _ _ _ E).
    destruct (fromisoformat ts); simpl;
      (split; [apply preserved_alloc || apply preserved_refl | done]).
  - rewrite from_rpc_not_mapping by (intros d; congruence).
    destruct (fromisoformat ts); (split; [apply preserved_refl | done]).
  - rewrite from_rpc_not_mapping by (intros d; congruence).
    destruct (fromisoformat ts); (split; [apply preserved_refl | done]).
Qed.

Lemma property_frame w self :
  snd (is_request self w) = w /\
  snd (is_response self w) = w /\
  snd (is_notification self w) = w.
Proof.
  unfold is_request, is_response, is_notification, mbind, M_bind, mret, M_ret, load.
  by destruct (heap w !! self) as [[d|m]|].
Qed.

(** [emit] on a record whose [args] is a dict, step by step. *)
Lemma emit_run handle_message w record message :
  args record = args_dict message ->
  emit py fromisoformat handle_message record w =
    match getitem (__dict__ record) (str_of "Message-Source") with
    | Raise e => (Raise e, w)
    | Ok source =>
    match getitem (__dict__ record) (str_of "Message-Session") with
    | Raise e => (Raise e, w)
    | Ok session =>
    match getitem (__dict__ record) (str_of "Message-Timestamp") with
    | Raise e => (Raise e, w)
    | Ok ts =>
    match from_rpc py fromisoformat session ts source message w with
    | (Raise e, w1) => (Raise e, w1)
    | (Ok l, w1) =>
        (fst (handle_message l (heap w1)),
         {| heap := snd (handle_message l (heap w1));
            handled := handled w1 ++ [l] |})
    end end end end.
Proof.
  intros Hargs. unfold emit. rewrite Hargs.
  unfold mbind, M_bind, lift, call_handle_message.
  destruct (getitem _ (str_of "Message-Source")) as [source|e]; [|done].
  destruct (getitem _ (str_of "Message-Session")) as [session|e]; [|done].
  destruct (getitem _ (str_of "Message-Timestamp")) as [ts|e]; [|done].
  destruct (from_rpc _ _ _ _ _ _) as [[l|e] w1]; [|done].
  by destruct (handle_message l (heap w1)).
Qed.

Lemma emit_not_dict handle_message w record :
  (forall message, args record <> args_dict message) ->
  emit py fromisoformat handle_message record w = (Ok tt, w).
Proof.
  intros H. unfold emit. destruct (args record) as [items|message|]; try done.
  by destruct (H message).
Qed.

(** When [from_rpc] raises, so does [emit], and nothing is handled. *)
Lemma emit_propagates handle_message w record message session ts source e w1 :
  args record = args_dict message ->
  getitem (__dict__ record) (str_of "Message-Source") = Ok source ->
  getitem (__dict__ record) (str_of "Message-Session") = Ok session ->
  getitem (__dict__ record) (str_of "Message-Timestamp") = Ok ts ->
  from_rpc py fromisoformat session ts source message w = (Raise e, w1) ->
  emit py fromisoformat handle_message record w = (Raise e, w1) /\
  handled w1 = handled w.
Proof.
  intros Hargs Hsrc Hsess Hts Hrun.
  rewrite (emit_run _ _ _ _ Hargs), Hsrc, Hsess, Hts, Hrun.
  split; [done|].
  pose proof (from_rpc_frame w session ts source message) as [_ Hh].
  by rewrite Hrun in Hh.
Qed.


(** *** The properties of the specification, C1 to C10 *)

(** C1.  For every message, the three properties return the value of the
    table: [is_request] is true exactly when [id] and [params] are not
    [None]; [is_response] exactly when [id] is not [None] and one of
    [result], [error] is not [None]; [is_notification] exactly when [id]
    is [None] and [params] is not. *)
Theorem classification_table w self m :
  heap w !! self = Some (OMessage m) ->
  (exists b, is_request self w = (Ok b, w) /\
     (b = true <-> id m <> PyNone /\ params m <> PyNone)) /\
  (exists b, is_response self w = (Ok b, w) /\
     (b = true <-> id m <> PyNone /\ (result m <> PyNone \/ error m <> PyNone))) /\
  (exists b, is_notification self w = (Ok b, w) /\
     (b = true <-> id m = PyNone /\ params m <> PyNone)).
Proof.
  intros Hm.
  unfold is_request, is_response, is_notification, mbind, M_bind, mret, M_ret.
  rewrite (load_run _ _ _ Hm).
  split; [|split]; eexists; (split; [reflexivity|]).
  - rewrite andb_true_iff, !is_not_none_true. done.
  - rewrite andb_true_iff, orb_true_iff, !is_not_none_true. done.
  - rewrite andb_true_iff, is_none_true, is_not_none_true. done.
Qed.

(** C2 (amended).  In the message [from_rpc] constructs, each of [params],
    [result] and [error] is the raw value coerced: the conversion never
    raises; a text that [json.loads] accepts, given as a [str], as
    [bytes] or as a [bytearray], is replaced by the decoded value: every
    valid JSON text that stays within the limits of the interpreter
    (the number of digits of an [int], the depth of nesting), which every
    short one does, and also a text with the constants [NaN], [Infinity],
    [-Infinity]; a valid JSON text beyond these limits, a text that
    [json.loads] rejects and a value that is no text are kept
    unchanged. *)
Theorem payload_fields_coerced w session ts t source message d :
  heap w !! message = Some (ODict d) ->
  fromisoformat ts = Some t ->
  exists l w' m,
    from_rpc py fromisoformat session ts source message w = (Ok l, w') /\
    heap w' !! l = Some (OMessage m) /\
    coerced py (dict_get d (str_of "params") PyNone) (params m) /\
    coerced py (dict_get d (str_of "result") PyNone) (result m) /\
    coerced py (dict_get d (str_of "error") PyNone) (error m).
Proof.
  intros Hd Ht.
  destruct (from_rpc_constructs w session ts t source message d Hd Ht)
    as (l & w' & Hrun & Hl & _).
  exists l, w', (message_of py session t source d).
  repeat split; try done; apply maybe_json_coerced.
Qed.

(** C3.  For a message whose [params], [result] and [error] are all
    [None], each of the three properties returns [False]; none raises. *)
Theorem no_payload_no_class w self m :
  heap w !! self = Some (OMessage m) ->
  params m = PyNone -> result m = PyNone -> error m = PyNone ->
  is_request self w = (Ok false, w) /\
  is_response self w = (Ok false, w) /\
  is_notification self w = (Ok false, w).
Proof.
  intros Hm Hp Hr He.
  unfold is_request, is_response, is_notification, mbind, M_bind, mret, M_ret.
  rewrite (load_run _ _ _ Hm), Hp, Hr, He. simpl.
  rewrite !andb_false_r. done.
Qed.

(** C4.  When the timestamp text is not accepted by [fromisoformat],
    [from_rpc] raises [ValueError] and leaves the heap as it was: no
    message is produced.  When it is accepted, [from_rpc] returns a new
    message whose [timestamp] is the parsed point in time. *)
Theorem timestamp_parsed_or_rejected w session ts source message :
  (fromisoformat ts = None ->
     from_rpc py fromisoformat session ts source message w = (Raise ValueError, w)) /\
  (forall t d,
     fromisoformat ts = Some t ->
     heap w !! message = Some (ODict d) ->
     exists l w' m,
       from_rpc py fromisoformat session ts source message w = (Ok l, w') /\
       heap w !! l = None /\
       heap w' !! l = Some (OMessage m) /\
       timestamp m = t).
Proof.
  split; [apply from_rpc_bad_timestamp|].
  intros t d Ht Hd.
  destruct (from_rpc_constructs w session ts t source message d Hd Ht)
    as (l & w' & Hrun & Hl & Hfresh & _).
  by exists l, w', (message_of py session t source d).
Qed.

(** C5 (amended).  None of the operations the module defines changes an
    object that exists: [from_rpc] only adds the message it returns, the
    three properties leave the heap as it is, and so does [emit] with the
    [handle_message] of [LspHandler] apart from the message it adds. *)
Theorem module_operations_preserve_messages w :
  (forall session ts source message,
     preserved w (snd (from_rpc py fromisoformat session ts source message w))) /\
  (forall self, snd (is_request self w) = w) /\
  (forall self, snd (is_response self w) = w) /\
  (forall self, snd (is_notification self w) = w) /\
  (forall record,
     preserved w (snd (emit py fromisoformat LspHandler_handle_message record w))).
Proof.
  split; [intros; apply from_rpc_frame|].
  split; [intros; apply property_frame|].
  split; [intros; apply property_frame|].
  split; [intros; apply property_frame|].
  intros record. destruct (args record) as [items|message|] eqn:Hargs.
  - rewrite emit_not_dict by (intros ?; congruence). apply preserved_refl.
  - rewrite (emit_run _ _ _ _ Hargs).
    destruct (getitem _ (str_of "Message-Source")) as [source|e];
      [|apply preserved_refl].
    destruct (getitem _ (str_of "Message-Session")) as [session|e];
      [|apply preserved_refl].
    destruct (getitem _ (str_of "Message-Timestamp")) as [ts|e];
      [|apply preserved_refl].
    pose proof (from_rpc_frame w session ts source message) as [Hp _].
    by destruct (from_rpc _ _ _ _ _ _) as [[l|e] w1].
  - rewrite emit_not_dict by (intros ?; congruence). apply preserved_refl.
Qed.



(** C8.  [from_rpc] does not validate [source].  Whatever the string, a
    call whose timestamp parses constructs a message, and the [source] of
    the message is that string; and a call that raises with one string
    raises the same exception with any other. *)
Theorem source_not_validated w session ts tag message :
  (forall t d,
     fromisoformat ts = Some t ->
     heap w !! message = Some (ODict d) ->
     exists l w' m,
       from_rpc py fromisoformat session ts tag message w = (Ok l, w') /\
       heap w' !! l = Some (OMessage m) /\
       source m = tag) /\
  (forall e tag',
     fst (from_rpc py fromisoformat session ts tag message w) = Raise e ->
     fst (from_rpc py fromisoformat session ts tag' message w) = Raise e).
Proof.
  split.
  - intros t d Ht Hd.
    destruct (from_rpc_constructs w session ts t tag message d Hd Ht)
      as (l & w' & Hrun & Hl & _).
    by exists l, w', (message_of py session t tag d).
  - intros e tag'. destruct (heap w !! message) as [[d|m]|] eqn:E.
    + rewrite !(from_rpc_run _ _ _ _ _ _ E). by destruct (fromisoformat ts).
    + by rewrite !from_rpc_not_mapping by (intros d; congruence).
    + by rewrite !from_rpc_not_mapping by (intros d; congruence).
Qed.

(** C9.  A payload given as the text [null] is [None] in the message.
    With [params] so given, [is_request] and [is_notification] are false
    whatever [id] is; [result] and [error] so given are [None], and
    [is_response] is false when each of them is the text [null] or
    absent. *)
Theorem null_payload_is_absent w session ts t source message d :
  heap w !! message = Some (ODict d) ->
  fromisoformat ts = Some t ->
  exists l w' m,
    from_rpc py fromisoformat session ts source message w = (Ok l, w') /\
    heap w' !! l = Some (OMessage m) /\
    (dict_get d (str_of "params") PyNone = null ->
       params m = PyNone /\
       is_request l w' = (Ok false, w') /\
       is_notification l w' = (Ok false, w')) /\
    (dict_get d (str_of "result") PyNone = null -> result m = PyNone) /\
    (dict_get d (str_of "error") PyNone = null -> error m = PyNone) /\
    (dict_get d (str_of "result") PyNone = null \/
       dict_get d (str_of "result") PyNone = PyNone ->
     dict_get d (str_of "error") PyNone = null \/
       dict_get d (str_of "error") PyNone = PyNone ->
     is_response l w' = (Ok false, w')).
Proof.
  intros Hd Ht.
  destruct (from_rpc_constructs w session ts t source message d Hd Ht)
    as (l & w' & Hrun & Hl & _).
  exists l, w', (message_of py session t source d).
  split; [done|]. split; [done|].
  unfold is_request, is_response, is_notification, mbind, M_bind, mret, M_ret.
  rewrite (load_run _ _ _ Hl). cbn [params result error id message_of].
  split; [|split; [|split]].
  - intros ->. rewrite maybe_json_value_null. cbn. by rewrite !andb_false_r.
  - intros ->. apply maybe_json_value_null.
  - intros ->. apply maybe_json_value_null.
  - intros [-> | ->] [-> | ->]; rewrite ?maybe_json_value_null; cbn;
      by rewrite andb_false_r.
Qed.

(** C10 (amended).  When [args] of the record is a dict, the record
    carries its source, session and timestamp, and [from_rpc] constructs
    a message from them, [emit] invokes [handle_message] once, on that
    message, and ends as [handle_message] does.  When [args] is not a
    dict, [emit] returns without invoking [handle_message] and without
    raising. *)
Theorem emit_dispatch handle_message w record :
  (forall message session ts source l w1,
     args record = args_dict message ->
     getitem (__dict__ record) (str_of "Message-Source") = Ok source ->
     getitem (__dict__ record) (str_of "Message-Session") = Ok session ->
     getitem (__dict__ record) (str_of "Message-Timestamp") = Ok ts ->
     from_rpc py fromisoformat session ts source message w = (Ok l, w1) ->
     emit py fromisoformat handle_message record w =
       (fst (handle_message l (heap w1)),
        {| heap := snd (handle_message l (heap w1));
           handled := handled w ++ [l] |})) /\
  ((forall message, args record <> args_dict message) ->
     emit py fromisoformat handle_message record w = (Ok tt, w)).
Proof.
  split; [|apply emit_not_dict].
  intros message session ts source l w1 Hargs Hsrc Hsess Hts Hrun.
  rewrite (emit_run _ _ _ _ Hargs), Hsrc, Hsess, Hts, Hrun.
  pose proof (from_rpc_frame w session ts source message) as [_ Hh].
  rewrite Hrun in Hh. simpl in Hh. by rewrite Hh.
Qed.

End Properties.

(** ** The module on the sample inputs *)

Example from_rpc_sample :
  from_rpc sample_interpreter basic_fromisoformat (str_of "s1") sample_timestamp (str_of "client")
    0%nat sample_world = (Ok 1%nat, parsed_world).
Proof. reflexivity. Qed.

(** Feeding the parsed payloads back without re-encoding them is another
    matter: a JSON string whose content is itself JSON is decoded twice. *)
Example maybe_json_not_idempotent :
  maybe_json sample_interpreter (PyStr ([QUOTE] ++ str_of "5" ++ [QUOTE]))
    = Ok (PyStr (str_of "5")) /\
  maybe_json sample_interpreter (PyStr (str_of "5")) = Ok (PyInt 5).
Proof. split; reflexivity. Qed.

(** A float is the number, not the text it was read from: [1.50] is
    written back as [1.5], and [1e400], beyond the largest float, as
    [Infinity]. *)
Example floats_are_numbers :
  json.loads sample_interpreter (PyStr (str_of "1.50")) = Ok (PyFloat one_and_a_half) /\
  serializer.serialize true (PyFloat one_and_a_half) = str_of "1.5" /\
  json.loads sample_interpreter (PyStr (str_of "1e400"))
    = Ok (PyFloat (S754_infinity false)) /\
  serializer.serialize true (PyFloat (S754_infinity false)) = str_of "Infinity".
Proof. repeat split; vm_compute; reflexivity. Qed.

(** A surrogate pair written as two escapes is one character. *)
Example loads_surrogate_pair :
  json.loads sample_interpreter (PyStr ([QUOTE] ++ str_of "\ud83d\ude00" ++ [QUOTE]))
    = Ok (PyStr [0x1f600]).
Proof. reflexivity. Qed.

Lemma classification_table_witness :
  heap parsed_world !! 1%nat = Some (OMessage sample_message) /\
  (exists b, is_request 1%nat parsed_world = (Ok b, parsed_world) /\
     (b = true <->
      id sample_message <> PyNone /\ params sample_message <> PyNone)) /\
  (exists b, is_response 1%nat parsed_world = (Ok b, parsed_world) /\
     (b = true <->
      id sample_message <> PyNone /\
      (result sample_message <> PyNone \/ error sample_message <> PyNone))) /\
  (exists b, is_notification 1%nat parsed_world = (Ok b, parsed_world) /\
     (b = true <->
      id sample_message = PyNone /\ params sample_message <> PyNone)).
Proof.
  split; [reflexivity|].
  apply (classification_table parsed_world 1%nat sample_message). reflexivity.
Defined.

(** C2, as stated, fails on the text [NaN]: it is not valid JSON, and the
    [params] of the message is the float, not the text. *)
Lemma constant_text_is_decoded :
  ~ valid_json (str_of "NaN") /\
  exists w' m,
    from_rpc sample_interpreter basic_fromisoformat (str_of "s1") sample_timestamp (str_of "client")
      0%nat nan_world = (Ok 1%nat, w') /\
    heap w' !! 1%nat = Some (OMessage m) /\
    params m = PyFloat S754_nan /\
    params m <> PyStr (str_of "NaN").
Proof.
  split.
  - intros [obj H]. vm_compute in H. discriminate.
  - eexists _, _. split; [reflexivity|]. split; [reflexivity|].
    split; [reflexivity | discriminate].
Qed.

Lemma payload_fields_coerced_witness :
  heap sample_world !! 0%nat = Some (ODict sample_request) /\
  basic_fromisoformat sample_timestamp = Some (timestamp sample_message) /\
  exists l w' m,
    from_rpc sample_interpreter basic_fromisoformat (str_of "s1") sample_timestamp (str_of "client")
      0%nat sample_world = (Ok l, w') /\
    heap w' !! l = Some (OMessage m) /\
    coerced sample_interpreter (dict_get sample_request (str_of "params") PyNone) (params m) /\
    coerced sample_interpreter (dict_get sample_request (str_of "result") PyNone) (result m) /\
    coerced sample_interpreter (dict_get sample_request (str_of "error") PyNone) (error m).
Proof.
  split; [reflexivity|]. split; [reflexivity|].
  apply (payload_fields_coerced sample_interpreter basic_fromisoformat sample_world (str_of "s1")
           sample_timestamp (timestamp sample_message) (str_of "client")
           0%nat sample_request); reflexivity.
Defined.

Lemma no_payload_no_class_witness :
  heap empty_world !! 1%nat = Some (OMessage empty_message) /\
  is_request 1%nat empty_world = (Ok false, empty_world) /\
  is_response 1%nat empty_world = (Ok false, empty_world) /\
  is_notification 1%nat empty_world = (Ok false, empty_world).
Proof.
  split; [reflexivity|].
  apply (no_payload_no_class empty_world 1%nat empty_message); reflexivity.
Defined.

Lemma timestamp_parsed_or_rejected_witness :
  basic_fromisoformat (str_of "yesterday") = None /\
  from_rpc sample_interpreter basic_fromisoformat (str_of "s1") (str_of "yesterday") (str_of "client")
    0%nat sample_world = (Raise ValueError, sample_world) /\
  basic_fromisoformat sample_timestamp = Some (timestamp sample_message) /\
  heap sample_world !! 0%nat = Some (ODict sample_request) /\
  exists l w' m,
    from_rpc sample_interpreter basic_fromisoformat (str_of "s1") sample_timestamp (str_of "client")
      0%nat sample_world = (Ok l, w') /\
    heap sample_world !! l = None /\
    heap w' !! l = Some (OMessage m) /\
    timestamp m = timestamp sample_message.
Proof.
  split; [reflexivity|]. split.
  { apply (proj1 (timestamp_parsed_or_rejected sample_interpreter basic_fromisoformat sample_world
                    (str_of "s1") (str_of "yesterday") (str_of "client") 0%nat)).
    reflexivity. }
  split; [reflexivity|]. split; [reflexivity|].
  apply (proj2 (timestamp_parsed_or_rejected sample_interpreter basic_fromisoformat sample_world
                  (str_of "s1") sample_timestamp (str_of "client") 0%nat)
           (timestamp sample_message) sample_request); reflexivity.
Defined.

(** C5, as stated, fails: the class is not frozen, and an assignment to
    an attribute changes a message that has been constructed. *)
Lemma assignment_changes_message :
  exists w' m',
    heap parsed_world !! 1%nat = Some (OMessage sample_message) /\
    LspMessage_setattr sample_interpreter 1%nat (set_session (str_of "s2")) parsed_world
      = (Ok tt, w') /\
    heap w' !! 1%nat = Some (OMessage m') /\
    session m' <> session sample_message.
Proof.
  eexists _, _. split; [reflexivity|]. split; [reflexivity|].
  split; [reflexivity | discriminate].
Qed.



(** The hand-written serialized form of the sample is read back too. *)
Example reparse_hand_written :
  reencodes sample_interpreter sample_reencoded sample_message.
Proof.
  repeat split; try reflexivity; try (left; reflexivity);
    right; split; reflexivity.
Qed.


Lemma source_not_validated_witness :
  basic_fromisoformat sample_timestamp = Some (timestamp sample_message) /\
  heap sample_world !! 0%nat = Some (ODict sample_request) /\
  exists l w' m,
    from_rpc sample_interpreter basic_fromisoformat (str_of "s1") sample_timestamp (str_of "proxy")
      0%nat sample_world = (Ok l, w') /\
    heap w' !! l = Some (OMessage m) /\
    source m = str_of "proxy".
Proof.
  split; [reflexivity|]. split; [reflexivity|].
  apply (proj1 (source_not_validated sample_interpreter basic_fromisoformat sample_world (str_of "s1")
                  sample_timestamp (str_of "proxy") 0%nat)
           (timestamp sample_message) sample_request); reflexivity.
Defined.

Lemma null_payload_is_absent_witness :
  heap null_world !! 0%nat = Some (ODict null_request) /\
  basic_fromisoformat sample_timestamp = Some (timestamp sample_message) /\
  exists l w' m,
    from_rpc sample_interpreter basic_fromisoformat (str_of "s1") sample_timestamp (str_of "client")
      0%nat null_world = (Ok l, w') /\
    heap w' !! l = Some (OMessage m) /\
    id m <> PyNone /\
    params m = PyNone /\
    is_request l w' = (Ok false, w') /\
    is_notification l w' = (Ok false, w') /\
    is_response l w' = (Ok false, w').
Proof.
  split; [reflexivity|]. split; [reflexivity|].
  destruct (null_payload_is_absent sample_interpreter basic_fromisoformat null_world (str_of "s1")
              sample_timestamp (timestamp sample_message) (str_of "client") 0%nat
              null_request eq_refl eq_refl)
    as (l & w' & m & Hrun & Hl & Hparams & _ & _ & Hresp).
  exists l, w', m.
  destruct (Hparams eq_refl) as (Hp & Hreq & Hnot).
  assert (l = 1%nat /\ id m <> PyNone) as [-> Hid].
  { vm_compute in Hrun. injection Hrun as <- <-. vm_compute in Hl.
    injection Hl as <-. split; [reflexivity | discriminate]. }
  repeat split; try assumption.
  apply Hresp; [left | right]; reflexivity.
Defined.

(** C10, as stated, fails: [args] of the record is a dict, the timestamp
    does not parse; [emit] raises and no message is handled. *)
Lemma emit_dict_without_dispatch :
  args bad_record = args_dict 0%nat /\
  heap sample_world !! 0%nat = Some (ODict sample_request) /\
  fst (emit sample_interpreter basic_fromisoformat LspHandler_handle_message bad_record sample_world)
    = Raise ValueError /\
  handled (snd (emit sample_interpreter basic_fromisoformat LspHandler_handle_message bad_record
                  sample_world)) = [].
Proof. repeat split. Qed.

Lemma emit_dispatch_witness :
  args sample_record = args_dict 0%nat /\
  from_rpc sample_interpreter basic_fromisoformat (str_of "s1") sample_timestamp (str_of "client")
    0%nat sample_world = (Ok 1%nat, parsed_world) /\
  emit sample_interpreter basic_fromisoformat LspHandler_handle_message sample_record sample_world
    = (Ok tt, {| heap := heap parsed_world; handled := [1%nat] |}) /\
  emit sample_interpreter basic_fromisoformat LspHandler_handle_message plain_record sample_world
    = (Ok tt, sample_world).
Proof.
  split; [reflexivity|]. split; [reflexivity|]. split.
  - apply (proj1 (emit_dispatch sample_interpreter basic_fromisoformat LspHandler_handle_message
                    sample_world sample_record)
             0%nat (str_of "s1") sample_timestamp (str_of "client") 1%nat
             parsed_world); reflexivity.
  - apply (proj2 (emit_dispatch sample_interpreter basic_fromisoformat LspHandler_handle_message
                    sample_world plain_record)).
    intros message. discriminate.
Defined.

(** * Further properties of the module *)

(** ** What the scanner returns for [null] *)

Module null_facts.
Import json.

Lemma skip_ws_split s :
  exists a, s = a ++ skip_ws s /\ forallb is_ws a = true.
Proof.
  induction s as [|c s (a & Heq & Ha)]; [by exists []|].
  cbn [skip_ws]. destruct (is_ws c) eqn:E.
  - exists (c :: a). cbn. rewrite E, Ha. split; [by f_equal | done].
  - by exists [].
Qed.

Lemma skip_ws_nil s : skip_ws s = [] -> forallb is_ws s = true.
Proof.
  intros H. destruct (skip_ws_split s) as (a & Heq & Ha).
  rewrite H, app_nil_r in Heq. by subst.
Qed.

Lemma skip_ws_app a s : forallb is_ws a = true -> skip_ws (a ++ s) = skip_ws s.
Proof.
  induction a as [|c a IH]; [done|]. cbn.
  intros [Hc Ha]%andb_true_iff. rewrite Hc. by apply IH.
Qed.

Lemma skip_ws_all a : forallb is_ws a = true -> skip_ws a = [].
Proof.
  intros H. rewrite <- (app_nil_r a). by rewrite skip_ws_app.
Qed.

Lemma strip_prefix_app lit s r : strip_prefix lit s = Some r -> s = lit ++ r.
Proof.
  revert s. induction lit as [|x lit IH]; intros [|y s]; cbn; try congruence.
  destruct (x =? y) eqn:E; [|discriminate]. apply N.eqb_eq in E as <-.
  intros H. by rewrite (IH _ H).
Qed.

Lemma array_loop_list f n s values v r :
  array_loop f n s values = Scanned v r -> exists items, v = PyList items.
Proof.
  revert s values. induction n as [|n IH]; intros s values H; [discriminate|].
  cbn [array_loop] in H.
  destruct (f s) as [value r1| | |]; try discriminate.
  destruct (skip_ws r1) as [|c r2]; [discriminate|].
  destruct (c =? RBRACKET); [injection H as <- <-; by eexists|].
  destruct (c =? COMMA); [|discriminate]. by eapply IH.
Qed.

Lemma object_loop_dict f n s pairs v r :
  object_loop f n s pairs = Scanned v r -> exists d, v = PyDict d.
Proof.
  revert s pairs. induction n as [|n IH]; intros s pairs H; [discriminate|].
  cbn [object_loop] in H.
  destruct (scanstring s []) as [[key r0]|]; [|discriminate].
  destruct (skip_ws r0) as [|c r1]; [discriminate|].
  destruct (c =? COLON); [|discriminate].
  destruct (f (skip_ws r1)) as [value r2| | |]; try discriminate.
  destruct (skip_ws r2) as [|c3 r3]; [discriminate|].
  destruct (c3 =? RBRACE); [injection H as <- <-; by eexists|].
  destruct (c3 =? COMMA); [|discriminate].
  destruct (skip_ws r3) as [|c4 r4]; [discriminate|].
  destruct (c4 =? QUOTE); [|discriminate]. by eapply IH.
Qed.

(** With the default constants, [None] is read from the literal [null]
    and from nothing else. *)
Lemma scan_once_none max n s r :
  scan_once _CONSTANTS max n s = Scanned PyNone r ->
  strip_prefix (str_of "null") s = Some r.
Proof.
  rewrite json_facts.scan_once_eq. destruct s as [|c s]; [discriminate|].
  destruct (c =? QUOTE).
  { destruct (scanstring s []) as [[str rest]|]; discriminate. }
  destruct (c =? LBRACE).
  { destruct n as [|n]; [discriminate|].
    unfold JSONObject. destruct (skip_ws s) as [|c1 r1]; [discriminate|].
    destruct (c1 =? QUOTE).
    - intros H. by apply object_loop_dict in H as [d Hd].
    - destruct (c1 =? RBRACE); discriminate. }
  destruct (c =? LBRACKET).
  { destruct n as [|n]; [discriminate|].
    unfold JSONArray. destruct (skip_ws s) as [|c1 r1]; [discriminate|].
    destruct (c1 =? RBRACKET); [discriminate|].
    intros H. by apply array_loop_list in H as [items Hi]. }
  unfold scan_literal.
  destruct (strip_prefix (str_of "null") (c :: s)) as [rest|]; [by intros [= <-]|].
  destruct (strip_prefix (str_of "true") (c :: s)); [discriminate|].
  destruct (strip_prefix (str_of "false") (c :: s)); [discriminate|].
  unfold scan_number, scan_constant.
  destruct (match_number (c :: s)) as [[[[i f] e] rest]|].
  { destruct f, e; [destruct (exceeds_limit _ _)|..]; discriminate. }
  destruct (strip_prefix (str_of "NaN") (c :: s)); [discriminate|].
  destruct (strip_prefix (str_of "Infinity") (c :: s)); [discriminate|].
  destruct (strip_prefix (str_of "-Infinity") (c :: s)); discriminate.
Qed.

Lemma scan_once_null pc max n b :
  scan_once pc max n (str_of "null" ++ b) = Scanned PyNone b.
Proof. by rewrite json_facts.scan_once_eq. Qed.

Lemma is_ws_not_bom c : is_ws c = true -> (0xfeff =? c) = false.
Proof.
  unfold is_ws. intros H. apply N.eqb_neq. intros <-. discriminate.
Qed.

Lemma decode_none max depth text :
  decode _CONSTANTS max depth text = Scanned PyNone [] -> null_text text.
Proof.
  unfold decode.
  destruct (scan_once _ _ _ _) as [obj rest| | |] eqn:E; try discriminate.
  destruct (skip_ws rest) eqn:Er; [|discriminate]. intros [= ->].
  apply scan_once_none, strip_prefix_app in E.
  destruct (skip_ws_split text) as (a & Heq & Ha). rewrite E in Heq.
  exists a, rest. split; [done|]. split; [done|]. by apply skip_ws_nil.
Qed.

Lemma decode_null_text pc max depth text :
  null_text text -> decode pc max depth text = Scanned PyNone [].
Proof.
  intros (a & b & -> & Ha & Hb). unfold decode.
  rewrite (skip_ws_app _ _ Ha).
  change (skip_ws (str_of "null" ++ b)) with (str_of "null" ++ b).
  rewrite scan_once_null. by rewrite (skip_ws_all _ Hb).
Qed.

Lemma default_decoder_none py text :
  default_decoder py text = Ok PyNone <-> null_text text.
Proof.
  unfold default_decoder. split.
  - destruct (decode _ _ _ text) as [obj rest| | |] eqn:E; try discriminate.
    intros [= ->]. apply (decode_none (int_max_str_digits py) (recursion_budget py)).
    rewrite E. f_equal. unfold decode in E.
    destruct (scan_once _ _ _ _) as [obj r| | |]; try discriminate.
    by destruct (skip_ws r); [injection E as _ <-|].
  - intros H. by rewrite (decode_null_text _ _ _ _ H).
Qed.

Lemma null_text_no_bom text : null_text text -> strip_prefix [0xfeff] text = None.
Proof.
  intros (a & b & -> & Ha & _). destruct a as [|c a]; [reflexivity|].
  cbn [forallb] in Ha. apply andb_true_iff in Ha as [Hc _].
  cbn [app strip_prefix]. by rewrite (is_ws_not_bom _ Hc).
Qed.

(** [json.loads] returns [None] for the texts that say [null], and for
    nothing else. *)
Lemma loads_none py raw :
  json.loads py raw = Ok PyNone <->
  exists text, raw_text raw = Some text /\ null_text text.
Proof.
  split.
  - destruct raw; try discriminate; cbn [loads raw_text].
    + destruct (strip_prefix [0xfeff] s); [discriminate|].
      intros H. exists s. split; [done|]. by apply (default_decoder_none py).
    + destruct (codec.decode data) as [text|]; [|discriminate].
      intros H. exists text. split; [done|]. by apply (default_decoder_none py).
    + destruct (codec.decode data) as [text|]; [|discriminate].
      intros H. exists text. split; [done|]. by apply (default_decoder_none py).
  - intros (text & Ht & Hn).
    destruct raw; try discriminate; cbn [loads raw_text] in *.
    + injection Ht as ->. rewrite (null_text_no_bom _ Hn).
      by apply default_decoder_none.
    + rewrite Ht. by apply default_decoder_none.
    + rewrite Ht. by apply default_decoder_none.
Qed.

(** The decoder makes no [bytes]. *)
Lemma scan_once_no_bytes max n s v r :
  scan_once _CONSTANTS max n s = Scanned v r ->
  (forall data, v <> PyBytes data) /\ (forall data, v <> PyByteArray data).
Proof.
  rewrite json_facts.scan_once_eq. destruct s as [|c s]; [discriminate|].
  destruct (c =? QUOTE).
  { destruct (scanstring s []) as [[str rest]|]; [|discriminate].
    by intros [= <- <-]. }
  destruct (c =? LBRACE).
  { destruct n as [|n]; [discriminate|].
    unfold JSONObject. destruct (skip_ws s) as [|c1 r1]; [discriminate|].
    destruct (c1 =? QUOTE).
    - intros H. by apply object_loop_dict in H as [d ->].
    - destruct (c1 =? RBRACE); [by intros [= <- <-] | discriminate]. }
  destruct (c =? LBRACKET).
  { destruct n as [|n]; [discriminate|].
    unfold JSONArray. destruct (skip_ws s) as [|c1 r1]; [discriminate|].
    destruct (c1 =? RBRACKET); [by intros [= <- <-]|].
    intros H. by apply array_loop_list in H as [items ->]. }
  unfold scan_literal.
  destruct (strip_prefix (str_of "null") (c :: s)) as [rest|]; [by intros [= <- <-]|].
  destruct (strip_prefix (str_of "true") (c :: s)); [by intros [= <- <-]|].
  destruct (strip_prefix (str_of "false") (c :: s)); [by intros [= <- <-]|].
  unfold scan_number, scan_constant.
  destruct (match_number (c :: s)) as [[[[i f] e] rest]|].
  { destruct f, e; [destruct (exceeds_limit _ _); [discriminate|]|..];
      by intros [= <- <-]. }
  destruct (strip_prefix (str_of "NaN") (c :: s)); [by intros [= <- <-]|].
  destruct (strip_prefix (str_of "Infinity") (c :: s)); [by intros [= <- <-]|].
  destruct (strip_prefix (str_of "-Infinity") (c :: s)); [by intros [= <- <-]|].
  discriminate.
Qed.

Lemma loads_no_bytes py raw obj :
  json.loads py raw = Ok obj ->
  (forall data, obj <> PyBytes data) /\ (forall data, obj <> PyByteArray data).
Proof.
  assert (forall text, default_decoder py text = Ok obj ->
            (forall data, obj <> PyBytes data) /\
            (forall data, obj <> PyByteArray data)) as Hd.
  { intros text. unfold default_decoder, decode.
    destruct (scan_once _ _ _ _) as [v rest| | |] eqn:E; try discriminate.
    destruct (skip_ws rest); [|discriminate]. intros [= <-].
    by apply scan_once_no_bytes in E. }
  destruct raw; try discriminate; cbn [loads].
  - destruct (strip_prefix [0xfeff] s); [discriminate | apply Hd].
  - destruct (codec.decode data); [apply Hd | discriminate].
  - destruct (codec.decode data); [apply Hd | discriminate].
Qed.

End null_facts.
Lemma maybe_json_value_none py raw :
  maybe_json_value py raw = PyNone <-> absent raw.
Proof.
  unfold maybe_json_value, absent. split.
  - destruct (json.loads py raw) as [obj|e] eqn:E; [|by left].
    intros ->. right. by apply (null_facts.loads_none py).
  - intros [-> | H]; [done|].
    apply (null_facts.loads_none py) in H. by rewrite H.
Qed.

Lemma is_not_none_value py raw :
  is_not_none (maybe_json_value py raw) = true <-> ~ absent raw.
Proof. by rewrite is_not_none_true, maybe_json_value_none. Qed.

Lemma returns_true {S : Type} (b : bool) (w : S) :
  (Ok b, w) = (Ok true, w) <-> b = true.
Proof. split; [by intros [= ->] | by intros ->]. Qed.

(** ** Items of a record and of a mapping *)

Lemma getitem_missing d key :
  ~ In key (map fst d) -> getitem d key = Raise (KeyError key).
Proof.
  induction d as [|[k v] d IH]; cbn; [done|]. intros H.
  destruct (pystr_eqb k key) eqn:E.
  - apply serializer_facts.pystr_eqb_eq in E. tauto.
  - apply IH. tauto.
Qed.

Lemma getitem_present d key :
  In key (map fst d) -> exists v, getitem d key = Ok v.
Proof.
  induction d as [|[k v] d IH]; cbn; [done|]. intros H.
  destruct (pystr_eqb k key) eqn:E; [by eexists|].
  destruct H as [<- | H]; [|by apply IH].
  assert (pystr_eqb k k = true) by by apply serializer_facts.pystr_eqb_eq.
  congruence.
Qed.

Lemma dict_get_setitem d key v default :
  dict_get (dict_setitem d key v) key default = v.
Proof.
  unfold dict_get.
  assert (pystr_eqb key key = true) as Hk by by apply serializer_facts.pystr_eqb_eq.
  induction d as [|[k x] d IH]; cbn; [by rewrite Hk|].
  destruct (pystr_eqb k key) eqn:E; cbn; by rewrite E.
Qed.

Lemma dict_get_setitem_ne d key key' v default :
  pystr_eqb key key' = false ->
  dict_get (dict_setitem d key v) key' default = dict_get d key' default.
Proof.
  unfold dict_get. intros Hne.
  induction d as [|[k x] d IH]; cbn; [by rewrite Hne|].
  destruct (pystr_eqb k key) eqn:E; cbn.
  - apply serializer_facts.pystr_eqb_eq in E as ->. by rewrite Hne.
  - by destruct (pystr_eqb k key').
Qed.

Section Further.

Variable py : interpreter.
Context {datetime : Type}.
Variable fromisoformat : pystr -> option datetime.

Implicit Types (w : @world datetime) (m : @LspMessage datetime) (d : dict).

(** [emit] on a record that carries everything, in one equation. *)
Lemma emit_complete handle_message w record message d source session ts t :
  args record = args_dict message ->
  heap w !! message = Some (ODict d) ->
  getitem (__dict__ record) (str_of "Message-Source") = Ok source ->
  getitem (__dict__ record) (str_of "Message-Session") = Ok session ->
  getitem (__dict__ record) (str_of "Message-Timestamp") = Ok ts ->
  fromisoformat ts = Some t ->
  emit py fromisoformat handle_message record w =
    let l := List.length (heap w) in
    let h := heap w ++ [OMessage (message_of py session t source d)] in
    (fst (handle_message l h),
     {| heap := snd (handle_message l h); handled := handled w ++ [l] |}).
Proof.
  intros Hargs Hd Hsrc Hsess Hts Ht.
  rewrite (emit_run _ _ _ _ _ _ Hargs), Hsrc, Hsess, Hts.
  by rewrite (from_rpc_run _ _ _ _ _ _ _ _ Hd), Ht.
Qed.

Lemma setattr_run w self m a m' :
  heap w !! self = Some (OMessage m) ->
  assign py m a = Ok m' ->
  LspMessage_setattr py self a w =
    (Ok tt, {| heap := <[self := OMessage m']> (heap w); handled := handled w |}).
Proof. intros Hm Ha. unfold LspMessage_setattr. by rewrite Hm, Ha. Qed.

(** *** The three properties *)

(** X1.  A notification is neither a request nor a response: of a message
    of which [is_notification] is true, [is_request] and [is_response]
    are false. *)
Theorem notification_excludes_request_and_response w self :
  is_notification self w = (Ok true, w) ->
  is_request self w = (Ok false, w) /\ is_response self w = (Ok false, w).
Proof.
  unfold is_request, is_response, is_notification, mbind, M_bind, mret, M_ret, load.
  destruct (heap w !! self) as [[d|m]|]; try discriminate.
  intros [= H]. apply andb_true_iff in H as [Hid _].
  unfold is_not_none. by rewrite Hid.
Qed.

(** X2.  The three properties look at nothing but which of [id],
    [params], [result] and [error] are [None]: two messages that agree
    there are classified alike, whatever their [method], [session],
    [source] and [timestamp] and whatever the values that are present. *)
Theorem classification_reads_presence_only w w' self self' m m' :
  heap w !! self = Some (OMessage m) ->
  heap w' !! self' = Some (OMessage m') ->
  is_none (id m) = is_none (id m') ->
  is_none (params m) = is_none (params m') ->
  is_none (result m) = is_none (result m') ->
  is_none (error m) = is_none (error m') ->
  fst (is_request self w) = fst (is_request self' w') /\
  fst (is_response self w) = fst (is_response self' w') /\
  fst (is_notification self w) = fst (is_notification self' w').
Proof.
  intros Hm Hm' Hid Hp Hr He.
  unfold is_request, is_response, is_notification, mbind, M_bind, mret, M_ret.
  rewrite (load_run _ _ _ Hm), (load_run _ _ _ Hm').
  unfold is_not_none. by rewrite Hid, Hp, Hr, He.
Qed.

(** X3.  A message that has [params] is a request or a notification and
    never both: a request when it has an [id], a notification when it has
    none. *)
Theorem params_make_request_or_notification w self m :
  heap w !! self = Some (OMessage m) ->
  params m <> PyNone ->
  exists b,
    is_request self w = (Ok b, w) /\
    is_notification self w = (Ok (negb b), w) /\
    (b = true <-> id m <> PyNone).
Proof.
  intros Hm Hp. exists (is_not_none (id m)).
  unfold is_request, is_notification, mbind, M_bind, mret, M_ret.
  rewrite (load_run _ _ _ Hm).
  apply is_not_none_true in Hp. rewrite Hp, !andb_true_r.
  split; [done|]. split; [|apply is_not_none_true].
  unfold is_not_none. by rewrite negb_involutive.
Qed.

(** *** [from_rpc] *)

(** X4.  A key the mapping does not have gives [None] in the message, for
    each of the five attributes read from it.  A mapping with none of the
    keys [params], [result] and [error] (a request without parameters is
    one) gives a message that is neither request, response nor
    notification. *)
Theorem missing_keys_are_none w session ts t source message d :
  heap w !! message = Some (ODict d) ->
  fromisoformat ts = Some t ->
  exists l w' m,
    from_rpc py fromisoformat session ts source message w = (Ok l, w') /\
    heap w' !! l = Some (OMessage m) /\
    (dict_lookup d (str_of "id") = None -> id m = PyNone) /\
    (dict_lookup d (str_of "method") = None -> method m = PyNone) /\
    (dict_lookup d (str_of "params") = None -> params m = PyNone) /\
    (dict_lookup d (str_of "result") = None -> result m = PyNone) /\
    (dict_lookup d (str_of "error") = None -> error m = PyNone) /\
    (dict_lookup d (str_of "params") = None ->
     dict_lookup d (str_of "result") = None ->
     dict_lookup d (str_of "error") = None ->
     is_request l w' = (Ok false, w') /\
     is_response l w' = (Ok false, w') /\
     is_notification l w' = (Ok false, w')).
Proof.
  intros Hd Ht.
  destruct (from_rpc_constructs py fromisoformat w session ts t source message d Hd Ht)
    as (l & w' & Hrun & Hl & _).
  exists l, w', (message_of py session t source d).
  split; [done|]. split; [done|].
  unfold is_request, is_response, is_notification, mbind, M_bind, mret, M_ret.
  rewrite (load_run _ _ _ Hl).
  unfold message_of, dict_get. cbn [id method params result error].
  do 5 (split; [by intros ->|]).
  intros -> -> ->. cbn. by rewrite ?andb_false_r.
Qed.

(** X5.  [id] and [method] are stored as the mapping has them: unlike the
    payloads they are never decoded, a [str] that holds JSON text
    included. *)
Theorem id_and_method_kept_verbatim w session ts t source message d :
  heap w !! message = Some (ODict d) ->
  fromisoformat ts = Some t ->
  exists l w' m,
    from_rpc py fromisoformat session ts source message w = (Ok l, w') /\
    heap w' !! l = Some (OMessage m) /\
    id m = dict_get d (str_of "id") PyNone /\
    method m = dict_get d (str_of "method") PyNone.
Proof.
  intros Hd Ht.
  destruct (from_rpc_constructs py fromisoformat w session ts t source message d Hd Ht)
    as (l & w' & Hrun & Hl & _).
  by exists l, w', (message_of py session t source d).
Qed.

(** X6.  Given a mapping, [from_rpc] raises for one reason only: the
    exception is [ValueError], the timestamp is one [fromisoformat]
    rejects, and nothing has been allocated.  No content of the mapping
    makes it raise. *)
Theorem from_rpc_raises_for_timestamp_only w session ts source message d e w' :
  heap w !! message = Some (ODict d) ->
  from_rpc py fromisoformat session ts source message w = (Raise e, w') ->
  e = ValueError /\ fromisoformat ts = None /\ w' = w.
Proof.
  intros Hd. rewrite (from_rpc_run _ _ _ _ _ _ _ _ Hd).
  destruct (fromisoformat ts); [discriminate|]. by intros [= <- <-].
Qed.

(** X7.  [from_rpc] reads the keys [id], [method], [params], [result] and
    [error] and no other: two mappings that answer [get] alike on these
    five (they may differ in other keys, and one may lack a key the other
    maps to [None]) give the same outcome, equal messages or the same
    exception. *)
Theorem other_keys_are_ignored w w' session ts source message message' d d' :
  heap w !! message = Some (ODict d) ->
  heap w' !! message' = Some (ODict d') ->
  (forall key,
     In key [str_of "id"; str_of "method"; str_of "params"; str_of "result";
             str_of "error"] ->
     dict_get d key PyNone = dict_get d' key PyNone) ->
  let run := from_rpc py fromisoformat session ts source message w in
  let run' := from_rpc py fromisoformat session ts source message' w' in
  match fst run, fst run' with
  | Ok l, Ok l' =>
      exists m, heap (snd run) !! l = Some (OMessage m) /\
                heap (snd run') !! l' = Some (OMessage m)
  | Raise e, Raise e' => e = e'
  | _, _ => False
  end.
Proof.
  intros Hd Hd' Hkeys run run'. subst run run'.
  rewrite (from_rpc_run _ _ _ _ _ _ _ _ Hd), (from_rpc_run _ _ _ _ _ _ _ _ Hd').
  destruct (fromisoformat ts) as [t|]; simpl; [|done].
  exists (message_of py session t source d). rewrite !lookup_fresh.
  split; [done|]. do 2 f_equal. unfold message_of.
  rewrite !Hkeys; [done | simpl; tauto ..].
Qed.

(** X8.  What a parsed message is, read off the raw mapping.  Call a raw
    payload absent when it is [None] (or missing) or a text that says
    [null], whitespace around it allowed, given as a [str], as [bytes]
    or as a [bytearray].  The message parsed from a mapping is a request
    exactly when [id] is not [None] and [params] is not absent; a
    response exactly when [id] is not [None] and one of [result],
    [error] is not absent; a notification exactly when [id] is [None]
    and [params] is not absent. *)
Theorem parsed_message_classification w session ts t source message d :
  heap w !! message = Some (ODict d) ->
  fromisoformat ts = Some t ->
  exists l w',
    from_rpc py fromisoformat session ts source message w = (Ok l, w') /\
    (is_request l w' = (Ok true, w') <->
       dict_get d (str_of "id") PyNone <> PyNone /\
       ~ absent (dict_get d (str_of "params") PyNone)) /\
    (is_response l w' = (Ok true, w') <->
       dict_get d (str_of "id") PyNone <> PyNone /\
       (~ absent (dict_get d (str_of "result") PyNone) \/
        ~ absent (dict_get d (str_of "error") PyNone))) /\
    (is_notification l w' = (Ok true, w') <->
       dict_get d (str_of "id") PyNone = PyNone /\
       ~ absent (dict_get d (str_of "params") PyNone)).
Proof.
  intros Hd Ht.
  destruct (from_rpc_constructs py fromisoformat w session ts t source message d Hd Ht)
    as (l & w' & Hrun & Hl & _).
  exists l, w'. split; [done|].
  unfold is_request, is_response, is_notification, mbind, M_bind, mret, M_ret.
  rewrite (load_run _ _ _ Hl). cbn [message_of id params result error].
  rewrite !returns_true, !andb_true_iff, orb_true_iff, !is_not_none_value,
    is_not_none_true, is_none_true.
  done.
Qed.

(** *** Assignment *)

(** X9.  Assigning to a payload attribute of a parsed message is parsing
    the mapping with that item replaced: after [m.params = v] the message
    is the one [from_rpc] builds from the mapping in which [params] is
    [v], and likewise for [result] and [error].  The assignment does not
    raise; it changes no other object and handles no message. *)
Theorem assignment_agrees_with_from_rpc w self session t source d key set v :
  heap w !! self = Some (OMessage (message_of py session t source d)) ->
  (key, set) = (str_of "params", set_params) \/
  (key, set) = (str_of "result", set_result) \/
  (key, set) = (str_of "error", set_error) ->
  exists w',
    LspMessage_setattr py self (set v) w = (Ok tt, w') /\
    heap w' !! self =
      Some (OMessage (message_of py session t source (dict_setitem d key v))) /\
    (forall l, l <> self -> heap w' !! l = heap w !! l) /\
    handled w' = handled w.
Proof.
  intros Hm Hkey.
  assert (assign py (message_of py session t source d) (set v)
          = Ok (message_of py session t source (dict_setitem d key v))) as Ha.
  { unfold message_of.
    destruct Hkey as [[= -> ->] | [[= -> ->] | [= -> ->]]]; cbn [assign];
      rewrite maybe_json_ok, dict_get_setitem, !dict_get_setitem_ne by reflexivity;
      reflexivity. }
  eexists. split; [by apply (setattr_run _ _ _ _ _ Hm Ha)|]. cbn [heap handled].
  split; [|split; [|done]].
  - apply list_lookup_insert_eq. by apply lookup_lt_Some in Hm.
  - intros l Hl. by apply list_lookup_insert_ne.
Qed.

(** *** [emit] *)

(** X10.  A record whose [args] is a dict and which lacks one of the
    entries [Message-Source], [Message-Session], [Message-Timestamp]
    makes [emit] raise [KeyError] for the first one missing, in this
    order; nothing has been constructed or handled, and the timestamp has
    not been looked at. *)
Theorem emit_missing_entry handle_message w record message :
  args record = args_dict message ->
  let keys := map fst (__dict__ record) in
  (~ In (str_of "Message-Source") keys ->
     emit py fromisoformat handle_message record w
       = (Raise (KeyError (str_of "Message-Source")), w)) /\
  (In (str_of "Message-Source") keys ->
   ~ In (str_of "Message-Session") keys ->
     emit py fromisoformat handle_message record w
       = (Raise (KeyError (str_of "Message-Session")), w)) /\
  (In (str_of "Message-Source") keys ->
   In (str_of "Message-Session") keys ->
   ~ In (str_of "Message-Timestamp") keys ->
     emit py fromisoformat handle_message record w
       = (Raise (KeyError (str_of "Message-Timestamp")), w)).
Proof.
  intros Hargs keys. rewrite (emit_run _ _ _ _ _ _ Hargs).
  split; [|split].
  - intros H. by rewrite (getitem_missing _ _ H).
  - intros [source ->]%getitem_present H. by rewrite (getitem_missing _ _ H).
  - intros [source ->]%getitem_present [session ->]%getitem_present H.
    by rewrite (getitem_missing _ _ H).
Qed.

(** X11.  A record that carries everything but whose timestamp
    [fromisoformat] rejects makes [emit] raise [ValueError], whatever
    [args] refers to and whatever the handler: [handle_message] is not
    invoked and the world is as it was. *)
Theorem emit_rejected_timestamp handle_message w record message source session ts :
  args record = args_dict message ->
  getitem (__dict__ record) (str_of "Message-Source") = Ok source ->
  getitem (__dict__ record) (str_of "Message-Session") = Ok session ->
  getitem (__dict__ record) (str_of "Message-Timestamp") = Ok ts ->
  fromisoformat ts = None ->
  emit py fromisoformat handle_message record w = (Raise ValueError, w).
Proof.
  intros Hargs Hsrc Hsess Hts Ht.
  rewrite (emit_run _ _ _ _ _ _ Hargs), Hsrc, Hsess, Hts.
  by rewrite (from_rpc_bad_timestamp _ _ _ _ _ _ _ Ht).
Qed.

(** X12.  [emit] itself changes no object: with a [handle_message] that
    leaves the objects it finds as they are, [emit] does too, whatever
    the record and however it ends. *)
Theorem emit_changes_only_through_the_handler handle_message w record :
  (forall l h i o, h !! i = Some o -> snd (handle_message l h) !! i = Some o) ->
  preserved w (snd (emit py fromisoformat handle_message record w)).
Proof.
  intros Hh. destruct (args record) as [items|message|] eqn:Hargs.
  - rewrite emit_not_dict by (intros ?; congruence). apply preserved_refl.
  - rewrite (emit_run _ _ _ _ _ _ Hargs).
    destruct (getitem _ (str_of "Message-Source")) as [source|e];
      [|apply preserved_refl].
    destruct (getitem _ (str_of "Message-Session")) as [session|e];
      [|apply preserved_refl].
    destruct (getitem _ (str_of "Message-Timestamp")) as [ts|e];
      [|apply preserved_refl].
    pose proof (from_rpc_frame py fromisoformat w session ts source message) as [Hp _].
    destruct (from_rpc _ _ _ _ _ _) as [[l|e] w1]; [|done].
    intros i o Hi. simpl. by apply Hh, Hp.
  - rewrite emit_not_dict by (intros ?; congruence). apply preserved_refl.
Qed.

(** X13.  Records are handled in the order they are emitted.  With a
    [handle_message] that returns and leaves the objects it finds as they
    are, emitting two records that carry everything invokes it on two
    messages, the one of the first record first; both messages are in the
    heap afterwards, each built from the mapping, session, source and
    timestamp of its own record. *)
Theorem emits_are_handled_in_order handle_message w
    r1 message1 d1 source1 session1 ts1 t1
    r2 message2 d2 source2 session2 ts2 t2 :
  (forall l h, fst (handle_message l h) = Ok tt) ->
  (forall l h i o, h !! i = Some o -> snd (handle_message l h) !! i = Some o) ->
  args r1 = args_dict message1 ->
  heap w !! message1 = Some (ODict d1) ->
  getitem (__dict__ r1) (str_of "Message-Source") = Ok source1 ->
  getitem (__dict__ r1) (str_of "Message-Session") = Ok session1 ->
  getitem (__dict__ r1) (str_of "Message-Timestamp") = Ok ts1 ->
  fromisoformat ts1 = Some t1 ->
  args r2 = args_dict message2 ->
  heap w !! message2 = Some (ODict d2) ->
  getitem (__dict__ r2) (str_of "Message-Source") = Ok source2 ->
  getitem (__dict__ r2) (str_of "Message-Session") = Ok session2 ->
  getitem (__dict__ r2) (str_of "Message-Timestamp") = Ok ts2 ->
  fromisoformat ts2 = Some t2 ->
  exists l1 l2 w1 w',
    emit py fromisoformat handle_message r1 w = (Ok tt, w1) /\
    emit py fromisoformat handle_message r2 w1 = (Ok tt, w') /\
    handled w' = handled w ++ [l1; l2] /\
    (l1 < l2)%nat /\
    heap w' !! l1 = Some (OMessage (message_of py session1 t1 source1 d1)) /\
    heap w' !! l2 = Some (OMessage (message_of py session2 t2 source2 d2)).
Proof.
  intros Hok Hh Hargs1 Hd1 Hsrc1 Hsess1 Hts1 Ht1 Hargs2 Hd2 Hsrc2 Hsess2 Hts2 Ht2.
  set (l1 := List.length (heap w)).
  set (h1 := snd (handle_message l1
                    (heap w ++ [OMessage (message_of py session1 t1 source1 d1)]))).
  set (w1 := {| heap := h1; handled := handled w ++ [l1] |}).
  assert (h1 !! l1 = Some (OMessage (message_of py session1 t1 source1 d1))) as Hl1.
  { apply Hh, lookup_fresh. }
  assert (heap w1 !! message2 = Some (ODict d2)) as Hd2'.
  { by apply Hh, lookup_app_l_Some. }
  exists l1, (List.length h1), w1. eexists.
  split.
  { rewrite (emit_complete _ _ _ _ _ _ _ _ _ Hargs1 Hd1 Hsrc1 Hsess1 Hts1 Ht1).
    cbv zeta. by rewrite Hok. }
  split.
  { rewrite (emit_complete _ _ _ _ _ _ _ _ _ Hargs2 Hd2' Hsrc2 Hsess2 Hts2 Ht2).
    cbv zeta. by rewrite Hok. }
  subst w1. cbn [heap handled].
  split; [by rewrite <- app_assoc|].
  split; [by apply lookup_lt_Some in Hl1|].
  split.
  - by apply Hh, lookup_app_l_Some.
  - apply Hh. by rewrite list_lookup_middle.
Qed.

End Further.

(** ** [maybe_json] *)

(** X14.  [maybe_json] undoes serialization: applied to the text
    [json.dumps] writes, with [ensure_ascii=False], for a value that
    [json.loads] reads back in this interpreter, it returns that
    value. *)
Theorem maybe_json_decodes_serialized py obj :
  readable py obj = true ->
  maybe_json py (PyStr (serializer.serialize false obj)) = Ok obj.
Proof.
  intros Hwf. unfold maybe_json.
  by rewrite (serializer_facts.loads_serialize _ _ Hwf).
Qed.

(** X15.  [maybe_json] returns [None] for [None] itself and for a text
    that says [null], whitespace around it allowed, given as a [str], as
    [bytes] or as a [bytearray], and for no other value: no other
    payload turns into an absent one. *)
Theorem maybe_json_none_iff_null py raw :
  maybe_json py raw = Ok PyNone <-> absent raw.
Proof.
  rewrite maybe_json_ok, <- maybe_json_value_none.
  split; [by intros [= ->] | by intros ->].
Qed.

(** X16.  Converting twice is converting once unless the first
    conversion produced a [str] out of another value: a result that is
    not a [str], and a value that was kept as it was, are left alone by
    a second conversion. *)
Theorem maybe_json_idempotent_off_str py value r :
  maybe_json py value = Ok r ->
  r = value \/ (forall text, r <> PyStr text) ->
  maybe_json py r = Ok r.
Proof.
  intros H [-> | Hr]; [done|].
  assert ((forall data, r <> PyBytes data) /\ (forall data, r <> PyByteArray data)
          \/ r = value) as [[Hb Ha] | ->]; [| |done].
  - unfold maybe_json, try_except in H.
    destruct (json.loads py value) as [obj|e] eqn:E; injection H as <-;
      [left; by apply (null_facts.loads_no_bytes py value) | by right].
  - destruct r as [|b|z|f|text|data|data|items|pairs]; try reflexivity.
    + by destruct (Hr text).
    + by destruct (Hb data).
    + by destruct (Ha data).
Qed.

(** X17.  A text with nothing to decode is kept as it is: the empty text,
    a text of whitespace only, and a text that starts with a byte order
    mark.  Such a payload is a [str] in the message, not [None]. *)
Theorem maybe_json_keeps_blank_text py text :
  forallb json.is_ws text = true \/ (exists t, text = 0xfeff :: t) ->
  maybe_json py (PyStr text) = Ok (PyStr text).
Proof.
  unfold maybe_json, json.loads. intros [H | [t ->]]; [|reflexivity].
  assert (strip_prefix [0xfeff] text = None) as ->.
  { destruct text as [|c text]; [reflexivity|]. cbn [forallb] in H.
    apply andb_true_iff in H as [Hc _]. cbn [strip_prefix].
    by rewrite (null_facts.is_ws_not_bom _ Hc). }
  unfold json.default_decoder, json.decode.
  by rewrite (null_facts.skip_ws_all _ H), json_facts.scan_once_eq.
Qed.

(** ** Objects that repeat a key *)

Module object_facts.
Import json serializer serializer_facts.

Lemma dict_lookup_setitem d key v key' :
  dict_lookup (dict_setitem d key v) key' =
    if pystr_eqb key key' then Some v else dict_lookup d key'.
Proof.
  induction d as [|[k x] d IH]; cbn [dict_setitem dict_lookup]; [done|].
  destruct (pystr_eqb k key) eqn:E; cbn [dict_lookup].
  - apply pystr_eqb_eq in E as ->. by destruct (pystr_eqb key key').
  - rewrite IH. destruct (pystr_eqb k key') eqn:E'; [|done].
    destruct (pystr_eqb key key') eqn:E2; [|done].
    apply pystr_eqb_eq in E' as ->. apply pystr_eqb_eq in E2 as ->.
    assert (pystr_eqb key' key' = true) by by apply pystr_eqb_eq. congruence.
Qed.

Lemma dict_lookup_app d d' key :
  dict_lookup (d ++ d') key =
    match dict_lookup d key with
    | Some v => Some v
    | None => dict_lookup d' key
    end.
Proof.
  induction d as [|[k x] d IH]; cbn [app dict_lookup]; [done|].
  by destruct (pystr_eqb k key).
Qed.

Lemma dict_lookup_fold pairs : forall acc key,
  dict_lookup (fold_left (fun d kv => dict_setitem d (fst kv) (snd kv)) pairs acc) key
    = match dict_lookup (rev pairs) key with
      | Some v => Some v
      | None => dict_lookup acc key
      end.
Proof.
  induction pairs as [|[k v] pairs IH]; intros acc key; [done|].
  cbn [fold_left rev fst snd]. rewrite IH, dict_lookup_app, dict_lookup_setitem.
  cbn [dict_lookup]. destruct (dict_lookup (rev pairs) key); [done|].
  by destruct (pystr_eqb k key).
Qed.

(** The decoder on the text of an object, whatever its keys. *)
Lemma loads_object py depth pairs :
  recursion_budget py = S depth ->
  forallb (fun kv => well_formed (int_max_str_digits py) depth (snd kv)) pairs = true ->
  json.loads py (PyStr (serialize false (PyDict pairs)))
    = Ok (PyDict (dict_of_pairs pairs)).
Proof.
  intros Hdepth Hwf. unfold loads, default_decoder, decode.
  rewrite Hdepth, serialize_dict.
  change (strip_prefix [0xfeff] (LBRACE :: ?x)) with (@None pystr).
  change (skip_ws (LBRACE :: ?x)) with (LBRACE :: x).
  cbn [scan_once].
  change (LBRACE =? QUOTE) with false. change (LBRACE =? LBRACE) with true.
  cbv iota. unfold JSONObject.
  destruct pairs as [|kv pairs]; [reflexivity|].
  rewrite forallb_forall in Hwf.
  assert (Hne : Forall (fun t => t <> []) (map item_text (kv :: pairs))).
  { apply Forall_forall. intros t Ht. apply list_elem_of_In, in_map_iff in Ht.
    destruct Ht as (o & <- & Ho). by rewrite item_text_quote. }
  destruct (join_length _ Hne) as [Hlen Hlens]. rewrite length_map in Hlen.
  assert (Hq : exists text, join (map item_text (kv :: pairs)) = QUOTE :: text).
  { cbn [map]. rewrite join_cons, item_text_quote. cbn [app]. eauto. }
  destruct Hq as [text Hq]. rewrite Hq in *. cbn [app].
  change (skip_ws (QUOTE :: ?x)) with (QUOTE :: x).
  change (QUOTE =? QUOTE) with true. cbv iota.
  rewrite (object_loop_serialize _ (kv :: pairs) [] _ [] text); [done| |done|].
  - apply Forall_forall. intros o Ho.
    assert (Hwfo : well_formed (int_max_str_digits py) depth (snd o) = true)
      by by apply Hwf, list_elem_of_In.
    split; [by apply (serialize_starts (int_max_str_digits py) depth)|].
    intros rest' Hrest'. by apply scan_serialize.
  - cbn [List.length] in Hlen |- *. rewrite length_app. lia.
Qed.

End object_facts.

(** X18.  A payload that is the text of a JSON object naming a key more
    than once is decoded to a dict in which the key has the value given
    last: looking a key up in the result finds what the last item of the
    text with that key holds.  The values are such as [json.loads] reads
    back one level inside the object. *)
Theorem repeated_key_keeps_last_value py depth pairs :
  recursion_budget py = S depth ->
  forallb (fun kv => serializer.well_formed (int_max_str_digits py) depth (snd kv))
    pairs = true ->
  maybe_json py (PyStr (serializer.serialize false (PyDict pairs)))
    = Ok (PyDict (dict_of_pairs pairs)) /\
  forall key, dict_lookup (dict_of_pairs pairs) key = dict_lookup (rev pairs) key.
Proof.
  intros Hdepth Hwf. split.
  - unfold maybe_json. by rewrite (object_facts.loads_object _ _ _ Hdepth Hwf).
  - intros key. unfold dict_of_pairs. rewrite object_facts.dict_lookup_fold.
    by destruct (dict_lookup (rev pairs) key).
Qed.

(** ** Whitespace around a text *)

Module whitespace_facts.
Import json.

Lemma scanstring_app_aux n x :
  forall s chunks k r, (List.length s <= n)%nat ->
    scanstring s chunks = Some (k, r) ->
    scanstring (s ++ x) chunks = Some (k, r ++ x).
Proof.
  induction n as [|n IH]; intros s chunks k r Hn H.
  - destruct s; [discriminate | simpl in Hn; lia].
  - destruct s as [|c s]; [discriminate|]. cbn [scanstring] in H.
    cbn [app scanstring]. cbn [List.length] in Hn.
    destruct (c =? QUOTE); [by injection H as <- <-|].
    destruct (c <? 32); [discriminate|].
    destruct (negb (c =? BSLASH)); [apply IH; [lia | done]|].
    destruct s as [|esc r1]; [discriminate|]. cbn [app List.length] in *.
    destruct (negb (esc =? 117)).
    { destruct (BACKSLASH esc); [|discriminate]. apply IH; [lia | done]. }
    destruct r1 as [|a [|b [|c2 [|d r2]]]]; try discriminate.
    cbn [app List.length] in *.
    destruct (decode_uXXXX a b c2 d) as [uni|]; [|discriminate].
    destruct r2 as [|bs [|lu r3]].
    + discriminate.
    + cbn [app]. cbn [scanstring] in H.
      destruct (bs =? QUOTE) eqn:Eq; [|].
      * injection H as <- <-. apply N.eqb_eq in Eq as ->.
        destruct x as [|lu x]; [reflexivity|].
        change (QUOTE =? BSLASH) with false. rewrite andb_false_r. reflexivity.
      * destruct (bs <? 32) eqn:El; [discriminate|].
        destruct (negb (bs =? BSLASH)) eqn:Eb; [discriminate|discriminate].
    + cbn [app List.length] in *.
      destruct (is_high_surrogate uni && (bs =? BSLASH) && (lu =? 117)).
      * destruct r3 as [|a' [|b' [|c' [|d' r4]]]]; try discriminate.
        cbn [app List.length] in *.
        destruct (decode_uXXXX a' b' c' d') as [uni2|]; [|discriminate].
        destruct (is_low_surrogate uni2).
        -- apply IH; [lia | done].
        -- apply (IH (bs :: lu :: a' :: b' :: c' :: d' :: r4)); [simpl; lia | done].
      * apply (IH (bs :: lu :: r3)); [simpl; lia | done].
Qed.


Lemma scanstring_app x s chunks k r :
  scanstring s chunks = Some (k, r) ->
  scanstring (s ++ x) chunks = Some (k, r ++ x).
Proof. apply (scanstring_app_aux (List.length s)). lia. Qed.

Lemma is_ws_cases c : is_ws c = true -> c = 32 \/ c = 9 \/ c = 10 \/ c = 13.
Proof. unfold is_ws. rewrite !orb_true_iff, !N.eqb_eq. tauto. Qed.

(** What follows the text: nothing, or whitespace first. *)
Lemma blank_cases x :
  forallb is_ws x = true ->
  x = [] \/ exists c r, x = c :: r /\ (c = 32 \/ c = 9 \/ c = 10 \/ c = 13).
Proof.
  destruct x as [|c r]; [by left|]. cbn [forallb].
  intros [Hc _]%andb_true_iff. right. exists c, r. split; [done|].
  by apply is_ws_cases.
Qed.

Ltac blank x H :=
  let c := fresh "c" in
  let r := fresh "r" in
  destruct (blank_cases x H) as [-> | (c & r & -> & [-> | [-> | [-> | ->]]])].

Lemma skip_ws_app_cons s c r x :
  skip_ws s = c :: r -> skip_ws (s ++ x) = c :: r ++ x.
Proof.
  induction s as [|c' s IH]; [discriminate|]. cbn [app skip_ws].
  destruct (is_ws c'); [done|]. by intros [= -> ->].
Qed.

Lemma skip_ws_fixed s c r : skip_ws s = c :: r -> skip_ws (c :: r) = c :: r.
Proof.
  induction s as [|c' s IH]; [discriminate|]. cbn [skip_ws].
  destruct (is_ws c') eqn:E; [done|]. intros [= -> ->]. cbn [skip_ws]. by rewrite E.
Qed.

Lemma strip_prefix_some_app lit s r x :
  strip_prefix lit s = Some r -> strip_prefix lit (s ++ x) = Some (r ++ x).
Proof.
  revert s. induction lit as [|l lit IH]; intros [|y s]; cbn [strip_prefix app];
    try discriminate; try (by intros [= <-]).
  destruct (l =? y); [apply IH | discriminate].
Qed.

Lemma strip_prefix_none_app lit s x :
  forallb is_ws x = true ->
  Forall (fun c => is_ws c = false) lit ->
  strip_prefix lit s = None -> strip_prefix lit (s ++ x) = None.
Proof.
  intros Hx Hlit. revert s. induction Hlit as [|l lit Hl _ IH]; intros s H;
    [by destruct s|].
  destruct s as [|y s].
  - cbn [app]. destruct x as [|c x]; [done|]. cbn [strip_prefix forallb] in *.
    apply andb_true_iff in Hx as [Hc _].
    destruct (l =? c) eqn:E; [|done]. apply N.eqb_eq in E as ->. congruence.
  - cbn [app strip_prefix] in *. destruct (l =? y); [by apply IH | done].
Qed.

Ltac letters := repeat constructor.

Lemma scan_literal_app s v r x :
  forallb is_ws x = true ->
  scan_literal s = Some (v, r) -> scan_literal (s ++ x) = Some (v, r ++ x).
Proof.
  intros Hx. unfold scan_literal.
  destruct (strip_prefix (str_of "null") s) as [r0|] eqn:E1.
  { intros [= <- <-]. by rewrite (strip_prefix_some_app _ _ _ x E1). }
  rewrite (strip_prefix_none_app (str_of "null") _ _ Hx ltac:(letters) E1).
  destruct (strip_prefix (str_of "true") s) as [r0|] eqn:E2.
  { intros [= <- <-]. by rewrite (strip_prefix_some_app _ _ _ x E2). }
  rewrite (strip_prefix_none_app (str_of "true") _ _ Hx ltac:(letters) E2).
  destruct (strip_prefix (str_of "false") s) as [r0|] eqn:E3; [|discriminate].
  intros [= <- <-]. by rewrite (strip_prefix_some_app _ _ _ x E3).
Qed.

Lemma scan_literal_none_app s x :
  forallb is_ws x = true ->
  scan_literal s = None -> scan_literal (s ++ x) = None.
Proof.
  intros Hx. unfold scan_literal.
  destruct (strip_prefix (str_of "null") s) eqn:E1; [discriminate|].
  destruct (strip_prefix (str_of "true") s) eqn:E2; [discriminate|].
  destruct (strip_prefix (str_of "false") s) eqn:E3; [discriminate|]. intros _.
  by rewrite (strip_prefix_none_app (str_of "null") _ _ Hx ltac:(letters) E1),
    (strip_prefix_none_app (str_of "true") _ _ Hx ltac:(letters) E2),
    (strip_prefix_none_app (str_of "false") _ _ Hx ltac:(letters) E3).
Qed.

Lemma span_digits_blank s ds r x :
  forallb is_ws x = true ->
  span_digits s = (ds, r) -> span_digits (s ++ x) = (ds, r ++ x).
Proof.
  intros Hx. revert ds r. induction s as [|c s IH]; intros ds r H.
  - injection H as <- <-. blank x Hx; reflexivity.
  - cbn [app span_digits] in *. destruct (is_digit c).
    + destruct (span_digits s) as [ds' r'] eqn:E. injection H as <- <-.
      by rewrite (IH _ _ eq_refl).
    + by injection H as <- <-.
Qed.

Lemma match_integer_blank s i r x :
  forallb is_ws x = true ->
  match_integer s = Some (i, r) -> match_integer (s ++ x) = Some (i, r ++ x).
Proof.
  unfold match_integer. intros Hx H.
  destruct s as [|c s]; [discriminate|]. cbn [app].
  destruct (c =? MINUS).
  - destruct s as [|c' s]; [discriminate|]. cbn [app].
    destruct (c' =? ZERO); [by injection H as <- <-|].
    destruct (is_digit c'); [|discriminate].
    destruct (span_digits s) as [ds rest'] eqn:E. injection H as <- <-.
    by rewrite (span_digits_blank _ _ _ _ Hx E).
  - destruct (c =? ZERO); [by injection H as <- <-|].
    destruct (is_digit c); [|discriminate].
    destruct (span_digits s) as [ds rest'] eqn:E. injection H as <- <-.
    by rewrite (span_digits_blank _ _ _ _ Hx E).
Qed.

Lemma match_integer_none_blank s x :
  forallb is_ws x = true ->
  match_integer s = None -> match_integer (s ++ x) = None.
Proof.
  unfold match_integer. intros Hx H.
  destruct s as [|c s]; [blank x Hx; reflexivity|]. cbn [app].
  destruct (c =? MINUS).
  - destruct s as [|c' s]; [blank x Hx; reflexivity|]. cbn [app].
    destruct (c' =? ZERO); [discriminate|].
    destruct (is_digit c'); [|done].
    by destruct (span_digits s).
  - destruct (c =? ZERO); [discriminate|].
    destruct (is_digit c); [|done].
    by destruct (span_digits s).
Qed.

Lemma match_frac_blank s f r x :
  forallb is_ws x = true ->
  match_frac s = (f, r) -> match_frac (s ++ x) = (f, r ++ x).
Proof.
  intros Hx H. destruct s as [|c s].
  - injection H as <- <-. blank x Hx; reflexivity.
  - unfold match_frac in *. cbn [app]. destruct (c =? DOT); [|by injection H as <- <-].
    destruct (span_digits s) as [ds rest'] eqn:E.
    rewrite (span_digits_blank _ _ _ _ Hx E).
    by destruct ds; injection H as <- <-.
Qed.

Lemma match_exp_blank s e r x :
  forallb is_ws x = true ->
  match_exp s = (e, r) -> match_exp (s ++ x) = (e, r ++ x).
Proof.
  intros Hx H. destruct s as [|c s].
  - injection H as <- <-. blank x Hx; reflexivity.
  - unfold match_exp in *. cbn [app].
    destruct ((c =? 101) || (c =? 69)); [|by injection H as <- <-].
    destruct s as [|d s'].
    + cbn [app]. injection H as <- <-. blank x Hx; reflexivity.
    + cbn [app]. destruct ((d =? PLUS) || (d =? MINUS)).
      * destruct (span_digits s') as [ds rest'] eqn:E.
        rewrite (span_digits_blank _ _ _ _ Hx E).
        by destruct ds; injection H as <- <-.
      * destruct (span_digits (d :: s')) as [ds rest'] eqn:E.
        change (d :: s' ++ x) with ((d :: s') ++ x).
        rewrite (span_digits_blank _ _ _ _ Hx E).
        by destruct ds; injection H as <- <-.
Qed.

Lemma match_number_blank s i f e r x :
  forallb is_ws x = true ->
  match_number s = Some (i, f, e, r) ->
  match_number (s ++ x) = Some (i, f, e, r ++ x).
Proof.
  unfold match_number. intros Hx H.
  destruct (match_integer s) as [[i' s1]|] eqn:E1; [|discriminate].
  destruct (match_frac s1) as [f' s2] eqn:E2.
  destruct (match_exp s2) as [e' s3] eqn:E3.
  injection H as <- <- <- <-.
  by rewrite (match_integer_blank _ _ _ _ Hx E1),
    (match_frac_blank _ _ _ _ Hx E2), (match_exp_blank _ _ _ _ Hx E3).
Qed.

Lemma match_number_none_blank s x :
  forallb is_ws x = true ->
  match_number s = None -> match_number (s ++ x) = None.
Proof.
  unfold match_number. intros Hx H.
  destruct (match_integer s) as [[i' s1]|] eqn:E1.
  - destruct (match_frac s1), (match_exp _). discriminate.
  - by rewrite (match_integer_none_blank _ _ Hx E1).
Qed.

(** More turns of a loop change nothing. *)
Lemma array_loop_mono f1 f2 n : forall m,
  refines f1 f2 -> (n <= m)%nat ->
  forall s values v r,
    array_loop f1 n s values = Scanned v r -> array_loop f2 m s values = Scanned v r.
Proof.
  induction n as [|n IH]; intros m Hf Hm s values v r H; [discriminate|].
  destruct m as [|m]; [lia|]. cbn [array_loop] in *.
  destruct (f1 s) as [value r1| | |] eqn:E; try discriminate.
  rewrite (Hf _ _ _ E).
  destruct (skip_ws r1) as [|c r2]; [discriminate|].
  destruct (c =? RBRACKET); [done|].
  destruct (c =? COMMA); [|discriminate]. apply (IH m); [done | lia | done].
Qed.

Lemma object_loop_mono f1 f2 n : forall m,
  refines f1 f2 -> (n <= m)%nat ->
  forall s pairs v r,
    object_loop f1 n s pairs = Scanned v r -> object_loop f2 m s pairs = Scanned v r.
Proof.
  induction n as [|n IH]; intros m Hf Hm s pairs v r H; [discriminate|].
  destruct m as [|m]; [lia|]. cbn [object_loop] in *.
  destruct (scanstring s []) as [[key r0]|]; [|discriminate].
  destruct (skip_ws r0) as [|c r1]; [discriminate|].
  destruct (c =? COLON); [|discriminate].
  destruct (f1 (skip_ws r1)) as [value r2| | |] eqn:E2; try discriminate.
  rewrite (Hf _ _ _ E2).
  destruct (skip_ws r2) as [|c3 r3]; [discriminate|].
  destruct (c3 =? RBRACE); [done|].
  destruct (c3 =? COMMA); [|discriminate].
  destruct (skip_ws r3) as [|c4 r4]; [discriminate|].
  destruct (c4 =? QUOTE); [|discriminate]. apply (IH m); [done | lia | done].
Qed.

Section Blank.

Variable pc : pystr -> option PyValue.
Variable max : nat.
Variable x : pystr.
Hypothesis Hx : forallb is_ws x = true.

Lemma scan_number_local s v r :
  scan_number pc max s = Scanned v r ->
  scan_number pc max (s ++ x) = Scanned v (r ++ x).
Proof using Hx.
  unfold scan_number, scan_constant.
  destruct (match_number s) as [[[[i f] e] rest]|] eqn:E.
  { rewrite (match_number_blank _ _ _ _ _ _ Hx E).
    destruct f, e; [destruct (exceeds_limit _ _); [discriminate|]|..];
      by intros [= <- <-]. }
  rewrite (match_number_none_blank _ _ Hx E).
  destruct (strip_prefix (str_of "NaN") s) as [r0|] eqn:E1.
  { rewrite (strip_prefix_some_app _ _ _ x E1).
    destruct (pc (str_of "NaN")); [by intros [= <- <-] | discriminate]. }
  rewrite (strip_prefix_none_app (str_of "NaN") _ _ Hx ltac:(letters) E1).
  destruct (strip_prefix (str_of "Infinity") s) as [r0|] eqn:E2.
  { rewrite (strip_prefix_some_app _ _ _ x E2).
    destruct (pc (str_of "Infinity")); [by intros [= <- <-] | discriminate]. }
  rewrite (strip_prefix_none_app (str_of "Infinity") _ _ Hx ltac:(letters) E2).
  destruct (strip_prefix (str_of "-Infinity") s) as [r0|] eqn:E3; [|discriminate].
  rewrite (strip_prefix_some_app _ _ _ x E3).
  destruct (pc (str_of "-Infinity")); [by intros [= <- <-] | discriminate].
Qed.

Lemma array_loop_local f n :
  (forall s v r, f s = Scanned v r -> f (s ++ x) = Scanned v (r ++ x)) ->
  progresses f ->
  forall s values v r,
    array_loop f n s values = Scanned v r ->
    array_loop f n (s ++ x) values = Scanned v (r ++ x).
Proof.
  intros Hf Hp. induction n as [|n IH]; intros s values v r H; [discriminate|].
  cbn [array_loop] in *.
  destruct (f s) as [value r1| | |] eqn:E; try discriminate.
  rewrite (Hf _ _ _ E).
  destruct (skip_ws r1) as [|c r2] eqn:E1; [discriminate|].
  rewrite (skip_ws_app_cons _ _ _ x E1).
  destruct (c =? RBRACKET); [by injection H as <- <-|].
  destruct (c =? COMMA); [|discriminate].
  destruct (skip_ws r2) as [|c3 r3] eqn:E2.
  - destruct n; [discriminate|]. cbn [array_loop] in H.
    destruct (f []) as [value' r'| | |] eqn:E'; try discriminate.
    apply Hp in E'. simpl in E'. lia.
  - rewrite (skip_ws_app_cons _ _ _ x E2). by apply (IH (c3 :: r3)).
Qed.

Lemma object_loop_local f n :
  (forall s v r, f s = Scanned v r -> f (s ++ x) = Scanned v (r ++ x)) ->
  progresses f ->
  forall s pairs v r,
    object_loop f n s pairs = Scanned v r ->
    object_loop f n (s ++ x) pairs = Scanned v (r ++ x).
Proof.
  intros Hf Hp. induction n as [|n IH]; intros s pairs v r H; [discriminate|].
  cbn [object_loop] in *.
  destruct (scanstring s []) as [[key r0]|] eqn:Ek; [|discriminate].
  rewrite (scanstring_app x _ _ _ _ Ek).
  destruct (skip_ws r0) as [|c r1] eqn:E1; [discriminate|].
  rewrite (skip_ws_app_cons _ _ _ x E1).
  destruct (c =? COLON); [|discriminate].
  destruct (skip_ws r1) as [|c2 r2] eqn:E2.
  - destruct (f []) as [value r'| | |] eqn:E'; try discriminate.
    apply Hp in E'. simpl in E'. lia.
  - rewrite (skip_ws_app_cons _ _ _ x E2).
    destruct (f (c2 :: r2)) as [value r3| | |] eqn:E3; try discriminate.
    change (c2 :: r2 ++ x) with ((c2 :: r2) ++ x). rewrite (Hf _ _ _ E3).
    destruct (skip_ws r3) as [|c4 r4] eqn:E4; [discriminate|].
    rewrite (skip_ws_app_cons _ _ _ x E4).
    destruct (c4 =? RBRACE); [by injection H as <- <-|].
    destruct (c4 =? COMMA); [|discriminate].
    destruct (skip_ws r4) as [|c5 r5] eqn:E5; [discriminate|].
    rewrite (skip_ws_app_cons _ _ _ x E5).
    destruct (c5 =? QUOTE); [|discriminate]. by apply IH.
Qed.

Lemma scan_once_local n : forall s v r,
  scan_once pc max n s = Scanned v r ->
  scan_once pc max n (s ++ x) = Scanned v (r ++ x).
Proof using Hx.
  induction n as [|n IH]; intros s v r H; rewrite json_facts.scan_once_eq in *;
    (destruct s as [|c s]; [discriminate|]); cbn [app];
    (destruct (c =? QUOTE);
     [destruct (scanstring s []) as [[str rest]|] eqn:E; [|discriminate];
      injection H as <- <-; by rewrite (scanstring_app x _ _ _ _ E)|]).
  - destruct (c =? LBRACE); [discriminate|].
    destruct (c =? LBRACKET); [discriminate|].
    change (c :: s ++ x) with ((c :: s) ++ x).
    destruct (scan_literal (c :: s)) as [[v' rest]|] eqn:E.
    + injection H as <- <-. by rewrite (scan_literal_app _ _ _ _ Hx E).
    + rewrite (scan_literal_none_app _ _ Hx E). by apply scan_number_local.
  - assert (S (List.length s) <= S (List.length (s ++ x)))%nat as Hlen
      by (rewrite length_app; lia).
    destruct (c =? LBRACE).
    { unfold JSONObject in *.
      destruct (skip_ws s) as [|c1 r1] eqn:E1; [discriminate|].
      rewrite (skip_ws_app_cons _ _ _ x E1).
      destruct (c1 =? QUOTE).
      - apply (object_loop_mono (scan_once pc max n) _ (S (List.length s)));
          [by intros ? ? ? ?|done|].
        apply object_loop_local; [done | apply json_facts.scan_once_progress | done].
      - destruct (c1 =? RBRACE); [by injection H as <- <- | discriminate]. }
    destruct (c =? LBRACKET).
    { unfold JSONArray in *.
      destruct (skip_ws s) as [|c1 r1] eqn:E1; [discriminate|].
      rewrite (skip_ws_app_cons _ _ _ x E1).
      destruct (c1 =? RBRACKET); [by injection H as <- <-|].
      apply (array_loop_mono (scan_once pc max n) _ (S (List.length s)));
        [by intros ? ? ? ?|done|].
      by apply (array_loop_local _ _ IH (json_facts.scan_once_progress pc max n)
                  (c1 :: r1)). }
    change (c :: s ++ x) with ((c :: s) ++ x).
    destruct (scan_literal (c :: s)) as [[v' rest]|] eqn:E.
    + injection H as <- <-. by rewrite (scan_literal_app _ _ _ _ Hx E).
    + rewrite (scan_literal_none_app _ _ Hx E). by apply scan_number_local.
Qed.

End Blank.

(** Whitespace before and after a text that is accepted. *)
Lemma decode_blank pc max depth a text b obj :
  forallb is_ws a = true -> forallb is_ws b = true ->
  decode pc max depth text = Scanned obj [] ->
  decode pc max depth (a ++ text ++ b) = Scanned obj [].
Proof.
  intros Ha Hb. unfold decode.
  destruct (scan_once _ _ _ (skip_ws text)) as [v rest| | |] eqn:E; try discriminate.
  destruct (skip_ws rest) eqn:Er; [|discriminate]. intros [= ->].
  destruct (skip_ws text) as [|c s] eqn:Es;
    [by rewrite json_facts.scan_once_eq in E|].
  rewrite (null_facts.skip_ws_app _ _ Ha), (skip_ws_app_cons _ _ _ b Es).
  apply (scan_once_local _ _ b Hb) in E. cbn [app] in E. rewrite E.
  assert (skip_ws (rest ++ b) = []) as ->; [|done].
  rewrite null_facts.skip_ws_app; [by apply null_facts.skip_ws_all|].
  by apply null_facts.skip_ws_nil.
Qed.

Lemma loads_blank py a text b obj :
  forallb is_ws a = true -> forallb is_ws b = true ->
  json.loads py (PyStr text) = Ok obj ->
  json.loads py (PyStr (a ++ text ++ b)) = Ok obj.
Proof.
  intros Ha Hb. unfold loads, default_decoder.
  destruct (strip_prefix [0xfeff] text) eqn:Ebom; [discriminate|].
  destruct (decode _ _ _ text) as [v rest| | |] eqn:E; try discriminate.
  intros [= ->].
  assert (rest = []) as ->.
  { unfold decode in E. destruct (scan_once _ _ _ _) as [o r| | |]; try discriminate.
    by destruct (skip_ws r); [injection E as _ <-|]. }
  rewrite (decode_blank _ _ _ _ _ _ _ Ha Hb E).
  assert (strip_prefix [0xfeff] (a ++ text ++ b) = None) as ->; [|done].
  destruct a as [|c' a].
  - destruct text as [|c' text].
    + unfold decode in E. cbn [skip_ws] in E.
      by rewrite json_facts.scan_once_eq in E.
    + cbn [app strip_prefix] in *. by destruct (0xfeff =? c').
  - cbn [forallb] in Ha. apply andb_true_iff in Ha as [Hc _].
    cbn [app strip_prefix]. by rewrite (null_facts.is_ws_not_bom _ Hc).
Qed.

End whitespace_facts.

(** X19.  Whitespace around the text of a payload does not matter: a text
    that [maybe_json] decodes is decoded to the same value with spaces,
    tabs and line ends put before and after it. *)
Theorem maybe_json_ignores_outer_whitespace py a text b obj :
  forallb json.is_ws a = true -> forallb json.is_ws b = true ->
  json.loads py (PyStr text) = Ok obj ->
  maybe_json py (PyStr (a ++ text ++ b)) = Ok obj.
Proof.
  intros Ha Hb H. unfold maybe_json.
  by rewrite (whitespace_facts.loads_blank _ _ _ _ _ Ha Hb H).
Qed.
(** ** The properties on the sample inputs *)

Lemma notification_excludes_request_and_response_witness :
  is_notification 0%nat notified_world = (Ok true, notified_world) /\
  is_request 0%nat notified_world = (Ok false, notified_world) /\
  is_response 0%nat notified_world = (Ok false, notified_world).
Proof.
  split; [reflexivity|].
  apply notification_excludes_request_and_response. reflexivity.
Defined.

Lemma classification_reads_presence_only_witness :
  method sample_message <> method other_request /\
  params sample_message <> params other_request /\
  fst (is_request 1%nat parsed_world) = fst (is_request 0%nat other_world) /\
  fst (is_response 1%nat parsed_world) = fst (is_response 0%nat other_world) /\
  fst (is_notification 1%nat parsed_world)
    = fst (is_notification 0%nat other_world).
Proof.
  split; [discriminate|]. split; [discriminate|].
  apply (classification_reads_presence_only parsed_world other_world 1%nat 0%nat
           sample_message other_request); reflexivity.
Defined.

Lemma params_make_request_or_notification_witness :
  heap parsed_world !! 1%nat = Some (OMessage sample_message) /\
  params sample_message <> PyNone /\
  exists b,
    is_request 1%nat parsed_world = (Ok b, parsed_world) /\
    is_notification 1%nat parsed_world = (Ok (negb b), parsed_world) /\
    (b = true <-> id sample_message <> PyNone).
Proof.
  split; [reflexivity|]. split; [discriminate|].
  apply (params_make_request_or_notification parsed_world 1%nat sample_message);
    [reflexivity | discriminate].
Defined.

Lemma missing_keys_are_none_witness :
  heap shutdown_world !! 0%nat = Some (ODict shutdown_request) /\
  basic_fromisoformat sample_timestamp = Some (timestamp sample_message) /\
  dict_lookup shutdown_request (str_of "params") = None /\
  dict_lookup shutdown_request (str_of "result") = None /\
  dict_lookup shutdown_request (str_of "error") = None /\
  exists l w' m,
    from_rpc sample_interpreter basic_fromisoformat (str_of "s1") sample_timestamp (str_of "client")
      0%nat shutdown_world = (Ok l, w') /\
    heap w' !! l = Some (OMessage m) /\
    params m = PyNone /\ result m = PyNone /\ error m = PyNone /\
    is_request l w' = (Ok false, w') /\
    is_response l w' = (Ok false, w') /\
    is_notification l w' = (Ok false, w').
Proof.
  split; [reflexivity|]. split; [reflexivity|]. split; [reflexivity|].
  split; [reflexivity|]. split; [reflexivity|].
  destruct (missing_keys_are_none sample_interpreter basic_fromisoformat shutdown_world (str_of "s1")
              sample_timestamp (timestamp sample_message) (str_of "client") 0%nat
              shutdown_request eq_refl eq_refl)
    as (l & w' & m & Hrun & Hl & _ & _ & Hp & Hr & He & Hclass).
  exists l, w', m.
  split; [exact Hrun|]. split; [exact Hl|].
  split; [exact (Hp eq_refl)|]. split; [exact (Hr eq_refl)|].
  split; [exact (He eq_refl)|]. exact (Hclass eq_refl eq_refl eq_refl).
Defined.

Lemma id_and_method_kept_verbatim_witness :
  heap sample_world !! 0%nat = Some (ODict sample_request) /\
  basic_fromisoformat sample_timestamp = Some (timestamp sample_message) /\
  maybe_json sample_interpreter (PyStr (str_of "1")) = Ok (PyInt 1) /\
  exists l w' m,
    from_rpc sample_interpreter basic_fromisoformat (str_of "s1") sample_timestamp (str_of "client")
      0%nat sample_world = (Ok l, w') /\
    heap w' !! l = Some (OMessage m) /\
    id m = PyStr (str_of "1") /\
    method m = PyStr (str_of "initialize").
Proof.
  split; [reflexivity|]. split; [reflexivity|]. split; [reflexivity|].
  apply (id_and_method_kept_verbatim sample_interpreter basic_fromisoformat sample_world (str_of "s1")
           sample_timestamp (timestamp sample_message) (str_of "client") 0%nat
           sample_request); reflexivity.
Defined.

Lemma from_rpc_raises_for_timestamp_only_witness :
  heap sample_world !! 0%nat = Some (ODict sample_request) /\
  from_rpc sample_interpreter basic_fromisoformat (str_of "s1") (str_of "yesterday") (str_of "client")
    0%nat sample_world = (Raise ValueError, sample_world) /\
  ValueError = ValueError /\
  basic_fromisoformat (str_of "yesterday") = None /\
  sample_world = sample_world.
Proof.
  split; [reflexivity|]. split; [reflexivity|].
  apply (from_rpc_raises_for_timestamp_only sample_interpreter basic_fromisoformat sample_world
           (str_of "s1") (str_of "yesterday") (str_of "client") 0%nat
           sample_request ValueError sample_world); reflexivity.
Defined.

Lemma other_keys_are_ignored_witness :
  heap sample_world !! 0%nat = Some (ODict sample_request) /\
  heap sample_world_2_0 !! 0%nat = Some (ODict sample_request_2_0) /\
  sample_request <> sample_request_2_0 /\
  exists m,
    heap (snd (from_rpc sample_interpreter basic_fromisoformat (str_of "s1") sample_timestamp
                 (str_of "client") 0%nat sample_world)) !! 1%nat
      = Some (OMessage m) /\
    heap (snd (from_rpc sample_interpreter basic_fromisoformat (str_of "s1") sample_timestamp
                 (str_of "client") 0%nat sample_world_2_0)) !! 1%nat
      = Some (OMessage m).
Proof.
  split; [reflexivity|]. split; [reflexivity|]. split; [discriminate|].
  apply (other_keys_are_ignored sample_interpreter basic_fromisoformat sample_world sample_world_2_0
           (str_of "s1") sample_timestamp (str_of "client") 0%nat 0%nat
           sample_request sample_request_2_0 eq_refl eq_refl).
  intros key [<- | [<- | [<- | [<- | [<- | []]]]]]; reflexivity.
Defined.

Lemma maybe_json_decodes_serialized_witness :
  readable sample_interpreter sample_value = true /\
  maybe_json sample_interpreter (PyStr (serializer.serialize false sample_value))
    = Ok sample_value.
Proof.
  split; [vm_compute; reflexivity|].
  apply (maybe_json_decodes_serialized sample_interpreter sample_value).
  vm_compute; reflexivity.
Defined.

Lemma parsed_message_classification_witness :
  heap bytes_world !! 0%nat = Some (ODict bytes_request) /\
  basic_fromisoformat sample_timestamp = Some (timestamp sample_message) /\
  absent (dict_get bytes_request (str_of "params") PyNone) /\
  exists l w',
    from_rpc sample_interpreter basic_fromisoformat (str_of "s1") sample_timestamp
      (str_of "client") 0%nat bytes_world = (Ok l, w') /\
    (is_request l w' = (Ok true, w') <->
       dict_get bytes_request (str_of "id") PyNone <> PyNone /\
       ~ absent (dict_get bytes_request (str_of "params") PyNone)) /\
    (is_response l w' = (Ok true, w') <->
       dict_get bytes_request (str_of "id") PyNone <> PyNone /\
       (~ absent (dict_get bytes_request (str_of "result") PyNone) \/
        ~ absent (dict_get bytes_request (str_of "error") PyNone))) /\
    (is_notification l w' = (Ok true, w') <->
       dict_get bytes_request (str_of "id") PyNone = PyNone /\
       ~ absent (dict_get bytes_request (str_of "params") PyNone)).
Proof.
  split; [reflexivity|]. split; [reflexivity|]. split.
  { right. exists (str_of "null"). split; [reflexivity|].
    exists [], []. by repeat split. }
  apply (parsed_message_classification sample_interpreter basic_fromisoformat
           bytes_world (str_of "s1") sample_timestamp (timestamp sample_message)
           (str_of "client") 0%nat bytes_request); reflexivity.
Defined.

(** The [bytes] of the text [null] are no payload either, in UTF-8 or
    in UTF-16; [bytes] that are no text are kept.  The message parsed
    from [bytes_request] has an [id] and is no request. *)
Example bytes_null_is_absent :
  maybe_json sample_interpreter (PyBytes (str_of "null")) = Ok PyNone /\
  maybe_json sample_interpreter (PyByteArray (str_of " null ")) = Ok PyNone /\
  maybe_json sample_interpreter (PyBytes [110; 0; 117; 0; 108; 0; 108; 0])
    = Ok PyNone /\
  maybe_json sample_interpreter (PyBytes [255]) = Ok (PyBytes [255]) /\
  exists w',
    from_rpc sample_interpreter basic_fromisoformat (str_of "s1") sample_timestamp
      (str_of "client") 0%nat bytes_world = (Ok 1%nat, w') /\
    is_request 1%nat w' = (Ok false, w').
Proof.
  do 4 (split; [reflexivity|]).
  eexists. split; reflexivity.
Qed.

(** At the limits of the interpreter a valid JSON text is kept as it is:
    an [int] of 4301 digits, and more containers, one inside the other,
    than the interpreter may enter. *)
Example text_beyond_limits_is_kept :
  let long := repeat 49 4301 in
  let deep := repeat LBRACKET 101 ++ repeat RBRACKET 101 in
  valid_json long /\
  maybe_json sample_interpreter (PyStr long) = Ok (PyStr long) /\
  valid_json deep /\
  maybe_json sample_interpreter (PyStr deep) = Ok (PyStr deep) /\
  maybe_json sample_interpreter (PyStr (repeat 49 4300))
    = Ok (PyInt (json.digits_value (repeat 49 4300))).
Proof.
  cbv zeta. split; [eexists; vm_compute; reflexivity|].
  split; [vm_compute; reflexivity|].
  split; [eexists; vm_compute; reflexivity|].
  split; vm_compute; reflexivity.
Qed.

Lemma assignment_agrees_with_from_rpc_witness :
  heap parsed_world !! 1%nat
    = Some (OMessage (message_of sample_interpreter (str_of "s1") (timestamp sample_message)
                        (str_of "client") sample_request)) /\
  exists w',
    LspMessage_setattr sample_interpreter 1%nat (set_params null) parsed_world = (Ok tt, w') /\
    heap w' !! 1%nat =
      Some (OMessage (message_of sample_interpreter (str_of "s1") (timestamp sample_message)
                        (str_of "client")
                        (dict_setitem sample_request (str_of "params") null))) /\
    (forall l, l <> 1%nat -> heap w' !! l = heap parsed_world !! l) /\
    handled w' = handled parsed_world.
Proof.
  split; [reflexivity|].
  apply (assignment_agrees_with_from_rpc sample_interpreter parsed_world 1%nat (str_of "s1")
           (timestamp sample_message) (str_of "client") sample_request
           (str_of "params") set_params null);
    [reflexivity | left; reflexivity].
Defined.

Lemma emit_missing_entry_witness :
  emit sample_interpreter basic_fromisoformat LspHandler_handle_message no_source_record sample_world
    = (Raise (KeyError (str_of "Message-Source")), sample_world) /\
  emit sample_interpreter basic_fromisoformat LspHandler_handle_message no_session_record sample_world
    = (Raise (KeyError (str_of "Message-Session")), sample_world) /\
  emit sample_interpreter basic_fromisoformat LspHandler_handle_message no_timestamp_record
    sample_world
    = (Raise (KeyError (str_of "Message-Timestamp")), sample_world).
Proof.
  split; [|split].
  - apply (proj1 (emit_missing_entry sample_interpreter basic_fromisoformat LspHandler_handle_message
                    sample_world no_source_record 0%nat eq_refl)).
    simpl. intros [H | []]. discriminate H.
  - apply (proj1 (proj2 (emit_missing_entry sample_interpreter basic_fromisoformat
                           LspHandler_handle_message sample_world
                           no_session_record 0%nat eq_refl))).
    + simpl. left. reflexivity.
    + simpl. intros [H | []]. discriminate H.
  - apply (proj2 (proj2 (emit_missing_entry sample_interpreter basic_fromisoformat
                           LspHandler_handle_message sample_world
                           no_timestamp_record 0%nat eq_refl))).
    + simpl. left. reflexivity.
    + simpl. right. left. reflexivity.
    + simpl. intros [H | [H | []]]; discriminate H.
Defined.

Lemma emit_rejected_timestamp_witness :
  args bad_record = args_dict 0%nat /\
  basic_fromisoformat (str_of "yesterday") = None /\
  emit sample_interpreter basic_fromisoformat LspHandler_handle_message bad_record sample_world
    = (Raise ValueError, sample_world).
Proof.
  split; [reflexivity|]. split; [reflexivity|].
  apply (emit_rejected_timestamp sample_interpreter basic_fromisoformat LspHandler_handle_message
           sample_world bad_record 0%nat (str_of "client") (str_of "s1")
           (str_of "yesterday")); reflexivity.
Defined.

Lemma emit_changes_only_through_the_handler_witness :
  preserved sample_world
    (snd (emit sample_interpreter basic_fromisoformat LspHandler_handle_message sample_record
            sample_world)).
Proof.
  apply (emit_changes_only_through_the_handler sample_interpreter basic_fromisoformat
           LspHandler_handle_message sample_world sample_record).
  intros l h i o H. exact H.
Defined.

Lemma emits_are_handled_in_order_witness :
  exists l1 l2 w1 w',
    emit sample_interpreter basic_fromisoformat LspHandler_handle_message sample_record busy_world
      = (Ok tt, w1) /\
    emit sample_interpreter basic_fromisoformat LspHandler_handle_message server_record w1
      = (Ok tt, w') /\
    handled w' = handled busy_world ++ [l1; l2] /\
    (l1 < l2)%nat /\
    heap w' !! l1 = Some (OMessage (message_of sample_interpreter (str_of "s1")
                                      (timestamp sample_message) (str_of "client")
                                      sample_request)) /\
    heap w' !! l2 = Some (OMessage (message_of sample_interpreter (str_of "s1")
                                      (timestamp sample_notification)
                                      (str_of "server")
                                      sample_notification_mapping)).
Proof.
  apply (emits_are_handled_in_order sample_interpreter basic_fromisoformat LspHandler_handle_message
           busy_world
           sample_record 0%nat sample_request (str_of "client") (str_of "s1")
           sample_timestamp (timestamp sample_message)
           server_record 1%nat sample_notification_mapping (str_of "server")
           (str_of "s1") (str_of "2024-02-29") (timestamp sample_notification));
    try reflexivity.
  intros l h i o H. exact H.
Defined.

Lemma maybe_json_idempotent_off_str_witness :
  maybe_json sample_interpreter (PyStr (str_of "5")) = Ok (PyInt 5) /\
  maybe_json sample_interpreter (PyInt 5) = Ok (PyInt 5).
Proof.
  split; [reflexivity|].
  apply (maybe_json_idempotent_off_str sample_interpreter (PyStr (str_of "5"))
           (PyInt 5));
    [reflexivity | right; discriminate].
Defined.

Lemma maybe_json_keeps_blank_text_witness :
  maybe_json sample_interpreter (PyStr []) = Ok (PyStr []) /\
  maybe_json sample_interpreter (PyStr (str_of "  ")) = Ok (PyStr (str_of "  ")) /\
  maybe_json sample_interpreter (PyStr (0xfeff :: str_of "{}")) = Ok (PyStr (0xfeff :: str_of "{}")).
Proof.
  split; [|split].
  - apply (maybe_json_keeps_blank_text sample_interpreter []). left. reflexivity.
  - apply (maybe_json_keeps_blank_text sample_interpreter (str_of "  ")). left. reflexivity.
  - apply (maybe_json_keeps_blank_text sample_interpreter (0xfeff :: str_of "{}")). right.
    exists (str_of "{}"). reflexivity.
Defined.

Lemma repeated_key_keeps_last_value_witness :
  maybe_json sample_interpreter
    (PyStr (serializer.serialize false (PyDict repeated_items)))
    = Ok (PyDict [(str_of "a", PyStr (str_of "x")); (str_of "b", PyNone)]) /\
  dict_lookup (dict_of_pairs repeated_items) (str_of "a")
    = Some (PyStr (str_of "x")).
Proof.
  destruct (repeated_key_keeps_last_value sample_interpreter 99 repeated_items
              eq_refl eq_refl) as [H1 H2].
  split; [exact H1 | exact (H2 (str_of "a"))].
Defined.

Lemma maybe_json_ignores_outer_whitespace_witness :
  json.loads sample_interpreter (PyStr (str_of "{}")) = Ok (PyDict []) /\
  maybe_json sample_interpreter (PyStr (str_of "  " ++ str_of "{}" ++ [10])) = Ok (PyDict []).
Proof.
  split; [reflexivity|].
  apply (maybe_json_ignores_outer_whitespace sample_interpreter (str_of "  ")
           (str_of "{}") [10]);
    reflexivity.
Defined.
